(** * facematch: dataset pair sampling and checkpoint loading

    A shallow embedding of [utils/datasets.py] and [utils/saveload.py].
    Python values are modelled as follows:
    - [str] as [string], integers as [Z] (or [N] where the code can only
      produce a non-negative value);
    - an exception as the [Raise] outcome of a computation;
    - a [while] loop as a fuel-indexed recursion, [OutOfFuel] meaning that the
      loop was still running when the fuel ran out;
    - the [set] of dedup keys as a [gset string], the [defaultdict] grouping
      images by person as an insertion-ordered association list;
    - the process-global [random] generator as a state threaded through every
      draw. *)

From stdpp Require Import gmap strings list.
From Stdlib Require Import Ascii ZArith DecimalString DecimalN Sorted Lia.

Local Open Scope Z_scope.

(** ** Outcomes of a Python computation *)

Inductive exn : Type :=
  | IndexError
  | ValueError
  | AttributeError
  | OSError
  | Cv2Error
  | PyException (msg : string).

Inductive outcome (A : Type) : Type :=
  | Ret (a : A)
  | Raise (e : exn)
  | OutOfFuel.

Arguments Ret {A} a.
Arguments Raise {A} e.
Arguments OutOfFuel {A}.

Definition obind {A B : Type} (m : outcome A) (k : A -> outcome B) : outcome B :=
  match m with
  | Ret a => k a
  | Raise e => Raise e
  | OutOfFuel => OutOfFuel
  end.

Notation "x <-? m ; k" := (obind m (fun x => k))
  (at level 100, m at next level, right associativity).

(** ** Python string primitives used by the code *)

Definition is_digit (c : ascii) : bool :=
  ((48 <=? Z.of_nat (nat_of_ascii c)) && (Z.of_nat (nat_of_ascii c) <=? 57))%bool.

Definition chars (s : string) : list ascii := String.list_ascii_of_string s.
Definition of_chars (l : list ascii) : string := String.string_of_list_ascii l.

(** [s.rfind(c)] for a one-character needle: the highest index holding [c],
    or [-1]. *)
Fixpoint rfind_from (i : Z) (l : list ascii) (c : ascii) (found : Z) : Z :=
  match l with
  | [] => found
  | x :: l' => rfind_from (i + 1) l' c (if Ascii.eqb x c then i else found)
  end.

Definition rfind (s : string) (c : ascii) : Z := rfind_from 0 (chars s) c (-1).

(** [s[i:j]]: a negative bound counts from the end, then both bounds are
    clipped to [0, len(s)]. *)
Definition clip_index (len i : Z) : Z :=
  let i' := if i <? 0 then i + len else i in
  Z.max 0 (Z.min len i').

Definition py_slice (s : string) (i j : Z) : string :=
  let len := Z.of_nat (String.length s) in
  let a := clip_index len i in
  let b := clip_index len j in
  String.substring (Z.to_nat a) (Z.to_nat (b - a)) s.

(** [s[i:]] *)
Definition py_slice_from (s : string) (i : Z) : string :=
  py_slice s i (Z.of_nat (String.length s)).

Definition startswith (s p : string) : bool := String.prefix p s.

Definition endswith (s p : string) : bool :=
  String.prefix (String.rev p) (String.rev s).

(** [sep.join(parts)] *)
Fixpoint py_join (sep : string) (parts : list string) : string :=
  match parts with
  | [] => ""
  | [p] => p
  | p :: rest => p +:+ sep +:+ py_join sep rest
  end.

(** [re.sub(r"[^0-9]", "", s)] *)
Definition strip_non_digits (s : string) : string :=
  of_chars (filter (fun c => is_digit c = true) (chars s)).

(** [sys.int_info.default_max_str_digits]: CPython refuses to convert a
    string of more digits (leading zeros count) to an integer. *)
Definition int_max_str_digits : nat := 4300.

(** [int(s)] on a string that holds decimal digits only: the empty string is
    a [ValueError], and so is a string of more than [int_max_str_digits]
    digits; leading zeros are accepted. *)
Definition py_int (s : string) : outcome N :=
  match s with
  | EmptyString => Raise ValueError
  | _ =>
    if (int_max_str_digits <? String.length s)%nat then Raise ValueError
    else
      match NilEmpty.uint_of_string s with
      | Some d => Ret (N.of_uint d)
      | None => Raise ValueError
      end
  end.

(** ["{}".format(n)] for a non-negative integer; where the code formats a
    number, it comes from [int], so it has no more digits than [str] allows. *)
Definition py_str_of_int (n : N) : string := NilEmpty.string_of_uint (N.to_uint n).

(** [os.path.join(a, b)] and [os.path.basename(p)] (posixpath). *)
Definition os_path_join (a b : string) : string :=
  if startswith b "/" then b
  else if (String.eqb a "" || endswith a "/")%bool then a +:+ b
  else a +:+ "/" +:+ b.

Definition os_path_basename (p : string) : string :=
  py_slice_from p (rfind p "/" + 1).

(** [sorted([a, b])] on two strings: Python's sort is stable and compares
    code points, so the pair is swapped only when [b < a]. *)
Definition sorted2 (a b : string) : list string :=
  if String.ltb b a then [b; a] else [a; b].

(** ** datasets.py: ImageFile and ImagePair *)

Definition Y_SAME : Z := 1.
Definition Y_DIFFERENT : Z := 0.
Definition IMAGE_CHANNELS : nat := 1.

(** [oid] stands for the identity of the Python object: [ImageFile] defines
    neither [__eq__] nor [__hash__], so [image != image1] compares
    identities. *)
Record ImageFile : Type := mkImageFile {
  oid : nat;
  filepath : string;
  filename : string;
  person : string;
  number : N
}.

(** [last_slash is None] never holds ([rfind] returns [-1] when nothing is
    found), so only the [else] branch of the source can run. *)
Definition filepath_to_person_name (fp : string) : string :=
  let last_slash := rfind fp "/" in
  py_slice fp (last_slash + 1) (rfind fp "_").

Definition filepath_to_number (fp : string) : outcome N :=
  let fname := os_path_basename fp in
  py_int (strip_non_digits fname).

(** [ImageFile.__init__]; [id] is the identity of the object being built. *)
Definition ImageFile_init (id : nat) (directory name : string) : outcome ImageFile :=
  let fp := os_path_join directory name in
  let p := filepath_to_person_name fp in
  n <-? filepath_to_number fp;
  Ret {| oid := id; filepath := fp; filename := name; person := p; number := n |}.

Record ImagePair : Type := mkImagePair {
  image1 : ImageFile;
  image2 : ImageFile;
  same_person : bool;
  same_image : bool
}.

(** [ImagePair.__init__] *)
Definition ImagePair_init (img1 img2 : ImageFile) : ImagePair :=
  {| image1 := img1;
     image2 := img2;
     same_person := String.eqb (person img1) (person img2);
     same_image := String.eqb (filepath img1) (filepath img2) |}.

(** [ImagePair.get_key] *)
Definition get_key (ignore_order : bool) (pair : ImagePair) : string :=
  let fp1 := filepath (image1 pair) in
  let fp2 := filepath (image2 pair) in
  if ignore_order then py_join "$$$" (sorted2 fp1 fp2)
  else py_join "$$$" [fp1; fp2].

(** ** Regular expressions, as far as [re.match] is used by the code *)

Inductive regex : Type :=
  | ReNone
  | ReEps
  | ReClass (p : ascii -> bool)
  | ReCat (r1 r2 : regex)
  | ReAlt (r1 r2 : regex)
  | ReStar (r : regex).

Fixpoint nullable (r : regex) : bool :=
  match r with
  | ReNone => false
  | ReEps => true
  | ReClass _ => false
  | ReCat r1 r2 => nullable r1 && nullable r2
  | ReAlt r1 r2 => nullable r1 || nullable r2
  | ReStar _ => true
  end.

Fixpoint deriv (c : ascii) (r : regex) : regex :=
  match r with
  | ReNone => ReNone
  | ReEps => ReNone
  | ReClass p => if p c then ReEps else ReNone
  | ReCat r1 r2 =>
    if nullable r1 then ReAlt (ReCat (deriv c r1) r2) (deriv c r2)
    else ReCat (deriv c r1) r2
  | ReAlt r1 r2 => ReAlt (deriv c r1) (deriv c r2)
  | ReStar r1 => ReCat (deriv c r1) (ReStar r1)
  end.

Fixpoint matches (r : regex) (l : list ascii) : bool :=
  match l with
  | [] => nullable r
  | c :: l' => matches (deriv c r) l'
  end.

Definition re_char (c : ascii) : regex := ReClass (Ascii.eqb c).
Definition re_plus (r : regex) : regex := ReCat r (ReStar r).
Definition re_lit (s : string) : regex :=
  foldr (fun c r => ReCat (re_char c) r) ReEps (chars s).

Definition newline : ascii := ascii_of_nat 10.

(** [.] matches every character but a newline. *)
Definition re_dot : regex := ReClass (fun c => negb (Ascii.eqb c newline)).

(** The body of [r"^.*_[0-9]+\.(pgm|ppm|jpg|jpeg|png|bmp|tiff)$"]. *)
Definition image_name_body : regex :=
  ReCat (ReStar re_dot)
    (ReCat (re_char "_")
      (ReCat (re_plus (ReClass is_digit))
        (ReCat (re_char ".")
          (ReAlt (re_lit "pgm") (ReAlt (re_lit "ppm") (ReAlt (re_lit "jpg")
            (ReAlt (re_lit "jpeg") (ReAlt (re_lit "png") (ReAlt (re_lit "bmp")
              (re_lit "tiff")))))))))).

(** [re.match] anchors at the start; [$] matches at the end of the string
    and also just before a newline that ends the string. *)
Definition image_name_re : regex :=
  ReCat image_name_body (ReAlt ReEps (re_char newline)).

Definition re_match_image_name (name : string) : bool :=
  matches image_name_re (chars name).

(** ** The file system, as seen by the code *)

(** [NAME_MAX]: a directory holds no file name of more bytes. *)
Definition name_max : nat := 255.

Definition names_allowed (names : list string) : bool :=
  forallb (fun name => (String.length name <=? name_max)%nat) names.

Record FileSystem : Type := mkFileSystem {
  (** [os.path.isdir] *)
  fs_isdir : string -> bool;
  (** [os.walk(top)]: the [(directory, subdirs, files)] triples in the order
      they are yielded *)
  fs_walk : string -> list (string * list string * list string);
  (** [os.listdir], [None] when the directory cannot be listed *)
  fs_listdir : string -> option (list string);
  (** [os.path.isfile] *)
  fs_isfile : string -> bool;
  (** [cv2.imread(path, 0)]: height and width of the decoded grayscale
      image, [None] when the file cannot be read *)
  fs_imread : string -> option (nat * nat);
  (** the names that [os.walk] and [os.listdir] give are names of files *)
  fs_walk_names : forall top,
    forallb (fun entry => names_allowed (snd entry)) (fs_walk top) = true;
  fs_listdir_names : forall dir names,
    fs_listdir dir = Some names -> names_allowed names = true
}.

(** ** datasets.py: get_image_files *)

(** [sorted(images, key=lambda image: image.filename)]: a stable sort, an
    image goes in front of the first image whose filename is not smaller. *)
Fixpoint insert_by_filename (x : ImageFile) (l : list ImageFile) : list ImageFile :=
  match l with
  | [] => [x]
  | y :: l' =>
    if String.ltb (filename y) (filename x) then y :: insert_by_filename x l'
    else x :: l
  end.

Definition sorted_by_filename (l : list ImageFile) : list ImageFile :=
  foldr insert_by_filename [] l.

(** The inner loop [for name in files] of one [os.walk] entry. A new
    [ImageFile] object gets the next unused identity. *)
Fixpoint scan_files (exclude_filenames : gset string) (directory : string)
    (files : list string) (images : list ImageFile) : outcome (list ImageFile) :=
  match files with
  | [] => Ret images
  | name :: rest =>
    if re_match_image_name name then
      if bool_decide (name ∉ exclude_filenames) then
        img <-? ImageFile_init (length images) directory name;
        scan_files exclude_filenames directory rest (images ++ [img])
      else scan_files exclude_filenames directory rest images
    else scan_files exclude_filenames directory rest images
  end.

Fixpoint scan_walk (exclude_filenames : gset string)
    (entries : list (string * list string * list string))
    (images : list ImageFile) : outcome (list ImageFile) :=
  match entries with
  | [] => Ret images
  | (directory, _, files) :: rest =>
    images' <-? scan_files exclude_filenames directory files images;
    scan_walk exclude_filenames rest images'
  end.

Definition not_a_directory_msg (dataset_filepath : string) : string :=
  "Images filepath '" +:+ dataset_filepath +:+
  "' of the dataset seems to not exist or is not a directory.".

Definition get_image_files (fs : FileSystem) (dataset_filepath : string)
    (exclude_images : list ImageFile) : outcome (list ImageFile) :=
  if negb (fs_isdir fs dataset_filepath) then
    Raise (PyException (not_a_directory_msg dataset_filepath))
  else
    let exclude_filenames : gset string := list_to_set (map filename exclude_images) in
    images <-? scan_walk exclude_filenames (fs_walk fs dataset_filepath) [];
    Ret (sorted_by_filename images).

(** ** The [random] module *)

(** The generator behind [random]: [randbelow n] is the draw made by
    [random.choice] and [random.shuffle] ([_randbelow(n)], a number below
    [n]), [seed_state a] is the state that [random.seed(a)] installs. *)
Class RandomGen (G : Type) : Type := {
  randbelow : nat -> G -> nat * G;
  seed_state : Z -> G
}.

(** A computation that reads and advances the global generator. The state
    survives an exception, as it does in Python. *)
Definition M (G A : Type) : Type := G -> outcome A * G.

Definition gen_ret {G A : Type} (a : A) : M G A := fun g => (Ret a, g).

Definition gen_raise {G A : Type} (e : exn) : M G A := fun g => (Raise e, g).

Definition gen_lift {G A : Type} (o : outcome A) : M G A := fun g => (o, g).

Definition gen_bind {G A B : Type} (m : M G A) (k : A -> M G B) : M G B :=
  fun g =>
    match m g with
    | (Ret a, g') => k a g'
    | (Raise e, g') => (Raise e, g')
    | (OutOfFuel, g') => (OutOfFuel, g')
    end.

Notation "x <- m ;; k" := (gen_bind m (fun x => k))
  (at level 100, m at next level, right associativity).

Section Random.
Context {G : Type} `{RandomGen G}.

(** [random.choice(seq)]: [seq[_randbelow(len(seq))]], an [IndexError] on
    an empty sequence. *)
Definition choice {A : Type} (seq : list A) : M G A :=
  fun g =>
    match seq with
    | [] => (Raise IndexError, g)
    | _ =>
      let (i, g') := randbelow (length seq) g in
      match seq !! i with
      | Some x => (Ret x, g')
      | None => (Raise IndexError, g')
      end
    end.

(** [x[i], x[j] = x[j], x[i]] *)
Definition swap {A : Type} (x : list A) (i j : nat) : outcome (list A) :=
  match x !! i, x !! j with
  | Some xi, Some xj => Ret (<[j := xi]> (<[i := xj]> x))
  | _, _ => Raise IndexError
  end.

(** [for i in reversed(range(1, n + 1))]: [j = _randbelow(i + 1)], swap. *)
Fixpoint shuffle_down {A : Type} (i : nat) (x : list A) : M G (list A) :=
  match i with
  | O => gen_ret x
  | S i' =>
    fun g =>
      let (j, g') := randbelow (i + 1) g in
      (x' <- gen_lift (swap x i j);; shuffle_down i' x') g'
  end.

(** [random.shuffle(x)] *)
Definition shuffle {A : Type} (x : list A) : M G (list A) :=
  shuffle_down (length x - 1) x.
End Random.

(** ** datasets.py: get_image_pairs *)

(** [images_by_person[k].append(v)] on a [defaultdict(list)]; the association
    list keeps the keys in the order of their first insertion. *)
Fixpoint dict_append (d : list (string * list ImageFile)) (k : string) (v : ImageFile)
    : list (string * list ImageFile) :=
  match d with
  | [] => [(k, [v])]
  | (k', vs) :: d' =>
    if String.eqb k' k then (k', vs ++ [v]) :: d'
    else (k', vs) :: dict_append d' k v
  end.

(** [images_by_person[k]]; a missing key of a [defaultdict(list)] reads as
    the empty list. *)
Fixpoint dict_get (d : list (string * list ImageFile)) (k : string) : list ImageFile :=
  match d with
  | [] => []
  | (k', vs) :: d' => if String.eqb k' k then vs else dict_get d' k
  end.

Definition group_by_person (images : list ImageFile) : list (string * list ImageFile) :=
  foldl (fun d image => dict_append d (person image) image) [] images.

Definition all_names (images_by_person : list (string * list ImageFile)) : list string :=
  map fst images_by_person.

Definition all_names_gte2 (images_by_person : list (string * list ImageFile)) : list string :=
  map fst (filter (fun kv => (2 <= length (snd kv))%nat) images_by_person).

(** The variables of the two sampling loops. *)
Record sampler : Type := mkSampler {
  pairs : list ImagePair;
  nb_added : nat;
  nb_same_p_same_img : nat;
  nb_same_p_diff_img : nat;
  nb_diff : nat;
  added : gset string
}.

Definition sampler_init : sampler :=
  {| pairs := []; nb_added := 0; nb_same_p_same_img := 0;
     nb_same_p_diff_img := 0; nb_diff := 0; added := ∅ |}.

Section Sampling.
Context {G : Type} `{RandomGen G}.
Variable images_by_person : list (string * list ImageFile).
Variable nb_max : Z.
Variable pairs_of_same_imgs : bool.
Variable ignore_order : bool.

Local Abbreviation names := (all_names images_by_person).
Local Abbreviation names_gte2 := (all_names_gte2 images_by_person).

(** The body of [while nb_added < nb_max // 2]. *)
Definition positive_step (st : sampler) : M G sampler :=
  person <- choice names_gte2;;
  img1 <- choice (dict_get images_by_person person);;
  img2 <- (if pairs_of_same_imgs then choice (dict_get images_by_person person)
           else choice (filter (fun image => oid image ≠ oid img1)
                               (dict_get images_by_person person)));;
  let pair := ImagePair_init img1 img2 in
  let key := get_key ignore_order pair in
  if bool_decide (key ∉ added st) then
    gen_ret {| pairs := pairs st ++ [pair];
            nb_added := nb_added st + 1;
            nb_same_p_same_img :=
              nb_same_p_same_img st + (if same_image pair then 1 else 0);
            nb_same_p_diff_img :=
              nb_same_p_diff_img st + (if negb (same_image pair) then 1 else 0);
            nb_diff := nb_diff st;
            added := {[key]} ∪ added st |}
  else gen_ret st.

Fixpoint positive_loop (fuel : nat) (st : sampler) : M G sampler :=
  if Z.of_nat (nb_added st) <? nb_max / 2 then
    match fuel with
    | O => gen_lift OutOfFuel
    | S fuel' => st' <- positive_step st;; positive_loop fuel' st'
    end
  else gen_ret st.

(** The body of [while nb_added < nb_max]. *)
Definition negative_step (st : sampler) : M G sampler :=
  person1 <- choice names;;
  person2 <- choice (filter (fun person => person ≠ person1) names);;
  img1 <- choice (dict_get images_by_person person1);;
  img2 <- choice (dict_get images_by_person person2);;
  let pair := ImagePair_init img1 img2 in
  let key := get_key ignore_order pair in
  if bool_decide (key ∉ added st) then
    gen_ret {| pairs := pairs st ++ [pair];
            nb_added := nb_added st + 1;
            nb_same_p_same_img := nb_same_p_same_img st;
            nb_same_p_diff_img := nb_same_p_diff_img st;
            nb_diff := nb_diff st + 1;
            added := {[key]} ∪ added st |}
  else gen_ret st.

Fixpoint negative_loop (fuel : nat) (st : sampler) : M G sampler :=
  if Z.of_nat (nb_added st) <? nb_max then
    match fuel with
    | O => gen_lift OutOfFuel
    | S fuel' => st' <- negative_step st;; negative_loop fuel' st'
    end
  else gen_ret st.

(** Both loops and the final shuffle; each loop may run [fuel] times. *)
Definition sample_pairs (fuel : nat) : M G (list ImagePair) :=
  st1 <- positive_loop fuel sampler_init;;
  st2 <- negative_loop fuel st1;;
  shuffle (pairs st2).
End Sampling.

Section GetImagePairs.
Context {G : Type} `{RandomGen G}.

(** Everything between [random.seed(seed)] and [random.setstate(state)].
    The statistics printed in verbose mode are left out: they read the
    variables and change none. *)
Definition get_image_pairs_body (fs : FileSystem) (fuel : nat)
    (dataset_filepath : string) (nb_max : Z)
    (pairs_of_same_imgs ignore_order : bool)
    (exclude_images : list ImagePair) : M G (list ImagePair) :=
  if negb (fs_isdir fs dataset_filepath) then
    gen_raise (PyException (not_a_directory_msg dataset_filepath))
  else
    let exclude_images' :=
      map image1 exclude_images ++ map image2 exclude_images in
    images <- gen_lift (get_image_files fs dataset_filepath exclude_images');;
    let images_by_person := group_by_person images in
    sample_pairs images_by_person nb_max pairs_of_same_imgs ignore_order fuel.

(** [get_image_pairs]: with a seed, the state of the global generator is
    saved first and put back right before [return pairs]. *)
Definition get_image_pairs (fs : FileSystem) (fuel : nat)
    (dataset_filepath : string) (nb_max : Z)
    (pairs_of_same_imgs ignore_order : bool)
    (exclude_images : list ImagePair) (seed : option Z)
    : M G (list ImagePair) :=
  fun g =>
    let state := g in
    let g0 := match seed with Some a => seed_state a | None => g end in
    match get_image_pairs_body fs fuel dataset_filepath nb_max
            pairs_of_same_imgs ignore_order exclude_images g0 with
    | (Ret result, g1) =>
      (Ret result, match seed with Some _ => state | None => g1 end)
    | (o, g1) => (o, g1)
    end.
End GetImagePairs.

(** A generator that replays a list of raw numbers, reduced modulo the
    bound, and yields [0] once the list is used up. *)
#[export] Instance replay_gen : RandomGen (list nat) := {
  randbelow n g :=
    match g with
    | [] => (O, [])
    | r :: g' => (r mod n, g')%nat
    end;
  seed_state a := replicate (Z.to_nat a) (Z.to_nat a)
}.

(** ** datasets.py: image_pairs_to_xy

    A numpy array is represented by its shape; pixel values are not
    modelled. The label array is the list of the values written into it
    ([0] and [1], both exact in [float32]). *)

Definition shape : Type := list nat.

(** [ImageFile.get_content]: [cv2.imread] returns [None] for a file it cannot
    decode, and [img.shape] then fails. *)
Definition get_content (fs : FileSystem) (img : ImageFile) : outcome shape :=
  match fs_imread fs (filepath img) with
  | None => Raise AttributeError
  | Some (h, w) =>
    if (IMAGE_CHANNELS =? 3)%nat then Ret [h; w; 3%nat]
    else Ret [h; w; 1%nat]
  end.

(** [cv2.resize(src, dsize)]: [dsize] is [(width, height)], so the result has
    [dsize[1]] rows and [dsize[0]] columns; an image with a single channel
    comes back two-dimensional. *)
Definition cv2_resize (src : shape) (dsize : nat * nat) : outcome shape :=
  let (dwidth, dheight) := dsize in
  if ((dwidth =? 0) || (dheight =? 0))%nat then Raise Cv2Error
  else
    match src with
    | [_; _; 3%nat] => Ret [dheight; dwidth; 3%nat]
    | [_; _] | [_; _; 1%nat] => Ret [dheight; dwidth]
    | _ => Raise Cv2Error
    end.

(** [np.squeeze] *)
Definition np_squeeze (s : shape) : shape := filter (fun d => d ≠ 1%nat) s.

(** [img[:, :, np.newaxis]] *)
Definition add_channel_axis (s : shape) : outcome shape :=
  match s with
  | d0 :: d1 :: rest => Ret (d0 :: d1 :: 1%nat :: rest)
  | _ => Raise IndexError
  end.

(** The resizing of one image in [ImagePair.get_contents]; [squeeze_color]
    tells whether the branch for three channels squeezes as well (it does
    for the second image only). *)
Definition resize_if_needed (squeeze_color : bool) (img : shape) (height width : nat)
    : outcome shape :=
  if bool_decide (img !! 0%nat ≠ Some height ∨ img !! 1%nat ≠ Some width) then
    if (IMAGE_CHANNELS =? 1)%nat || squeeze_color then
      r <-? cv2_resize img (height, width);
      add_channel_axis (np_squeeze r)
    else cv2_resize img (height, width)
  else Ret img.

(** [np.array([img1, img2], dtype=np.uint8)] *)
Definition np_array2 (s1 s2 : shape) : outcome shape :=
  if bool_decide (s1 = s2) then Ret (2%nat :: s1) else Raise ValueError.

(** [ImagePair.get_contents] *)
Definition get_contents (fs : FileSystem) (pair : ImagePair) (height width : nat)
    : outcome shape :=
  img1 <-? get_content fs (image1 pair);
  img2 <-? get_content fs (image2 pair);
  img1 <-? resize_if_needed false img1 height width;
  img2 <-? resize_if_needed true img2 height width;
  np_array2 img1 img2.

(** Whether a value of shape [src] may be assigned to a slot of shape [dst]
    (numpy broadcasting: the shapes are aligned at the right, each
    dimension of [src] is that of [dst] or [1]). *)
Fixpoint broadcastable_rev (src dst : list nat) : bool :=
  match src, dst with
  | [], _ => true
  | _ :: _, [] => false
  | a :: src', b :: dst' =>
    ((a =? b)%nat || (a =? 1)%nat) && broadcastable_rev src' dst'
  end.

Definition broadcastable (src dst : shape) : bool :=
  broadcastable_rev (rev src) (rev dst).

(** The loop [for i, pair in enumerate(image_pairs)]: [X[i] = ...] keeps the
    shape of [X], [y[i] = ...] writes the label. *)
Fixpoint fill_xy (fs : FileSystem) (image_pairs : list ImagePair) (height width : nat)
    : outcome (list Z) :=
  match image_pairs with
  | [] => Ret []
  | image_pair :: rest =>
    c <-? get_contents fs image_pair height width;
    if broadcastable c [2%nat; height; width; IMAGE_CHANNELS] then
      let label := if same_person image_pair then Y_SAME else Y_DIFFERENT in
      y <-? fill_xy fs rest height width;
      Ret (label :: y)
    else Raise ValueError
  end.

(** [image_pairs_to_xy]: the shape of [X] and the labels [y]. *)
Definition image_pairs_to_xy (fs : FileSystem) (image_pairs : list ImagePair)
    (height width : nat) : outcome (shape * list Z) :=
  let X := [length image_pairs; 2%nat; height; width; IMAGE_CHANNELS] in
  y <-? fill_xy fs image_pairs height width;
  Ret (X, y).

(** ** saveload.py *)

(** [s.split(sep)] for a one-character separator. *)
Fixpoint split_chars (sep : ascii) (l : list ascii) : list (list ascii) :=
  match l with
  | [] => [[]]
  | c :: l' =>
    if Ascii.eqb c sep then [] :: split_chars sep l'
    else
      match split_chars sep l' with
      | [] => [[c]]
      | f :: fields => (c :: f) :: fields
      end
  end.

Definition py_split (s : string) (sep : ascii) : list string :=
  map of_chars (split_chars sep (chars s)).

(** [seq[i]] *)
Definition py_index {A : Type} (seq : list A) (i : nat) : outcome A :=
  match seq !! i with
  | Some x => Ret x
  | None => Raise IndexError
  end.

(** [[f(x) for x in seq]] where [f] may raise. *)
Fixpoint map_outcome {A B : Type} (f : A -> outcome B) (seq : list A) : outcome (list B) :=
  match seq with
  | [] => Ret []
  | x :: rest =>
    y <-? f x;
    ys <-? map_outcome f rest;
    Ret (y :: ys)
  end.

(** [sorted(epochs, reverse=True)] *)
Fixpoint insert_desc (x : N) (l : list N) : list N :=
  match l with
  | [] => [x]
  | y :: l' => if (x <? y)%N then y :: insert_desc x l' else x :: l
  end.

Definition sorted_desc (l : list N) : list N := foldr insert_desc [] l.

(** The second component of the result of [load_weights]. *)
Inductive epoch_marker : Type :=
  | EpochLast
  | EpochNum (n : Z).

(** The model, as far as this code touches it: the paths handed to
    [model.load_weights], oldest first. *)
Record KerasModel : Type := mkKerasModel {
  loaded_weights : list string
}.

Definition model_load_weights (model : KerasModel) (weights_filepath : string) : KerasModel :=
  {| loaded_weights := loaded_weights model ++ [weights_filepath] |}.

Definition ambiguous_msg : string :=
  "Ambiguous weight files for model, multiple files match description.".

(** The epoch of one file name: [int(re.sub("[^0-9]", "", f.split(".")[1]))]. *)
Definition epoch_of_filename (f : string) : outcome N :=
  field <-? py_index (py_split f ".") 1;
  py_int (strip_non_digits field).

(** The file names that [load_weights] considers. *)
Definition weight_filenames (fs : FileSystem) (save_weights_dir previous_identifier : string)
    : outcome (list string) :=
  match fs_listdir fs save_weights_dir with
  | None => Raise OSError
  | Some listing =>
    let filenames :=
      filter (fun f => fs_isfile fs (os_path_join save_weights_dir f) = true) listing in
    Ret (filter (fun f => (startswith f (previous_identifier +:+ ".")
                           && endswith f ".weights")%bool = true) filenames)
  end.

(** [load_weights]: the model after the call and the returned tuple. *)
Definition load_weights (fs : FileSystem) (model : KerasModel)
    (save_weights_dir previous_identifier : string)
    : outcome (KerasModel * (bool * epoch_marker)) :=
  filenames <-? weight_filenames fs save_weights_dir previous_identifier;
  if (length filenames =? 0)%nat then Ret (model, (false, EpochNum (-1)))
  else
    let filenames_last := filter (fun f => endswith f ".last.weights" = true) filenames in
    if (2 <=? length filenames_last)%nat then Raise (PyException ambiguous_msg)
    else if (length filenames_last =? 1)%nat then
      f0 <-? py_index filenames_last 0;
      let weights_filepath := os_path_join save_weights_dir f0 in
      Ret (model_load_weights model weights_filepath, (true, EpochLast))
    else
      epochs <-? map_outcome epoch_of_filename filenames;
      let epochs := sorted_desc epochs in
      e0 <-? py_index epochs 0;
      let fname := previous_identifier +:+ ".at" +:+ py_str_of_int e0 +:+ ".weights" in
      let weights_filepath := os_path_join save_weights_dir fname in
      Ret (model_load_weights model weights_filepath, (true, EpochNum (Z.of_N e0))).

Definition no_weights_msg : string :=
  "Cannot continue previous experiment, because no weights were saved (yet?).".

Section LoadPreviousModel.
(** [utils.History] and the plotter are not part of these sources; they
    are taken as parameters. [history_load path last_epoch] stands for
    [History()] followed by [load_from_file], [history_row h i] for the
    four values read at index [i], [format_identifier] for
    [csv_filepath.format(identifier=identifier)]. *)
Variable History : Type.
Variable Row : Type.
Variable history_load : string -> epoch_marker -> outcome History.
Variable history_epochs : History -> list Z.
Variable history_row : History -> nat -> outcome Row.
Variable format_identifier : string -> string -> string.

(** The plotter is the list of the [add_values] calls made on it. *)
Definition Plotter : Type := list (Z * Row).

(** [for i, epoch in enumerate(history.epochs): la_plotter.add_values(...)] *)
Fixpoint replay_history (history : History) (i : nat) (epochs : list Z)
    (la_plotter : Plotter) : outcome Plotter :=
  match epochs with
  | [] => Ret la_plotter
  | epoch :: rest =>
    row <-? history_row history i;
    replay_history history (S i) rest (la_plotter ++ [(epoch, row)])
  end.

(** [load_previous_model]: on return, the model, the plotter and the
    returned pair. *)
Definition load_previous_model (fs : FileSystem) (identifier : string)
    (model : KerasModel) (la_plotter : Plotter)
    (weights_dir csv_filepath : string)
    : outcome (KerasModel * Plotter * (Z * History)) :=
  r <-? load_weights fs model weights_dir identifier;
  let '(model', (success, last_epoch)) := r in
  if negb success then Raise (PyException no_weights_msg)
  else
    history <-? history_load (format_identifier csv_filepath identifier) last_epoch;
    la_plotter' <-? replay_history history 0 (history_epochs history) la_plotter;
    last <-? py_index (history_epochs history) (length (history_epochs history) - 1);
    Ret (model', la_plotter', (last, history)).
End LoadPreviousModel.

(** ** What the pool of images admits *)

(** The pairs that one pass through the body of the first loop can build. *)
Definition positive_candidates (images_by_person : list (string * list ImageFile))
    (pairs_of_same_imgs : bool) : list ImagePair :=
  person ← all_names_gte2 images_by_person;
  img1 ← dict_get images_by_person person;
  img2 ← (if pairs_of_same_imgs then dict_get images_by_person person
          else filter (fun image => oid image ≠ oid img1)
                      (dict_get images_by_person person));
  [ImagePair_init img1 img2].

(** The pairs that one pass through the body of the second loop can build. *)
Definition negative_candidates (images_by_person : list (string * list ImageFile))
    : list ImagePair :=
  person1 ← all_names images_by_person;
  person2 ← filter (fun person => person ≠ person1) (all_names images_by_person);
  img1 ← dict_get images_by_person person1;
  img2 ← dict_get images_by_person person2;
  [ImagePair_init img1 img2].

(** The dedup keys of a list of pairs, as a set. *)
Definition key_set (ignore_order : bool) (l : list ImagePair) : gset string :=
  list_to_set (map (get_key ignore_order) l).

(** A generator is lawful when every draw stays below its bound. *)
Class RandomGenLawful (G : Type) `{RandomGen G} : Prop :=
  randbelow_lt : forall (n : nat) (g : G), (0 < n)%nat -> (fst (randbelow n g) < n)%nat.

(** ** Example data *)

(** A directory [faces] with the given files, a directory [weights] with the
    given listing; every picture is 32 by 32. *)
Definition example_fs (files : list string) (listing : list string)
    (Hfiles : names_allowed files = true) (Hlisting : names_allowed listing = true) :
    FileSystem.
Proof.
  refine
    {| fs_isdir := fun p => String.eqb p "faces";
       fs_walk := fun p => if String.eqb p "faces" then [("faces", [], files)] else [];
       fs_listdir := fun p => if String.eqb p "weights" then Some listing else None;
       fs_isfile := fun _ => true;
       fs_imread := fun _ => Some (32, 32)%nat |}.
  - intros top. destruct (String.eqb top "faces"); [|reflexivity].
    simpl. rewrite Hfiles. reflexivity.
  - intros dir names. destruct (String.eqb dir "weights"); [|discriminate].
    intros Hnames. injection Hnames as <-. exact Hlisting.
Defined.

Definition alice_bob_fs : FileSystem :=
  example_fs ["Alice_0001.pgm"; "Alice_0002.pgm"; "Bob_0001.pgm"] [] eq_refl eq_refl.

Definition alice_only_fs : FileSystem :=
  example_fs ["Alice_0001.pgm"; "Alice_0002.pgm"; "Alice_0003.pgm"] [] eq_refl eq_refl.

(** ** Loop states *)

(** The state after [pairs.append(pair)] and the updates that follow it, in
    the first and in the second loop. *)
Definition push_positive (ignore_order : bool) (st : sampler) (pair : ImagePair) : sampler :=
  {| pairs := pairs st ++ [pair];
     nb_added := nb_added st + 1;
     nb_same_p_same_img := nb_same_p_same_img st + (if same_image pair then 1 else 0);
     nb_same_p_diff_img := nb_same_p_diff_img st + (if negb (same_image pair) then 1 else 0);
     nb_diff := nb_diff st;
     added := {[get_key ignore_order pair]} ∪ added st |}.

Definition push_negative (ignore_order : bool) (st : sampler) (pair : ImagePair) : sampler :=
  {| pairs := pairs st ++ [pair];
     nb_added := nb_added st + 1;
     nb_same_p_same_img := nb_same_p_same_img st;
     nb_same_p_diff_img := nb_same_p_diff_img st;
     nb_diff := nb_diff st + 1;
     added := {[get_key ignore_order pair]} ∪ added st |}.

(** What both loops maintain: [nb_added] counts the collected pairs and
    [added] holds exactly their keys, each once. *)
Record sampler_ok (ignore_order : bool) (st : sampler) : Prop := {
  ok_nb_added : nb_added st = length (pairs st);
  ok_added : added st = key_set ignore_order (pairs st);
  ok_nodup : NoDup (map (get_key ignore_order) (pairs st))
}.

(** The number of same-person pairs of a list. *)
Definition count_same (l : list ImagePair) : nat :=
  length (filter (fun p => same_person p = true) l).

(** The grouping invariant: the images listed under a name carry it. *)
Definition dict_ok (d : list (string * list ImageFile)) : Prop :=
  forall (k : string) (img : ImageFile), img ∈ dict_get d k -> person img = k.

(** One run on the three-image directory, replayed from fixed draws. *)
Definition example_draws : list nat := [0; 0; 0; 1; 2; 3; 4; 5; 6; 7]%nat.

Definition example_pairs : list ImagePair :=
  Eval vm_compute in
    match fst (get_image_pairs alice_bob_fs 10 "faces" 2 false true [] None example_draws) with
    | Ret l => l
    | _ => []
    end.

(** What the first loop maintains on top of [sampler_ok]. *)
Definition positive_phase (nb_max : Z) (st : sampler) : Prop :=
  nb_added st = length (pairs st) /\
  count_same (pairs st) = length (pairs st) /\
  Z.of_nat (nb_added st) <= Z.max 0 (nb_max / 2).

(** What the second loop maintains: the same-person pairs are those of the
    first loop. *)
Definition negative_phase (npos : nat) (st : sampler) : Prop :=
  nb_added st = length (pairs st) /\
  count_same (pairs st) = npos.

(** The list returned for [nb_max = 1] when every draw is 0. *)
Definition single_example_pairs : list ImagePair :=
  Eval vm_compute in
    match fst (get_image_pairs alice_bob_fs 1 "faces" 1 false true [] None
                 [0; 0; 0; 0]%nat) with
    | Ret l => l
    | _ => []
    end.

(** Two persons with one image each. *)
Definition strangers_fs : FileSystem :=
  example_fs ["Alice_0001.pgm"; "Bob_0001.pgm"] [] eq_refl eq_refl.

(** A round of a sampling loop that drew a pair whose key is in [added]
    already: the state stays as it is. *)
Definition positive_collision {G : Type} `{RandomGen G}
    (d : list (string * list ImageFile)) (same_imgs io : bool)
    (st : sampler) (g : G) : Prop :=
  exists pair g',
    positive_step d same_imgs io st g = (Ret st, g') /\
    pair ∈ positive_candidates d same_imgs /\
    get_key io pair ∈ added st /\
    all_names_gte2 d ≠ [].

Definition negative_collision {G : Type} `{RandomGen G}
    (d : list (string * list ImageFile)) (io : bool)
    (st : sampler) (g : G) : Prop :=
  exists pair g',
    negative_step d io st g = (Ret st, g') /\
    pair ∈ negative_candidates d /\
    get_key io pair ∈ added st /\
    (2 <= length (all_names d))%nat.

Definition strangers_images : list ImageFile :=
  Eval vm_compute in
    match get_image_files strangers_fs "faces" [] with
    | Ret l => l
    | _ => []
    end.

(** [draws_from g k g']: [k] draws in a row take the generator from state
    [g] to state [g']. *)
Inductive draws_from {G : Type} `{RandomGen G} (g : G) : nat -> G -> Prop :=
| draws_none : draws_from g 0 g
| draws_more (k n : nat) (g1 : G) :
    draws_from g k g1 -> draws_from g (S k) (snd (randbelow n g1)).

(** The list returned for seed 10 and [nb_max = 2]. *)
Definition seeded_example_pairs : list ImagePair :=
  Eval vm_compute in
    match fst (get_image_pairs alice_bob_fs 10 "faces" 2 false true [] (Some 10)
                 [1; 2; 3]%nat) with
    | Ret l => l
    | _ => []
    end.

(** A weights directory with two [*.last.weights] files of one model. *)
Definition two_last_fs : FileSystem :=
  example_fs [] ["model1.a.last.weights"; "model1.b.last.weights"; "model2.at3.weights"] eq_refl eq_refl.

(** The name under which the weights of epoch [n] are looked for:
    ["{}.at{}.weights".format(previous_identifier, n)]. *)
Definition epoch_filename (previous_identifier : string) (n : N) : string :=
  previous_identifier +:+ ".at" +:+ py_str_of_int n +:+ ".weights".


Definition epochs_fs : FileSystem :=
  example_fs [] ["model1.at100.weights"; "model1.at200.weights"; "model2.at300.weights"] eq_refl eq_refl.



(** ** Further notions used by the properties below *)

(** A string without the character [$], the one the keys are joined with. *)
Definition no_dollar (s : string) : bool :=
  forallb (fun c => negb (Ascii.eqb c "$")) (chars s).

(** Two image records, as [ImageFile("faces", ...)] builds them. *)
Definition alice1_image : ImageFile :=
  {| oid := 0; filepath := "faces/Alice_0001.pgm"; filename := "Alice_0001.pgm";
     person := "Alice"; number := 1 |}.

Definition bob1_image : ImageFile :=
  {| oid := 1; filepath := "faces/Bob_0001.pgm"; filename := "Bob_0001.pgm";
     person := "Bob"; number := 1 |}.

(** Strings in which a character, or every decimal digit, is missing. *)
Definition no_char (c : ascii) (s : string) : bool :=
  forallb (fun x => negb (Ascii.eqb x c)) (chars s).

Definition no_digit (s : string) : bool :=
  forallb (fun x => negb (is_digit x)) (chars s).

(** [n] written with [zeros] leading zeros, as in [Adam_Scott_0002.pgm]. *)
Definition padded_number (zeros : nat) (n : N) : string :=
  of_chars (replicate zeros "0"%char) +:+ py_str_of_int n.

(** The file name of image [n] of a person. *)
Definition image_filename (person : string) (zeros : nat) (n : N) (ext : string) : string :=
  person +:+ "_" +:+ padded_number zeros n +:+ "." +:+ ext.

(** The strings that a regular expression stands for. *)
Inductive re_lang : regex -> list ascii -> Prop :=
| lang_eps : re_lang ReEps []
| lang_class (p : ascii -> bool) (c : ascii) : p c = true -> re_lang (ReClass p) [c]
| lang_cat (r1 r2 : regex) (l1 l2 : list ascii) :
    re_lang r1 l1 -> re_lang r2 l2 -> re_lang (ReCat r1 r2) (l1 ++ l2)
| lang_alt_l (r1 r2 : regex) (l : list ascii) : re_lang r1 l -> re_lang (ReAlt r1 r2) l
| lang_alt_r (r1 r2 : regex) (l : list ascii) : re_lang r2 l -> re_lang (ReAlt r1 r2) l
| lang_star_nil (r : regex) : re_lang (ReStar r) []
| lang_star_more (r : regex) (l1 l2 : list ascii) :
    re_lang r l1 -> re_lang (ReStar r) l2 -> re_lang (ReStar r) (l1 ++ l2).

(** The extensions that the pattern of [get_image_files] lists. *)
Definition image_extensions : list string :=
  ["pgm"; "ppm"; "jpg"; "jpeg"; "png"; "bmp"; "tiff"].

(** The test made on each name in the loop of [get_image_files]. *)
Definition kept_name (exclude_filenames : gset string) (name : string) : bool :=
  re_match_image_name name && bool_decide (name ∉ exclude_filenames).

(** The (directory, name) pairs of [os.walk], in the order of the walk. *)
Definition walk_files (entries : list (string * list string * list string))
    : list (string * string) :=
  entry ← entries; name ← snd entry; [(fst (fst entry), name)].

(** [img] is the object that [ImageFile(directory, name)] builds. *)
Definition built_from (img : ImageFile) (file : string * string) : Prop :=
  ImageFile_init (oid img) (fst file) (snd file) = Ret img.

(** The order of [sorted(images, key=lambda image: image.filename)]. *)
Definition filename_le (a b : ImageFile) : Prop :=
  String.ltb (filename b) (filename a) = false.

(** A dataset with a file that is no image and a subdirectory. *)
Definition mixed_fs : FileSystem.
Proof.
  refine
    {| fs_isdir := fun p => String.eqb p "faces";
       fs_walk := fun p =>
         if String.eqb p "faces"
         then [("faces", ["more"], ["Bob_0001.pgm"; "README.txt"; "Alice_0002.pgm"]);
               ("faces/more", [], ["Alice_0001.pgm"; "Carol_0001.jpeg"])]
         else [];
       fs_listdir := fun _ => None;
       fs_isfile := fun _ => true;
       fs_imread := fun _ => Some (32, 32)%nat |}.
  - intros top. destruct (String.eqb top "faces"); reflexivity.
  - discriminate.
Defined.

(** The paths of the files of a walk. *)
Definition walk_paths (fs : FileSystem) (path : string) : list string :=
  map (fun f => os_path_join (fst f) (snd f)) (walk_files (fs_walk fs path)).

(** The list returned when one pair is excluded. *)
Definition excluding_example_pairs : list ImagePair :=
  Eval vm_compute in
    match fst (get_image_pairs mixed_fs 10 "faces" 1 false true
                 [ImagePair_init alice1_image bob1_image] None [0; 0; 0; 0]%nat) with
    | Ret l => l
    | _ => []
    end.

(** An outcome other than an exception. *)
Definition no_exception {A : Type} (o : outcome A) : Prop :=
  match o with
  | Raise _ => False
  | _ => True
  end.

(** The images of the two-person example. *)
Definition alice_bob_images : list ImageFile :=
  Eval vm_compute in
    match get_image_files alice_bob_fs "faces" [] with
    | Ret l => l
    | _ => []
    end.

(** What [cv2.imread] finds for an image: a picture with pixels, and
    whether it has the size asked for. *)
Definition readable (fs : FileSystem) (img : ImageFile) : bool :=
  match fs_imread fs (filepath img) with
  | Some (h0, w0) => (0 <? h0)%nat && (0 <? w0)%nat
  | None => false
  end.

Definition has_size (fs : FileSystem) (height width : nat) (img : ImageFile) : bool :=
  match fs_imread fs (filepath img) with
  | Some (h0, w0) => (h0 =? height)%nat && (w0 =? width)%nat
  | None => false
  end.

(** The labels of a list of pairs. *)
Definition labels (image_pairs : list ImagePair) : list Z :=
  map (fun p => if same_person p then Y_SAME else Y_DIFFERENT) image_pairs.

(** The two images of every pair. *)
Definition images_of (image_pairs : list ImagePair) : list ImageFile :=
  p ← image_pairs; [image1 p; image2 p].

(** ** The statistics of the verbose mode *)

(** [count_persons(start, end)]: how many persons have [x] images with
    [start <= x < end]. *)
Definition count_persons (images_by_person : list (string * list ImageFile))
    (start end_ : Z) : nat :=
  length (filter (fun kv => start <= Z.of_nat (length (snd kv)) /\
                            Z.of_nat (length (snd kv)) < end_) images_by_person).

(** The eight ranges that the statistics print. *)
Definition person_count_ranges : list (Z * Z) :=
  [(1, 2); (2, 3); (3, 6); (6, 11); (11, 26); (26, 76); (76, 201); (201, 9999999)].

(** [sum_avail_ordered]: [k*(k-1)] summed over the persons with two or more
    images, [k] being the number of images of the person. *)
Definition sum_avail_ordered (images_by_person : list (string * list ImageFile)) : Z :=
  foldl (fun acc name =>
           let k := Z.of_nat (length (dict_get images_by_person name)) in
           acc + k * (k - 1))
        0 (all_names_gte2 images_by_person).

(** ** datasets.py: plot_dataset_skew *)

(** The numbers that [plot_one_chart] hands to matplotlib; the drawing
    itself and the statistics of numpy in the legend are not modelled. *)

(** [name_to_images]: both images of every counted pair, under the name of
    their person. *)
Definition name_to_images (only_y_same : bool) (pairs : list ImagePair)
    : list (string * list ImageFile) :=
  foldl (fun d pair =>
           if (negb only_y_same || (only_y_same && same_person pair))%bool then
             dict_append (dict_append d (person (image1 pair)) (image1 pair))
                         (person (image2 pair)) (image2 pair)
           else d)
        [] pairs.

(** [names_with_counts.sort(key=lambda name_with_count: name_with_count[1],
    reverse=True)]: highest count first, equal counts in their old order. *)
Fixpoint insert_by_count (x : string * nat) (l : list (string * nat)) : list (string * nat) :=
  match l with
  | [] => [x]
  | y :: l' => if (snd x <? snd y)%nat then y :: insert_by_count x l' else x :: l
  end.

Definition sort_by_count (l : list (string * nat)) : list (string * nat) :=
  foldr insert_by_count [] l.

(** [l[0:n]] *)
Definition py_list_prefix {A : Type} (l : list A) (n : Z) : list A :=
  take (Z.to_nat (clip_index (Z.of_nat (length l)) n)) l.

(** [names_with_counts], after the sort and the cut to [n_highest]: the
    names and the heights of the bars. *)
Definition names_with_counts (only_y_same : bool) (n_highest : Z) (pairs : list ImagePair)
    : list (string * nat) :=
  py_list_prefix
    (sort_by_count (map (fun kv => (fst kv, length (snd kv)))
                        (name_to_images only_y_same pairs)))
    n_highest.

(** A pair that the chart counts. *)
Definition counted (only_y_same : bool) (pair : ImagePair) : bool :=
  (negb only_y_same || (only_y_same && same_person pair))%bool.

(** [loop_rounds step push candidates io n c st g st' g']: [n] rounds of a
    sampling loop take it from the variables [st] and the generator state [g]
    to [st'] and [g']. Every round draws a pair of the candidates; [c] of
    the rounds draw a pair whose key is in [added] already and leave the
    variables as they are, the other rounds add their pair. *)
Inductive loop_rounds {G : Type} (step : sampler -> M G sampler)
    (push : sampler -> ImagePair -> sampler) (candidates : list ImagePair)
    (ignore_order : bool) : nat -> nat -> sampler -> G -> sampler -> G -> Prop :=
| rounds_none (st : sampler) (g : G) :
    loop_rounds step push candidates ignore_order 0 0 st g st g
| rounds_add (n c : nat) (st : sampler) (g : G) (pair : ImagePair) (g1 : G)
    (st' : sampler) (g' : G) :
    step st g = (Ret (push st pair), g1) ->
    pair ∈ candidates ->
    get_key ignore_order pair ∉ added st ->
    loop_rounds step push candidates ignore_order n c (push st pair) g1 st' g' ->
    loop_rounds step push candidates ignore_order (S n) c st g st' g'
| rounds_collide (n c : nat) (st : sampler) (g : G) (pair : ImagePair) (g1 : G)
    (st' : sampler) (g' : G) :
    step st g = (Ret st, g1) ->
    pair ∈ candidates ->
    get_key ignore_order pair ∈ added st ->
    loop_rounds step push candidates ignore_order n c st g1 st' g' ->
    loop_rounds step push candidates ignore_order (S n) (S c) st g st' g'.

(** A computation advances the generator when it changes the state by
    draws only, whatever its outcome. *)
Definition advances {G A : Type} `{RandomGen G} (m : M G A) : Prop :=
  forall (g : G) (o : outcome A) (g' : G),
    m g = (o, g') -> exists k, draws_from g k g'.

(** ** The weights files of a directory, as the docstring names them *)

(** A regular file of the directory whose name starts with the identifier
    and a dot, and ends with [.weights]. *)
Definition is_weights_file (fs : FileSystem) (dir id f : string) : Prop :=
  fs_isfile fs (os_path_join dir f) = true /\
  (exists rest, f = id +:+ "." +:+ rest) /\
  (exists front, f = front +:+ ".weights").

(** Such a file whose name ends with [.last.weights]. *)
Definition is_last_weights_file (fs : FileSystem) (dir id f : string) : Prop :=
  is_weights_file fs dir id f /\ exists front, f = front +:+ ".last.weights".






(** * Properties *)

(** ** Reasoning about outcomes and generator-threading computations *)

Lemma obind_ret_inv {A B : Type} (m : outcome A) (k : A -> outcome B) (b : B) :
  obind m k = Ret b -> exists a, m = Ret a /\ k a = Ret b.
Proof. destruct m as [a| |]; simpl; intros Hk; [eauto | discriminate..]. Qed.

Lemma gen_bind_ret_inv {G A B : Type} (m : M G A) (k : A -> M G B) (g g' : G) (b : B) :
  gen_bind m k g = (Ret b, g') ->
  exists a g1, m g = (Ret a, g1) /\ k a g1 = (Ret b, g').
Proof.
  unfold gen_bind. destruct (m g) as [[a| |] g1]; intros Hk;
    [eauto | discriminate..].
Qed.

Lemma gen_bind_ret {G A B : Type} (m : M G A) (k : A -> M G B) (g g1 : G) (a : A) :
  m g = (Ret a, g1) -> gen_bind m k g = k a g1.
Proof. unfold gen_bind. intros ->. reflexivity. Qed.

Lemma gen_bind_raise {G A B : Type} (m : M G A) (k : A -> M G B) (g g1 : G) (e : exn) :
  m g = (Raise e, g1) -> gen_bind m k g = (Raise e, g1).
Proof. unfold gen_bind. intros ->. reflexivity. Qed.

Lemma string_eqb_true (a b : string) : String.eqb a b = true <-> a = b.
Proof. apply String.eqb_eq. Qed.

(** ** ImagePair *)

Lemma ImageFile_init_fields (id : nat) (directory name : string) (img : ImageFile) :
  ImageFile_init id directory name = Ret img ->
  oid img = id /\ filename img = name /\
  filepath img = os_path_join directory name /\
  person img = filepath_to_person_name (os_path_join directory name).
Proof.
  unfold ImageFile_init. intros Hinit.
  apply obind_ret_inv in Hinit as (n & _ & Hret).
  injection Hret as <-. simpl. auto.
Qed.

(** C3: the flags of a pair are fixed by its two records: [same_person]
    holds exactly when the person names are equal, [same_image] exactly when
    the filepaths are equal; for records built by [ImageFile.__init__] the
    person names are the ones derived from the two filepaths. The
    constructor takes the two records and nothing else, so pairs built from
    the same records carry the same flags. *)
Theorem image_pair_flags_determined (img1 img2 : ImageFile) :
  let p := ImagePair_init img1 img2 in
  image1 p = img1 /\ image2 p = img2 /\
  (same_person p = true <-> person img1 = person img2) /\
  (same_image p = true <-> filepath img1 = filepath img2) /\
  (forall (id1 id2 : nat) (d1 n1 d2 n2 : string),
     ImageFile_init id1 d1 n1 = Ret img1 ->
     ImageFile_init id2 d2 n2 = Ret img2 ->
     (same_person p = true <->
      filepath_to_person_name (os_path_join d1 n1) =
      filepath_to_person_name (os_path_join d2 n2))) /\
  (forall q : ImagePair,
     q = ImagePair_init (image1 q) (image2 q) ->
     image1 q = img1 -> image2 q = img2 ->
     same_person q = same_person p /\ same_image q = same_image p).
Proof.
  simpl. repeat split; try (apply string_eqb_true).
  - intros Hs. apply string_eqb_true in Hs.
    apply ImageFile_init_fields in H as (_ & _ & _ & <-).
    apply ImageFile_init_fields in H0 as (_ & _ & _ & <-). exact Hs.
  - intros Hs. apply string_eqb_true.
    apply ImageFile_init_fields in H as (_ & _ & _ & ->).
    apply ImageFile_init_fields in H0 as (_ & _ & _ & ->). exact Hs.
  - rewrite H, H0, H1. reflexivity.
  - rewrite H, H0, H1. reflexivity.
Qed.

(** ** Dedup keys *)

Lemma ltb_irrefl (a : string) : String.ltb a a = false.
Proof.
  unfold String.ltb.
  destruct (String.compare a a) eqn:Hc; try reflexivity.
  pose proof (String.compare_antisym a a) as Ha. rewrite Hc in Ha. discriminate.
Qed.

Lemma ltb_asym (a b : string) : String.ltb a b = true -> String.ltb b a = false.
Proof.
  unfold String.ltb. rewrite (String.compare_antisym a b).
  destruct (String.compare b a); simpl; congruence.
Qed.

Lemma ltb_total (a b : string) :
  String.ltb a b = false -> String.ltb b a = false -> a = b.
Proof.
  unfold String.ltb. rewrite (String.compare_antisym a b).
  destruct (String.compare b a) eqn:Hc; simpl; try congruence.
  intros _ _. symmetry. apply String.compare_eq_iff. exact Hc.
Qed.

Lemma sorted2_swap (a b : string) : sorted2 a b = sorted2 b a.
Proof.
  unfold sorted2.
  destruct (String.ltb b a) eqn:Hba, (String.ltb a b) eqn:Hab; try reflexivity.
  - apply ltb_asym in Hba. congruence.
  - rewrite (ltb_total a b Hab Hba). reflexivity.
Qed.

Lemma get_key_swap (a b : ImageFile) :
  get_key true (ImagePair_init a b) = get_key true (ImagePair_init b a).
Proof. unfold get_key. simpl. rewrite sorted2_swap. reflexivity. Qed.

(** ** The sampling loops *)

Section SamplingFacts.
Context {G : Type} `{RandomGen G}.

Lemma choice_ret_elem {A : Type} (seq : list A) (g g' : G) (x : A) :
  choice seq g = (Ret x, g') -> x ∈ seq.
Proof.
  unfold choice. destruct seq as [|a seq]; [discriminate|].
  destruct (randbelow _ g) as [i g1].
  destruct (_ !! i) as [y|] eqn:Hy; [|discriminate].
  intros [= <- <-]. eapply list_elem_of_lookup_2. exact Hy.
Qed.

Lemma choice_nil {A : Type} (g : G) : choice (@nil A) g = (Raise IndexError, g).
Proof. reflexivity. Qed.

Lemma positive_step_spec d same_imgs io st (g g' : G) st' :
  positive_step d same_imgs io st g = (Ret st', g') ->
  exists pair,
    pair ∈ positive_candidates d same_imgs /\
    st' = if bool_decide (get_key io pair ∉ added st)
          then push_positive io st pair else st.
Proof.
  unfold positive_step. intros Hstep.
  apply gen_bind_ret_inv in Hstep as (person & g1 & Hp & Hstep).
  apply gen_bind_ret_inv in Hstep as (img1 & g2 & H1 & Hstep).
  apply gen_bind_ret_inv in Hstep as (img2 & g3 & H2 & Hstep).
  exists (ImagePair_init img1 img2). split.
  - unfold positive_candidates.
    apply list_elem_of_bind. exists person.
    split; [|eapply choice_ret_elem; exact Hp].
    apply list_elem_of_bind. exists img1.
    split; [|eapply choice_ret_elem; exact H1].
    apply list_elem_of_bind. exists img2.
    split; [apply list_elem_of_singleton; reflexivity|].
    destruct same_imgs; eapply choice_ret_elem; exact H2.
  - unfold push_positive.
    destruct (bool_decide _); injection Hstep as <- _; reflexivity.
Qed.

Lemma negative_step_spec d io st (g g' : G) st' :
  negative_step d io st g = (Ret st', g') ->
  exists pair,
    pair ∈ negative_candidates d /\
    st' = if bool_decide (get_key io pair ∉ added st)
          then push_negative io st pair else st.
Proof.
  unfold negative_step. intros Hstep.
  apply gen_bind_ret_inv in Hstep as (person1 & g1 & Hp1 & Hstep).
  apply gen_bind_ret_inv in Hstep as (person2 & g2 & Hp2 & Hstep).
  apply gen_bind_ret_inv in Hstep as (img1 & g3 & H1 & Hstep).
  apply gen_bind_ret_inv in Hstep as (img2 & g4 & H2 & Hstep).
  exists (ImagePair_init img1 img2). split.
  - unfold negative_candidates.
    apply list_elem_of_bind. exists person1.
    split; [|eapply choice_ret_elem; exact Hp1].
    apply list_elem_of_bind. exists person2.
    split; [|eapply choice_ret_elem; exact Hp2].
    apply list_elem_of_bind. exists img1.
    split; [|eapply choice_ret_elem; exact H1].
    apply list_elem_of_bind. exists img2.
    split; [apply list_elem_of_singleton; reflexivity|].
    eapply choice_ret_elem; exact H2.
  - unfold push_negative.
    destruct (bool_decide _); injection Hstep as <- _; reflexivity.
Qed.

(** A loop that returns has left its condition false and kept every
    property that its body keeps. *)
Lemma positive_loop_inv d nb_max same_imgs io (P : sampler -> Prop) :
  (forall st (g g' : G) st',
     P st -> Z.of_nat (nb_added st) < nb_max / 2 ->
     positive_step d same_imgs io st g = (Ret st', g') -> P st') ->
  forall fuel st (g g' : G) st',
    P st -> positive_loop d nb_max same_imgs io fuel st g = (Ret st', g') ->
    P st' /\ nb_max / 2 <= Z.of_nat (nb_added st').
Proof.
  intros Hbody fuel. induction fuel as [|fuel IH]; intros st g g' st' HP; simpl.
  - destruct (Z.ltb_spec (Z.of_nat (nb_added st)) (nb_max / 2)); [discriminate|].
    intros [= <- <-]. auto.
  - destruct (Z.ltb_spec (Z.of_nat (nb_added st)) (nb_max / 2)).
    + intros Hloop.
      apply gen_bind_ret_inv in Hloop as (st1 & g1 & Hstep & Hloop).
      eapply IH; [|exact Hloop]. eapply Hbody; eauto.
    + intros [= <- <-]. auto.
Qed.

Lemma negative_loop_inv d nb_max io (P : sampler -> Prop) :
  (forall st (g g' : G) st',
     P st -> Z.of_nat (nb_added st) < nb_max ->
     negative_step d io st g = (Ret st', g') -> P st') ->
  forall fuel st (g g' : G) st',
    P st -> negative_loop d nb_max io fuel st g = (Ret st', g') ->
    P st' /\ nb_max <= Z.of_nat (nb_added st').
Proof.
  intros Hbody fuel. induction fuel as [|fuel IH]; intros st g g' st' HP; simpl.
  - destruct (Z.ltb_spec (Z.of_nat (nb_added st)) nb_max); [discriminate|].
    intros [= <- <-]. auto.
  - destruct (Z.ltb_spec (Z.of_nat (nb_added st)) nb_max).
    + intros Hloop.
      apply gen_bind_ret_inv in Hloop as (st1 & g1 & Hstep & Hloop).
      eapply IH; [|exact Hloop]. eapply Hbody; eauto.
    + intros [= <- <-]. auto.
Qed.

Lemma swap_Permutation {A : Type} (x x' : list A) (i j : nat) :
  swap x i j = Ret x' -> x' ≡ₚ x.
Proof.
  unfold swap.
  destruct (x !! i) as [xi|] eqn:Hi; [|discriminate].
  destruct (x !! j) as [xj|] eqn:Hj; [|discriminate].
  intros [= <-]. apply Permutation_insert_swap; assumption.
Qed.

Lemma shuffle_down_Permutation {A : Type} (i : nat) (x x' : list A) (g g' : G) :
  shuffle_down i x g = (Ret x', g') -> x' ≡ₚ x.
Proof.
  revert x g. induction i as [|i IH]; intros x g; simpl.
  - intros [= <- <-]. reflexivity.
  - destruct (randbelow _ g) as [j g1].
    intros Hs. apply gen_bind_ret_inv in Hs as (x1 & g2 & Hswap & Hs).
    unfold gen_lift in Hswap. injection Hswap as Hswap <-.
    apply swap_Permutation in Hswap. rewrite <- Hswap. eapply IH. exact Hs.
Qed.

Lemma shuffle_Permutation {A : Type} (x x' : list A) (g g' : G) :
  shuffle x g = (Ret x', g') -> x' ≡ₚ x.
Proof. apply shuffle_down_Permutation. Qed.
End SamplingFacts.

Lemma sampler_init_ok io : sampler_ok io sampler_init.
Proof. split; simpl; [reflexivity | reflexivity | constructor]. Qed.

Lemma key_set_snoc io l p :
  key_set io (l ++ [p]) = {[get_key io p]} ∪ key_set io l.
Proof.
  unfold key_set. rewrite map_app, list_to_set_app_L. simpl.
  rewrite (right_id_L ∅ (∪)). apply (comm_L (∪)).
Qed.

Lemma elem_of_key_set io l k :
  k ∈ key_set io l <-> k ∈ map (get_key io) l.
Proof. unfold key_set. apply elem_of_list_to_set. Qed.

Lemma push_ok io st st' p :
  sampler_ok io st ->
  get_key io p ∉ added st ->
  pairs st' = pairs st ++ [p] ->
  nb_added st' = (nb_added st + 1)%nat ->
  added st' = {[get_key io p]} ∪ added st ->
  sampler_ok io st'.
Proof.
  intros [Hn Ha Hd] Hfresh Hp Hnb Hadd. split.
  - rewrite Hnb, Hp, length_app, Hn. reflexivity.
  - rewrite Hadd, Hp, key_set_snoc, Ha. reflexivity.
  - rewrite Hp, map_app. simpl. apply NoDup_app. split; [exact Hd|].
    split; [|apply NoDup_singleton].
    intros k Hk Hk'. apply list_elem_of_singleton in Hk'. subst k.
    apply Hfresh. rewrite Ha. apply elem_of_key_set. exact Hk.
Qed.

Lemma accept_ok io st p (push : bool -> sampler -> ImagePair -> sampler) :
  (push = push_positive \/ push = push_negative) ->
  sampler_ok io st ->
  sampler_ok io (if bool_decide (get_key io p ∉ added st) then push io st p else st).
Proof.
  intros Hpush Hok. case_bool_decide as Hfresh; [|exact Hok].
  eapply push_ok; eauto; destruct Hpush as [-> | ->]; reflexivity.
Qed.

(** ** Grouping by person *)

Lemma dict_get_append d k v k' :
  dict_get (dict_append d k v) k' =
  if String.eqb k k' then dict_get d k ++ [v] else dict_get d k'.
Proof.
  induction d as [|[k0 vs] d IH]; simpl.
  - destruct (String.eqb k k'); reflexivity.
  - destruct (String.eqb k0 k) eqn:Hk0; simpl.
    + apply String.eqb_eq in Hk0. subst k0.
      destruct (String.eqb k k'); reflexivity.
    + destruct (String.eqb k0 k') eqn:Hk0'.
      * apply String.eqb_eq in Hk0'. subst k0.
        rewrite String.eqb_sym, Hk0. reflexivity.
      * exact IH.
Qed.

Lemma dict_append_ok d v : dict_ok d -> dict_ok (dict_append d (person v) v).
Proof.
  intros Hd k img. rewrite dict_get_append.
  destruct (String.eqb (person v) k) eqn:Hk.
  - apply String.eqb_eq in Hk. subst k.
    rewrite elem_of_app, list_elem_of_singleton.
    intros [Hin | ->]; [apply Hd; exact Hin | reflexivity].
  - apply Hd.
Qed.

Lemma foldl_dict_append_ok images d :
  dict_ok d ->
  dict_ok (foldl (fun d image => dict_append d (person image) image) d images).
Proof.
  revert d. induction images as [|v images IH]; intros d Hd; simpl; [exact Hd|].
  apply IH, dict_append_ok, Hd.
Qed.

Lemma group_by_person_ok images : dict_ok (group_by_person images).
Proof.
  apply foldl_dict_append_ok. intros k img Hin. simpl in Hin.
  apply elem_of_nil in Hin. contradiction.
Qed.

Lemma positive_candidates_same d same_imgs p :
  dict_ok d -> p ∈ positive_candidates d same_imgs -> same_person p = true.
Proof.
  intros Hd. unfold positive_candidates.
  intros Hp. apply list_elem_of_bind in Hp as (person & Hp & _).
  apply list_elem_of_bind in Hp as (img1 & Hp & H1).
  apply list_elem_of_bind in Hp as (img2 & Hp & H2).
  apply list_elem_of_singleton in Hp. subst p. simpl.
  apply String.eqb_eq. rewrite (Hd _ _ H1).
  destruct same_imgs.
  - rewrite (Hd _ _ H2). reflexivity.
  - apply list_elem_of_filter in H2 as [_ H2]. rewrite (Hd _ _ H2). reflexivity.
Qed.

Lemma negative_candidates_different d p :
  dict_ok d -> p ∈ negative_candidates d -> same_person p = false.
Proof.
  intros Hd. unfold negative_candidates.
  intros Hp. apply list_elem_of_bind in Hp as (person1 & Hp & _).
  apply list_elem_of_bind in Hp as (person2 & Hp & Hne).
  apply list_elem_of_bind in Hp as (img1 & Hp & H1).
  apply list_elem_of_bind in Hp as (img2 & Hp & H2).
  apply list_elem_of_singleton in Hp. subst p. simpl.
  apply list_elem_of_filter in Hne as [Hne _].
  rewrite (Hd _ _ H1), (Hd _ _ H2).
  apply String.eqb_neq. congruence.
Qed.

(** ** The whole call *)

Section CallFacts.
Context {G : Type} `{RandomGen G}.

(** A call that returns went through both directory checks, the scan, the
    two loops and the shuffle. *)
Lemma get_image_pairs_ret_inv fs fuel path nb_max same_imgs io excl seed (g g' : G) l :
  get_image_pairs fs fuel path nb_max same_imgs io excl seed g = (Ret l, g') ->
  exists images st1 st2 g0 g1 g2 g3,
    fs_isdir fs path = true /\
    get_image_files fs path (map image1 excl ++ map image2 excl) = Ret images /\
    g0 = match seed with Some a => seed_state a | None => g end /\
    positive_loop (group_by_person images) nb_max same_imgs io fuel sampler_init g0
      = (Ret st1, g1) /\
    negative_loop (group_by_person images) nb_max io fuel st1 g1 = (Ret st2, g2) /\
    shuffle (pairs st2) g2 = (Ret l, g3) /\
    g' = match seed with Some _ => g | None => g3 end.
Proof.
  unfold get_image_pairs, get_image_pairs_body.
  destruct (fs_isdir fs path) eqn:Hdir; simpl.
  2:{ unfold gen_raise. discriminate. }
  set (g0 := match seed with Some a => seed_state a | None => g end).
  destruct (gen_bind _ _ g0) as [[l0| |] g3] eqn:Hrun; try discriminate.
  intros [= <- <-].
  apply gen_bind_ret_inv in Hrun as (images & g0' & Himages & Hrun).
  unfold gen_lift in Himages. injection Himages as Himages <-.
  unfold sample_pairs in Hrun.
  apply gen_bind_ret_inv in Hrun as (st1 & g1 & Hpos & Hrun).
  apply gen_bind_ret_inv in Hrun as (st2 & g2 & Hneg & Hrun).
  exists images, st1, st2, g0, g1, g2, g3. repeat split; assumption.
Qed.

Lemma positive_loop_ok d nb_max same_imgs io fuel st (g g' : G) st' :
  sampler_ok io st ->
  positive_loop d nb_max same_imgs io fuel st g = (Ret st', g') ->
  sampler_ok io st'.
Proof.
  intros Hok Hloop.
  eapply (positive_loop_inv d nb_max same_imgs io (sampler_ok io)); [|exact Hok|exact Hloop].
  intros st0 g0 g0' st0' Hok0 _ Hstep.
  apply positive_step_spec in Hstep as (p & _ & ->).
  apply accept_ok; auto.
Qed.

Lemma negative_loop_ok d nb_max io fuel st (g g' : G) st' :
  sampler_ok io st ->
  negative_loop d nb_max io fuel st g = (Ret st', g') ->
  sampler_ok io st'.
Proof.
  intros Hok Hloop.
  eapply (negative_loop_inv d nb_max io (sampler_ok io)); [|exact Hok|exact Hloop].
  intros st0 g0 g0' st0' Hok0 _ Hstep.
  apply negative_step_spec in Hstep as (p & _ & ->).
  apply accept_ok; auto.
Qed.

(** C2: the pairs returned by a call have pairwise different dedup keys.
    With [ignore_order=True] the key joins the two sorted filepaths, so two
    returned pairs never have the same sorted filepaths, and none is the
    other one with its two images swapped. *)
Theorem returned_pairs_have_distinct_keys fs fuel path nb_max same_imgs io excl seed
    (g g' : G) (l : list ImagePair) :
  get_image_pairs fs fuel path nb_max same_imgs io excl seed g = (Ret l, g') ->
  NoDup (map (get_key io) l) /\
  (forall (i j : nat) (p q : ImagePair),
     i ≠ j -> l !! i = Some p -> l !! j = Some q ->
     get_key io p ≠ get_key io q /\
     (io = true ->
      get_key io p = py_join "$$$" (sorted2 (filepath (image1 p)) (filepath (image2 p))) /\
      sorted2 (filepath (image1 p)) (filepath (image2 p)) ≠
      sorted2 (filepath (image1 q)) (filepath (image2 q)) /\
      ~ (filepath (image1 q) = filepath (image2 p) /\
         filepath (image2 q) = filepath (image1 p)))).
Proof.
  intros Hcall.
  apply get_image_pairs_ret_inv in Hcall
    as (images & st1 & st2 & g0 & g1 & g2 & g3 & _ & _ & _ & Hpos & Hneg & Hsh & _).
  apply positive_loop_ok in Hpos; [|apply sampler_init_ok].
  apply negative_loop_ok in Hneg; [|exact Hpos].
  apply shuffle_Permutation in Hsh.
  assert (Hnd : NoDup (map (get_key io) l)).
  { rewrite Hsh. apply (ok_nodup _ _ Hneg). }
  split; [exact Hnd|].
  intros i j p q Hij Hi Hj.
  assert (Hkeys : get_key io p ≠ get_key io q).
  { intros Heq. apply Hij.
    eapply (proj1 (NoDup_alt _) Hnd i j (get_key io p)).
    - rewrite list_lookup_fmap, Hi. reflexivity.
    - rewrite list_lookup_fmap, Hj, Heq. reflexivity. }
  split; [exact Hkeys|].
  intros ->. split; [reflexivity|]. split.
  - intros Heq. apply Hkeys. unfold get_key. rewrite Heq. reflexivity.
  - intros [Ha Hb]. apply Hkeys. unfold get_key.
    rewrite Ha, Hb. rewrite sorted2_swap. reflexivity.
Qed.
End CallFacts.

Lemma returned_pairs_have_distinct_keys_witness :
  get_image_pairs alice_bob_fs 10 "faces" 2 false true [] None example_draws
    = (Ret example_pairs, [6; 7]%nat) /\
  NoDup (map (get_key true) example_pairs).
Proof.
  assert (Hrun : get_image_pairs alice_bob_fs 10 "faces" 2 false true [] None example_draws
    = (Ret example_pairs, [6; 7]%nat)) by (vm_compute; reflexivity).
  split; [exact Hrun|].
  exact (proj1 (returned_pairs_have_distinct_keys _ _ _ _ _ _ _ _ _ _ _ Hrun)).
Defined.

(** ** How many pairs of each kind a call returns *)

Lemma count_same_snoc l p :
  count_same (l ++ [p]) = (count_same l + (if same_person p then 1 else 0))%nat.
Proof.
  unfold count_same. rewrite filter_app, length_app.
  rewrite filter_cons, filter_nil.
  destruct (same_person p); case_decide; simpl; congruence.
Qed.

Lemma count_same_Permutation l l' : l ≡ₚ l' -> count_same l = count_same l'.
Proof. intros Hp. unfold count_same. rewrite Hp. reflexivity. Qed.

(** The pairs of a list that show two different persons. *)
Lemma count_different_length l :
  length (filter (fun p => same_person p = false) l) = (length l - count_same l)%nat.
Proof.
  unfold count_same. induction l as [|p l IH]; [reflexivity|].
  rewrite !filter_cons. simpl.
  pose proof (length_filter (fun p => same_person p = true) l) as Hle.
  destruct (same_person p); repeat case_decide; try congruence; simpl; lia.
Qed.

Section Composition.
Context {G : Type} `{RandomGen G}.

Lemma positive_loop_phase d nb_max same_imgs io fuel (g g' : G) st' :
  dict_ok d ->
  positive_loop d nb_max same_imgs io fuel sampler_init g = (Ret st', g') ->
  nb_added st' = length (pairs st') /\
  count_same (pairs st') = length (pairs st') /\
  nb_added st' = Z.to_nat (nb_max / 2).
Proof.
  intros Hd Hloop.
  destruct (positive_loop_inv d nb_max same_imgs io (positive_phase nb_max))
    with (fuel := fuel) (st := sampler_init) (g := g) (g' := g') (st' := st')
    as [(Hn & Hc & Hle) Hexit]; [| |exact Hloop|].
  - intros st g0 g0' st1 (Hn & Hc & Hle) Hlt Hstep.
    apply positive_step_spec in Hstep as (p & Hp & ->).
    case_bool_decide; [|repeat split; assumption].
    apply positive_candidates_same in Hp; [|exact Hd].
    unfold positive_phase, push_positive; simpl.
    rewrite count_same_snoc, length_app, Hp. simpl. lia.
  - unfold positive_phase. simpl. unfold count_same. simpl. lia.
  - repeat split; try assumption. lia.
Qed.

Lemma negative_loop_phase d nb_max io fuel st (g g' : G) st' :
  dict_ok d ->
  nb_added st = length (pairs st) ->
  negative_loop d nb_max io fuel st g = (Ret st', g') ->
  nb_added st' = length (pairs st') /\
  count_same (pairs st') = count_same (pairs st) /\
  nb_added st' = Nat.max (nb_added st) (Z.to_nat nb_max).
Proof.
  intros Hd Hst Hloop.
  destruct (negative_loop_inv d nb_max io
              (fun s => negative_phase (count_same (pairs st)) s /\
                        (nb_added st <= nb_added s)%nat /\
                        Z.of_nat (nb_added s) <= Z.max (Z.of_nat (nb_added st)) nb_max))
    with (fuel := fuel) (st := st) (g := g) (g' := g') (st' := st')
    as [((Hn & Hc) & Hge & Hle) Hexit]; [| |exact Hloop|].
  - intros s g0 g0' s1 ((Hn & Hc) & Hge & Hle') Hlt Hstep.
    apply negative_step_spec in Hstep as (p & Hp & ->).
    case_bool_decide; [|repeat split; assumption].
    apply negative_candidates_different in Hp; [|exact Hd].
    unfold negative_phase, push_negative; simpl.
    rewrite count_same_snoc, length_app, Hp. simpl.
    repeat split; lia.
  - unfold negative_phase. repeat split; try assumption; lia.
  - repeat split; try assumption. lia.
Qed.

(** Every list that a call returns holds [nb_max] pairs, [nb_max // 2] of
    them of one person. *)
Lemma returned_composition fs fuel path nb_max same_imgs io excl seed (g g' : G) l :
  get_image_pairs fs fuel path nb_max same_imgs io excl seed g = (Ret l, g') ->
  length l = Z.to_nat nb_max /\
  count_same l = Z.to_nat (nb_max / 2) /\
  length (filter (fun p => same_person p = false) l)
    = (Z.to_nat nb_max - Z.to_nat (nb_max / 2))%nat.
Proof.
  intros Hcall.
  apply get_image_pairs_ret_inv in Hcall
    as (images & st1 & st2 & g0 & g1 & g2 & g3 & _ & _ & _ & Hpos & Hneg & Hsh & _).
  pose proof (group_by_person_ok images) as Hd.
  apply positive_loop_phase in Hpos as (Hn1 & Hc1 & Hv1); [|exact Hd].
  apply negative_loop_phase in Hneg as (Hn2 & Hc2 & Hv2); [|exact Hd|exact Hn1].
  apply shuffle_Permutation in Hsh.
  assert (Hlen : length l = Z.to_nat nb_max).
  { rewrite Hsh, <- Hn2, Hv2, Hv1.
    destruct (Z.le_gt_cases 0 nb_max) as [Hpos0|Hneg0].
    - assert (nb_max / 2 <= nb_max) by (apply Z.div_le_upper_bound; lia). lia.
    - assert (nb_max / 2 < 0) by (apply Z.div_lt_upper_bound; lia). lia. }
  assert (Hsame : count_same l = Z.to_nat (nb_max / 2)).
  { rewrite (count_same_Permutation _ _ Hsh), Hc2, Hc1, <- Hn1. exact Hv1. }
  repeat split; [exact Hlen|exact Hsame|].
  rewrite count_different_length, Hlen, Hsame. reflexivity.
Qed.
End Composition.

(** ** Where fuel can run out *)

Lemma obind_fuel {A B : Type} (m : outcome A) (k : A -> outcome B) :
  m ≠ OutOfFuel -> (forall a, k a ≠ OutOfFuel) -> obind m k ≠ OutOfFuel.
Proof.
  destruct m; simpl; intros Hm Hk; [apply Hk|discriminate|congruence].
Qed.

Lemma gen_bind_fuel {G A B : Type} (m : M G A) (k : A -> M G B) (g : G) :
  fst (m g) ≠ OutOfFuel -> (forall a g1, fst (k a g1) ≠ OutOfFuel) ->
  fst (gen_bind m k g) ≠ OutOfFuel.
Proof.
  unfold gen_bind. destruct (m g) as [[a|e|] g1]; simpl; intros Hm Hk;
    [apply Hk|discriminate|congruence].
Qed.

Lemma py_int_fuel s : py_int s ≠ OutOfFuel.
Proof.
  unfold py_int. destruct s; [discriminate|].
  destruct (_ <? _)%nat; [discriminate|].
  destruct (NilEmpty.uint_of_string _); discriminate.
Qed.

Lemma ImageFile_init_fuel id directory name :
  ImageFile_init id directory name ≠ OutOfFuel.
Proof.
  unfold ImageFile_init, filepath_to_number.
  apply obind_fuel; [apply py_int_fuel|discriminate].
Qed.

Lemma scan_files_fuel ex directory files images :
  scan_files ex directory files images ≠ OutOfFuel.
Proof.
  revert images. induction files as [|name rest IH]; intros images; simpl;
    [discriminate|].
  destruct (re_match_image_name name); [|apply IH].
  case_bool_decide; [|apply IH].
  apply obind_fuel; [apply ImageFile_init_fuel|intros; apply IH].
Qed.

Lemma scan_walk_fuel ex entries images :
  scan_walk ex entries images ≠ OutOfFuel.
Proof.
  revert images. induction entries as [|[[directory dirs] files] rest IH];
    intros images; simpl; [discriminate|].
  apply obind_fuel; [apply scan_files_fuel|intros; apply IH].
Qed.

Lemma get_image_files_fuel fs path excl : get_image_files fs path excl ≠ OutOfFuel.
Proof.
  unfold get_image_files. destruct (negb _); [discriminate|].
  apply obind_fuel; [apply scan_walk_fuel|discriminate].
Qed.

Section Fuel.
Context {G : Type} `{RandomGen G}.

Lemma choice_fuel {A : Type} (seq : list A) (g : G) : fst (choice seq g) ≠ OutOfFuel.
Proof.
  unfold choice. destruct seq as [|a seq]; [discriminate|].
  destruct (randbelow _ g) as [i g1]. destruct (_ !! i); discriminate.
Qed.

Lemma shuffle_down_fuel {A : Type} i (x : list A) (g : G) :
  fst (shuffle_down i x g) ≠ OutOfFuel.
Proof.
  revert x g. induction i as [|i IH]; intros x g; simpl; [discriminate|].
  destruct (randbelow _ g) as [j g1].
  apply gen_bind_fuel; [|intros; apply IH].
  unfold gen_lift, swap. simpl.
  destruct (x !! S i); [destruct (x !! j)|]; discriminate.
Qed.

Lemma shuffle_fuel {A : Type} (x : list A) (g : G) : fst (shuffle x g) ≠ OutOfFuel.
Proof. apply shuffle_down_fuel. Qed.

Lemma gen_ret_fuel {A : Type} (a : A) (g : G) : fst (gen_ret a g) ≠ OutOfFuel.
Proof. discriminate. Qed.

Lemma positive_step_fuel d same_imgs io st (g : G) :
  fst (positive_step d same_imgs io st g) ≠ OutOfFuel.
Proof.
  unfold positive_step.
  repeat (apply gen_bind_fuel; [try apply choice_fuel|intros]).
  - destruct same_imgs; apply choice_fuel.
  - case_bool_decide; apply gen_ret_fuel.
Qed.

Lemma negative_step_fuel d io st (g : G) :
  fst (negative_step d io st g) ≠ OutOfFuel.
Proof.
  unfold negative_step.
  repeat (apply gen_bind_fuel; [try apply choice_fuel|intros]).
  case_bool_decide; apply gen_ret_fuel.
Qed.

(** With [nb_max = 1] the first loop is skipped. *)
Lemma positive_loop_single d same_imgs io fuel (g : G) :
  positive_loop d 1 same_imgs io fuel sampler_init g = (Ret sampler_init, g).
Proof. destruct fuel; reflexivity. Qed.

(** With [nb_max = 1] one round of the second loop is enough. *)
Lemma negative_loop_single_fuel d io fuel (g : G) :
  (1 <= fuel)%nat ->
  fst (negative_loop d 1 io fuel sampler_init g) ≠ OutOfFuel.
Proof.
  destruct fuel as [|fuel]; [lia|]. intros _. simpl.
  pose proof (negative_step_fuel d io sampler_init g) as Hfuel.
  destruct (negative_step d io sampler_init g) as [[st'|e|] g1] eqn:Hstep.
  - rewrite (gen_bind_ret _ _ _ _ _ Hstep).
    apply negative_step_spec in Hstep as (p & _ & ->).
    rewrite bool_decide_true by (simpl; set_solver).
    destruct fuel; simpl; discriminate.
  - rewrite (gen_bind_raise _ _ _ _ _ Hstep). discriminate.
  - exfalso. apply Hfuel. reflexivity.
Qed.

Lemma get_image_pairs_single_fuel fs fuel path same_imgs io excl seed (g : G) :
  (1 <= fuel)%nat ->
  fst (get_image_pairs fs fuel path 1 same_imgs io excl seed g) ≠ OutOfFuel.
Proof.
  intros Hfuel.
  assert (Hbody : forall g0 : G,
    fst (get_image_pairs_body fs fuel path 1 same_imgs io excl g0) ≠ OutOfFuel).
  { intros g0. unfold get_image_pairs_body.
    destruct (negb _); [discriminate|].
    apply gen_bind_fuel; [apply get_image_files_fuel|].
    intros images g1. unfold sample_pairs.
    rewrite (gen_bind_ret _ _ _ _ _ (positive_loop_single _ _ _ _ _)).
    apply gen_bind_fuel; [apply negative_loop_single_fuel; exact Hfuel|].
    intros; apply shuffle_fuel. }
  unfold get_image_pairs.
  match goal with |- context [get_image_pairs_body ?a ?b ?c ?d ?e ?f ?h ?g0] =>
    specialize (Hbody g0);
    destruct (get_image_pairs_body a b c d e f h g0) as [[l|e0|] g1] end;
    simpl in *; [discriminate|discriminate|exact Hbody].
Qed.
End Fuel.

Section SinglePair.
Context {G : Type} `{RandomGen G}.

(** C10: a call with [nb_max = 1] skips the same-person loop ([1 // 2 = 0]);
    whatever it returns is a list of exactly one pair, and that pair shows
    two different persons. One round of the second loop is all it needs, so
    fuel never runs out. For every [nb_max], a returned list holds
    [nb_max // 2] same-person pairs and [nb_max - nb_max // 2]
    different-person pairs. *)
Theorem single_pair_is_different_person
    fs fuel path same_imgs io excl seed (g : G) :
  (forall l g',
     get_image_pairs fs fuel path 1 same_imgs io excl seed g = (Ret l, g') ->
     exists p, l = [p] /\ same_person p = false) /\
  ((1 <= fuel)%nat ->
     fst (get_image_pairs fs fuel path 1 same_imgs io excl seed g) ≠ OutOfFuel) /\
  (forall nb_max l g',
     get_image_pairs fs fuel path nb_max same_imgs io excl seed g = (Ret l, g') ->
     count_same l = Z.to_nat (nb_max / 2) /\
     length (filter (fun p => same_person p = false) l)
       = (Z.to_nat nb_max - Z.to_nat (nb_max / 2))%nat).
Proof.
  split; [|split].
  - intros l g' Hcall.
    apply returned_composition in Hcall as (Hlen & Hsame & _).
    change (Z.to_nat 1) with 1%nat in Hlen.
    change (Z.to_nat (1 / 2)) with 0%nat in Hsame.
    destruct l as [|p [|q l]]; try discriminate Hlen.
    exists p. split; [reflexivity|].
    unfold count_same in Hsame. rewrite filter_cons, filter_nil in Hsame.
    destruct (same_person p); [|reflexivity].
    case_decide; [discriminate Hsame|congruence].
  - apply get_image_pairs_single_fuel.
  - intros nb_max l g' Hcall.
    apply returned_composition in Hcall as (_ & Hsame & Hdiff).
    split; assumption.
Qed.
End SinglePair.

Lemma single_pair_is_different_person_witness :
  get_image_pairs alice_bob_fs 1 "faces" 1 false true [] None [0; 0; 0; 0]%nat
    = (Ret single_example_pairs, []) /\
  exists p, single_example_pairs = [p] /\ same_person p = false.
Proof.
  assert (Hrun : get_image_pairs alice_bob_fs 1 "faces" 1 false true [] None [0; 0; 0; 0]%nat
    = (Ret single_example_pairs, [])) by (vm_compute; reflexivity).
  split; [exact Hrun|].
  exact (proj1 (single_pair_is_different_person _ _ _ _ _ _ _ _) _ _ Hrun).
Defined.

(** ** Empty pools and collisions *)

Lemma two_distinct_length {A : Type} (l : list A) (x y : A) :
  x ∈ l -> y ∈ l -> x ≠ y -> (2 <= length l)%nat.
Proof.
  destruct l as [|a [|b l]]; simpl; intros Hx Hy Hne; [| |lia].
  - apply elem_of_nil in Hx. contradiction.
  - apply list_elem_of_singleton in Hx, Hy. congruence.
Qed.

Lemma filter_other_nil (l : list string) (x : string) :
  (length l < 2)%nat -> x ∈ l -> filter (fun y => y ≠ x) l = [].
Proof.
  destruct l as [|a [|b l]]; simpl; intros Hlen Hx; [reflexivity| |lia].
  apply list_elem_of_singleton in Hx. subst a.
  rewrite filter_cons, filter_nil. case_decide; congruence.
Qed.

Section Pools.
Context {G : Type} `{RandomGen G}.

(** Whatever index is drawn, [choice] raises nothing but [IndexError]. *)
Lemma choice_cases {A : Type} (seq : list A) (g : G) :
  (exists x g', choice seq g = (Ret x, g')) \/
  (exists g', choice seq g = (Raise IndexError, g')).
Proof.
  unfold choice. destruct seq as [|a seq]; [right; eauto|].
  destruct (randbelow _ g) as [i g1]. destruct (_ !! i); [left|right]; eauto.
Qed.

Lemma positive_step_no_candidates d same_imgs io st (g : G) :
  all_names_gte2 d = [] ->
  positive_step d same_imgs io st g = (Raise IndexError, g).
Proof. unfold positive_step. intros ->. reflexivity. Qed.

Lemma positive_loop_no_candidates d nb_max same_imgs io fuel st (g : G) :
  all_names_gte2 d = [] ->
  Z.of_nat (nb_added st) < nb_max / 2 -> (1 <= fuel)%nat ->
  positive_loop d nb_max same_imgs io fuel st g = (Raise IndexError, g).
Proof.
  intros Hd Hlt Hfuel. destruct fuel as [|fuel]; [lia|]. simpl.
  apply Z.ltb_lt in Hlt. rewrite Hlt.
  apply gen_bind_raise. apply positive_step_no_candidates. exact Hd.
Qed.

Lemma negative_step_few_names d io st (g : G) :
  (length (all_names d) < 2)%nat ->
  exists g', negative_step d io st g = (Raise IndexError, g').
Proof.
  intros Hlen. unfold negative_step.
  destruct (choice_cases (all_names d) g) as [(p1 & g1 & Hp1)|(g1 & Hp1)].
  - rewrite (gen_bind_ret _ _ _ _ _ Hp1).
    rewrite (filter_other_nil _ p1 Hlen (choice_ret_elem _ _ _ _ Hp1)).
    exists g1. reflexivity.
  - exists g1. apply gen_bind_raise. exact Hp1.
Qed.

Lemma negative_loop_few_names d nb_max io fuel st (g : G) :
  (length (all_names d) < 2)%nat ->
  Z.of_nat (nb_added st) < nb_max -> (1 <= fuel)%nat ->
  exists g', negative_loop d nb_max io fuel st g = (Raise IndexError, g').
Proof.
  intros Hlen Hlt Hfuel. destruct fuel as [|fuel]; [lia|]. simpl.
  apply Z.ltb_lt in Hlt. rewrite Hlt.
  destruct (negative_step_few_names d io st g Hlen) as (g' & Hstep).
  exists g'. apply gen_bind_raise. exact Hstep.
Qed.

Lemma positive_step_pool d same_imgs io st (g g' : G) st' :
  positive_step d same_imgs io st g = (Ret st', g') -> all_names_gte2 d ≠ [].
Proof.
  intros Hstep Hnil.
  rewrite (positive_step_no_candidates _ _ _ _ _ Hnil) in Hstep. discriminate.
Qed.

Lemma negative_step_pool d io st (g g' : G) st' :
  negative_step d io st g = (Ret st', g') -> (2 <= length (all_names d))%nat.
Proof.
  intros Hstep.
  destruct (Nat.le_gt_cases 2 (length (all_names d))) as [Hle|Hlt]; [exact Hle|].
  destruct (negative_step_few_names d io st g Hlt) as (g1 & Hraise).
  congruence.
Qed.

(** A first loop that is out of fuel although it had one round for every
    pair still to add has been through a collision. *)
Lemma positive_loop_out_of_fuel d nb_max same_imgs io fuel st (g g' : G) :
  positive_loop d nb_max same_imgs io fuel st g = (OutOfFuel, g') ->
  (Z.to_nat (nb_max / 2) - nb_added st <= fuel)%nat ->
  exists st0 g0, positive_collision d same_imgs io st0 g0.
Proof.
  revert st g. induction fuel as [|fuel IH]; intros st g; simpl.
  - destruct (Z.ltb_spec (Z.of_nat (nb_added st)) (nb_max / 2)); [lia|discriminate].
  - destruct (Z.ltb_spec (Z.of_nat (nb_added st)) (nb_max / 2)); [|discriminate].
    pose proof (positive_step_fuel d same_imgs io st g) as Hnf.
    destruct (positive_step d same_imgs io st g) as [[st'|e|] g1] eqn:Hstep.
    + rewrite (gen_bind_ret _ _ _ _ _ Hstep). intros Hloop Hfuel.
      pose proof (positive_step_pool _ _ _ _ _ _ _ Hstep) as Hpool.
      pose proof Hstep as Hspec.
      apply positive_step_spec in Hspec as (p & Hp & Hst').
      case_bool_decide as Hfresh.
      * apply (IH st' g1 Hloop). subst st'. simpl. lia.
      * subst st'. exists st, g, p, g1.
        split; [exact Hstep|]. split; [exact Hp|]. split; [|exact Hpool].
        destruct (decide (get_key io p ∈ added st)); [assumption|contradiction].
    + rewrite (gen_bind_raise _ _ _ _ _ Hstep). discriminate.
    + exfalso. apply Hnf. reflexivity.
Qed.

Lemma negative_loop_out_of_fuel d nb_max io fuel st (g g' : G) :
  negative_loop d nb_max io fuel st g = (OutOfFuel, g') ->
  (Z.to_nat nb_max - nb_added st <= fuel)%nat ->
  exists st0 g0, negative_collision d io st0 g0.
Proof.
  revert st g. induction fuel as [|fuel IH]; intros st g; simpl.
  - destruct (Z.ltb_spec (Z.of_nat (nb_added st)) nb_max); [lia|discriminate].
  - destruct (Z.ltb_spec (Z.of_nat (nb_added st)) nb_max); [|discriminate].
    pose proof (negative_step_fuel d io st g) as Hnf.
    destruct (negative_step d io st g) as [[st'|e|] g1] eqn:Hstep.
    + rewrite (gen_bind_ret _ _ _ _ _ Hstep). intros Hloop Hfuel.
      pose proof (negative_step_pool _ _ _ _ _ _ Hstep) as Hpool.
      pose proof Hstep as Hspec.
      apply negative_step_spec in Hspec as (p & Hp & Hst').
      case_bool_decide as Hfresh.
      * apply (IH st' g1 Hloop). subst st'. simpl. lia.
      * subst st'. exists st, g, p, g1.
        split; [exact Hstep|]. split; [exact Hp|]. split; [|exact Hpool].
        destruct (decide (get_key io p ∈ added st)); [assumption|contradiction].
    + rewrite (gen_bind_raise _ _ _ _ _ Hstep). discriminate.
    + exfalso. apply Hnf. reflexivity.
Qed.
End Pools.

Section EmptyPools.
Context {G : Type} `{RandomGen G}.

Lemma get_image_pairs_body_files fs fuel path nb_max same_imgs io excl images (g : G) :
  get_image_files fs path (map image1 excl ++ map image2 excl) = Ret images ->
  get_image_pairs_body fs fuel path nb_max same_imgs io excl g
    = sample_pairs (group_by_person images) nb_max same_imgs io fuel g.
Proof.
  intros Hfiles. unfold get_image_pairs_body.
  destruct (negb (fs_isdir fs path)) eqn:Hdir.
  - unfold get_image_files in Hfiles. rewrite Hdir in Hfiles. discriminate.
  - unfold gen_bind, gen_lift. rewrite Hfiles. reflexivity.
Qed.

Lemma get_image_pairs_not_ret fs fuel path nb_max same_imgs io excl seed (g : G) o g1 :
  get_image_pairs_body fs fuel path nb_max same_imgs io excl
    (match seed with Some a => seed_state a | None => g end) = (o, g1) ->
  (forall l, o ≠ Ret l) ->
  get_image_pairs fs fuel path nb_max same_imgs io excl seed g = (o, g1).
Proof.
  intros Hbody Ho. unfold get_image_pairs. rewrite Hbody.
  destruct o as [l| |]; [destruct (Ho l); reflexivity|reflexivity..].
Qed.

End EmptyPools.


(** ** The state of the generator *)

Section Draws.
Context {G : Type} `{RandomGen G}.

Lemma draws_from_trans (g g1 g2 : G) k1 k2 :
  draws_from g k1 g1 -> draws_from g1 k2 g2 -> draws_from g (k1 + k2) g2.
Proof.
  intros H1 H2. induction H2 as [|k n g3 _ IH].
  - rewrite Nat.add_0_r. exact H1.
  - rewrite Nat.add_succ_r. apply draws_more. exact IH.
Qed.

Lemma draws_from_one n (g : G) : draws_from g 1 (snd (randbelow n g)).
Proof. apply draws_more, draws_none. Qed.

Lemma choice_draws {A : Type} (seq : list A) (g g' : G) x :
  choice seq g = (Ret x, g') -> draws_from g 1 g'.
Proof.
  unfold choice. destruct seq as [|a seq]; [discriminate|].
  pose proof (draws_from_one (length (a :: seq)) g) as Hone.
  destruct (randbelow _ g) as [i g1]. destruct (_ !! i); [|discriminate].
  intros [= <- <-]. exact Hone.
Qed.

Lemma positive_step_draws d same_imgs io st (g g' : G) st' :
  positive_step d same_imgs io st g = (Ret st', g') -> draws_from g 3 g'.
Proof.
  unfold positive_step. intros Hstep.
  apply gen_bind_ret_inv in Hstep as (person & g1 & Hp & Hstep).
  apply gen_bind_ret_inv in Hstep as (img1 & g2 & H1 & Hstep).
  apply gen_bind_ret_inv in Hstep as (img2 & g3 & H2 & Hstep).
  assert (g' = g3) as -> by (case_bool_decide; injection Hstep; auto).
  apply choice_draws in Hp, H1.
  assert (draws_from g2 1 g3) as H3
    by (destruct same_imgs; eapply choice_draws; exact H2).
  exact (draws_from_trans _ _ _ 2 1 (draws_from_trans _ _ _ 1 1 Hp H1) H3).
Qed.

Lemma negative_step_draws d io st (g g' : G) st' :
  negative_step d io st g = (Ret st', g') -> draws_from g 4 g'.
Proof.
  unfold negative_step. intros Hstep.
  apply gen_bind_ret_inv in Hstep as (person1 & g1 & Hp1 & Hstep).
  apply gen_bind_ret_inv in Hstep as (person2 & g2 & Hp2 & Hstep).
  apply gen_bind_ret_inv in Hstep as (img1 & g3 & H1 & Hstep).
  apply gen_bind_ret_inv in Hstep as (img2 & g4 & H2 & Hstep).
  assert (g' = g4) as -> by (case_bool_decide; injection Hstep; auto).
  apply choice_draws in Hp1, Hp2, H1, H2.
  exact (draws_from_trans _ _ _ 3 1
           (draws_from_trans _ _ _ 2 1 (draws_from_trans _ _ _ 1 1 Hp1 Hp2) H1) H2).
Qed.

Lemma shuffle_down_draws {A : Type} i (x l : list A) (g g' : G) :
  shuffle_down i x g = (Ret l, g') -> draws_from g i g'.
Proof.
  revert x g. induction i as [|i IH]; intros x g; simpl.
  - intros [= <- <-]. apply draws_none.
  - pose proof (draws_from_one (S i + 1) g) as Hone.
    destruct (randbelow _ g) as [j g1]. intros Hrest.
    apply gen_bind_ret_inv in Hrest as (x' & g2 & Hswap & Hrest).
    assert (g2 = g1) as ->
      by (unfold gen_lift in Hswap; injection Hswap; auto).
    apply IH in Hrest.
    exact (draws_from_trans _ _ _ 1 i Hone Hrest).
Qed.

(** Each round of a loop that adds a pair draws from the generator. *)
Lemma positive_loop_draws d nb_max same_imgs io fuel st (g g' : G) st' :
  positive_loop d nb_max same_imgs io fuel st g = (Ret st', g') ->
  exists k, draws_from g k g' /\ (nb_added st' <= nb_added st + k)%nat.
Proof.
  revert st g. induction fuel as [|fuel IH]; intros st g; simpl.
  - destruct (_ <? _); [discriminate|]. intros [= <- <-].
    exists 0%nat. split; [apply draws_none|lia].
  - destruct (_ <? _).
    + intros Hloop.
      apply gen_bind_ret_inv in Hloop as (st1 & g1 & Hstep & Hloop).
      apply IH in Hloop as (k & Hk & Hle).
      pose proof (positive_step_draws _ _ _ _ _ _ _ Hstep) as H3.
      apply positive_step_spec in Hstep as (p & _ & ->).
      exists (3 + k)%nat. split; [exact (draws_from_trans _ _ _ _ _ H3 Hk)|].
      case_bool_decide; simpl in Hle; lia.
    + intros [= <- <-]. exists 0%nat. split; [apply draws_none|lia].
Qed.

Lemma negative_loop_draws d nb_max io fuel st (g g' : G) st' :
  negative_loop d nb_max io fuel st g = (Ret st', g') ->
  exists k, draws_from g k g' /\ (nb_added st' <= nb_added st + k)%nat.
Proof.
  revert st g. induction fuel as [|fuel IH]; intros st g; simpl.
  - destruct (_ <? _); [discriminate|]. intros [= <- <-].
    exists 0%nat. split; [apply draws_none|lia].
  - destruct (_ <? _).
    + intros Hloop.
      apply gen_bind_ret_inv in Hloop as (st1 & g1 & Hstep & Hloop).
      apply IH in Hloop as (k & Hk & Hle).
      pose proof (negative_step_draws _ _ _ _ _ _ Hstep) as H4.
      apply negative_step_spec in Hstep as (p & _ & ->).
      exists (4 + k)%nat. split; [exact (draws_from_trans _ _ _ _ _ H4 Hk)|].
      case_bool_decide; simpl in Hle; lia.
    + intros [= <- <-]. exists 0%nat. split; [apply draws_none|lia].
Qed.

End Draws.


(** The claim of C4 fails on two sides: a seeded call that raises (here on a
    path that is no directory) leaves the generator in the seeded state, and
    an unseeded call with [nb_max = 0] makes no draw. *)
Lemma seeded_raise_keeps_seeded_state :
  (exists e,
     get_image_pairs alice_bob_fs 10 "nowhere" 2 false true [] (Some 3) [1; 2]%nat
       = (Raise e, [3; 3; 3]%nat)) /\
  snd (get_image_pairs alice_bob_fs 10 "nowhere" 2 false true [] (Some 3) [1; 2]%nat)
    ≠ [1; 2]%nat /\
  get_image_pairs alice_bob_fs 10 "faces" 0 false true [] None [1; 2]%nat
    = (Ret [], [1; 2]%nat).
Proof.
  split; [eexists; vm_compute; reflexivity|].
  split; [vm_compute; discriminate|vm_compute; reflexivity].
Qed.

(** ** load_weights and load_previous_model *)

Lemma load_weights_found_false fs model dir id m' e :
  load_weights fs model dir id = Ret (m', (false, e)) ->
  m' = model /\ e = EpochNum (-1) /\ weight_filenames fs dir id = Ret [].
Proof.
  unfold load_weights.
  destruct (weight_filenames fs dir id) as [filenames| |]; [|discriminate..].
  cbn [obind].
  destruct (Nat.eqb_spec (length filenames) 0) as [Hnil|_].
  - intros [= <- <-]. apply nil_length_inv in Hnil. subst. auto.
  - destruct (2 <=? _)%nat; [discriminate|].
    destruct (_ =? 1)%nat.
    + destruct (py_index _ 0); cbn [obind]; discriminate.
    + destruct (map_outcome _ _); cbn [obind]; [|discriminate..].
      destruct (py_index _ 0); cbn [obind]; discriminate.
Qed.



(** ** Epochs in file names *)

Lemma chars_app (a b : string) : chars (a +:+ b) = chars a ++ chars b.
Proof.
  unfold chars. induction a as [|c a IH]; simpl; [reflexivity|].
  f_equal. exact IH.
Qed.

Lemma of_chars_chars (s : string) : of_chars (chars s) = s.
Proof. apply String.string_of_list_ascii_of_string. Qed.

Lemma string_of_uint_digits (d : Decimal.uint) :
  Forall (fun c => is_digit c = true) (chars (NilEmpty.string_of_uint d)).
Proof.
  unfold chars.
  induction d; simpl; constructor; try assumption; reflexivity.
Qed.


Lemma py_int_ok (s : string) (d : Decimal.uint) :
  s ≠ ""%string -> (String.length s <= int_max_str_digits)%nat ->
  NilEmpty.uint_of_string s = Some d -> py_int s = Ret (N.of_uint d).
Proof.
  intros Hs Hlen Hd. unfold py_int. destruct s as [|c s]; [congruence|].
  apply Nat.ltb_ge in Hlen. rewrite Hlen, Hd. reflexivity.
Qed.

Lemma py_str_of_int_nonempty (n : N) : py_str_of_int n ≠ ""%string.
Proof.
  unfold py_str_of_int. destruct n as [|p]; [discriminate|]. simpl.
  pose proof (DecimalPos.Unsigned.to_uint_nonnil p) as Hp.
  destruct (Pos.to_uint p); try discriminate. contradiction.
Qed.

Lemma py_int_str_of_int (n : N) :
  (String.length (py_str_of_int n) <= int_max_str_digits)%nat ->
  py_int (py_str_of_int n) = Ret n.
Proof.
  intros Hlen.
  rewrite (py_int_ok _ (N.to_uint n) (py_str_of_int_nonempty n) Hlen).
  - rewrite DecimalN.Unsigned.of_to. reflexivity.
  - apply NilEmpty.usu.
Qed.

Lemma filter_all {A : Type} (P : A -> Prop) `{forall x, Decision (P x)} (l : list A) :
  Forall P l -> filter P l = l.
Proof.
  induction 1 as [|x l Hx _ IH]; [reflexivity|].
  rewrite filter_cons, decide_True by exact Hx. f_equal. exact IH.
Qed.






Lemma insert_desc_head (x : N) (l : list N) :
  exists e0 rest, insert_desc x l = e0 :: rest /\
    (x <= e0)%N /\ (e0 = x \/ exists rest', l = e0 :: rest').
Proof.
  destruct l as [|y l]; simpl.
  - exists x, []. split; [reflexivity|]. split; [lia|left; reflexivity].
  - destruct (N.ltb_spec x y).
    + exists y, (insert_desc x l). split; [reflexivity|].
      split; [lia|right; eauto].
    + exists x, (y :: l). split; [reflexivity|]. split; [lia|left; reflexivity].
Qed.

Lemma insert_desc_head_ge (x y : N) (l rest : list N) :
  insert_desc x (y :: l) = rest -> exists e0 rest', rest = e0 :: rest' /\ (y <= e0)%N.
Proof.
  simpl. destruct (N.ltb_spec x y); intros <-; eexists _, _; split; eauto; lia.
Qed.

(** [sorted(epochs, reverse=True)[0]] is the highest epoch. *)
Lemma sorted_desc_head (l : list N) :
  l ≠ [] ->
  exists e0 rest, sorted_desc l = e0 :: rest /\ e0 ∈ l /\
                  forall n, n ∈ l -> (n <= e0)%N.
Proof.
  induction l as [|x l IH]; [congruence|]. intros _.
  unfold sorted_desc. simpl. fold (sorted_desc l).
  destruct l as [|y l].
  - exists x, []. split; [reflexivity|]. split; [left|].
    intros n Hn. apply list_elem_of_singleton in Hn. lia.
  - destruct IH as (e1 & rest1 & Hs & Hin & Hmax); [discriminate|].
    rewrite Hs.
    destruct (insert_desc_head x (e1 :: rest1)) as (e0 & rest & Hi & Hle & Hcase).
    exists e0, rest. split; [exact Hi|].
    assert (He : (e1 <= e0)%N).
    { destruct (insert_desc_head_ge _ _ _ _ Hi) as (e & r & [= <- <-] & ?). assumption. }
    split.
    + destruct Hcase as [->|(rest' & [= <- <-])]; [left|right; exact Hin].
    + intros n Hn. apply elem_of_cons in Hn as [->|Hn]; [exact Hle|].
      specialize (Hmax n Hn). lia.
Qed.




(** * Further properties of the code *)

(** ** Keys of pairs *)

Lemma append_sep_inj (a a' b b' : string) :
  no_dollar a = true -> no_dollar a' = true ->
  a +:+ "$$$" +:+ b = a' +:+ "$$$" +:+ b' -> a = a' /\ b = b'.
Proof.
  revert a'. induction a as [|c a IH]; intros [|c' a'] Ha Ha' Heq.
  - injection Heq as Heq. split; [reflexivity|exact Heq].
  - injection Heq as <- _. discriminate Ha'.
  - injection Heq as -> _. discriminate Ha.
  - injection Heq as <- Heq.
    unfold no_dollar in Ha, Ha'. simpl in Ha, Ha'.
    apply andb_true_iff in Ha as [_ Ha]. apply andb_true_iff in Ha' as [_ Ha'].
    destruct (IH a' Ha Ha' Heq) as [-> ->]. auto.
Qed.

Lemma sorted2_cases (a b : string) :
  sorted2 a b = [a; b] \/ sorted2 a b = [b; a].
Proof. unfold sorted2. destruct (String.ltb b a); auto. Qed.

(** X1: [get_key]: with [ignore_order] a pair and its mirror image have the same
    key. When no file path holds a [$], equal keys mean equal file paths:
    in the same order without [ignore_order], in either order with it. *)
Theorem get_key_identifies_filepaths (p q : ImagePair) :
  get_key true (ImagePair_init (image2 p) (image1 p)) = get_key true p /\
  (no_dollar (filepath (image1 p)) = true ->
   no_dollar (filepath (image1 q)) = true ->
   get_key false p = get_key false q ->
   filepath (image1 p) = filepath (image1 q) /\
   filepath (image2 p) = filepath (image2 q)) /\
  (no_dollar (filepath (image1 p)) = true ->
   no_dollar (filepath (image2 p)) = true ->
   no_dollar (filepath (image1 q)) = true ->
   no_dollar (filepath (image2 q)) = true ->
   get_key true p = get_key true q ->
   (filepath (image1 p) = filepath (image1 q) /\
    filepath (image2 p) = filepath (image2 q)) \/
   (filepath (image1 p) = filepath (image2 q) /\
    filepath (image2 p) = filepath (image1 q))).
Proof.
  split; [|split].
  - unfold get_key. simpl. apply f_equal, sorted2_swap.
  - unfold get_key. cbn [py_join]. intros Hp Hq Hkey.
    exact (append_sep_inj _ _ _ _ Hp Hq Hkey).
  - unfold get_key. intros Hp1 Hp2 Hq1 Hq2.
    destruct (sorted2_cases (filepath (image1 p)) (filepath (image2 p))) as [-> | ->],
             (sorted2_cases (filepath (image1 q)) (filepath (image2 q))) as [-> | ->];
      cbn [py_join]; intros Hkey; apply append_sep_inj in Hkey as [H1 H2];
      try assumption; auto.
Qed.

Lemma get_key_identifies_filepaths_witness :
  get_key true (ImagePair_init alice1_image bob1_image)
    = get_key true (ImagePair_init bob1_image alice1_image) /\
  ((filepath alice1_image = filepath bob1_image /\
    filepath bob1_image = filepath alice1_image) \/
   (filepath alice1_image = filepath alice1_image /\
    filepath bob1_image = filepath bob1_image)).
Proof.
  assert (Hkey : get_key true (ImagePair_init alice1_image bob1_image)
                 = get_key true (ImagePair_init bob1_image alice1_image))
    by (vm_compute; reflexivity).
  split; [exact Hkey|].
  apply (proj2 (proj2 (get_key_identifies_filepaths
                         (ImagePair_init alice1_image bob1_image)
                         (ImagePair_init bob1_image alice1_image))));
    [vm_compute; reflexivity..|exact Hkey].
Defined.

(** ** Strings as lists of characters *)

Lemma chars_of_chars (l : list ascii) : chars (of_chars l) = l.
Proof. apply String.list_ascii_of_string_of_list_ascii. Qed.

Lemma chars_inj (s t : string) : chars s = chars t -> s = t.
Proof. intros Heq. rewrite <- (of_chars_chars s), <- (of_chars_chars t), Heq. reflexivity. Qed.

Lemma length_chars (s : string) : String.length s = length (chars s).
Proof. unfold chars. induction s as [|c s IH]; simpl; [reflexivity|]. rewrite IH. reflexivity. Qed.

Lemma chars_substring (s : string) (n m : nat) :
  chars (String.substring n m s) = take m (drop n (chars s)).
Proof.
  unfold chars. revert n m. induction s as [|c s IH]; intros [|n] [|m]; simpl;
    try reflexivity.
  - f_equal. apply (IH 0%nat m).
  - apply (IH n 0%nat).
  - apply (IH n (S m)).
Qed.

Lemma no_char_Forall (c : ascii) (s : string) :
  no_char c s = true <-> Forall (fun x => x ≠ c) (chars s).
Proof.
  unfold no_char. rewrite forallb_forall, Forall_forall. split.
  - intros Hall x Hx. apply Ascii.eqb_neq, negb_true_iff, Hall, list_elem_of_In, Hx.
  - intros Hall x Hx. apply negb_true_iff, Ascii.eqb_neq, Hall, list_elem_of_In, Hx.
Qed.

Lemma rfind_from_absent (i : Z) (l : list ascii) (c : ascii) (found : Z) :
  Forall (fun x => x ≠ c) l -> rfind_from i l c found = found.
Proof.
  intros Hl. revert i. induction Hl as [|x l Hx _ IH]; intros i; simpl; [reflexivity|].
  apply Ascii.eqb_neq in Hx. rewrite Hx. apply IH.
Qed.

Lemma rfind_from_last (i : Z) (l1 l2 : list ascii) (c : ascii) (found : Z) :
  Forall (fun x => x ≠ c) l2 ->
  rfind_from i (l1 ++ c :: l2) c found = i + Z.of_nat (length l1).
Proof.
  intros Hl2. revert i found. induction l1 as [|x l1 IH]; intros i found; simpl.
  - rewrite Ascii.eqb_refl, rfind_from_absent by exact Hl2. lia.
  - rewrite IH. lia.
Qed.

(** [s[i:j]] on the characters, for bounds within the string. *)
Lemma chars_py_slice (s : string) (i j : nat) :
  (i <= j <= length (chars s))%nat ->
  chars (py_slice s (Z.of_nat i) (Z.of_nat j)) = take (j - i) (drop i (chars s)).
Proof.
  intros Hij. unfold py_slice, clip_index. rewrite chars_substring, length_chars.
  destruct (Z.ltb_spec (Z.of_nat i) 0); [lia|].
  destruct (Z.ltb_spec (Z.of_nat j) 0); [lia|].
  f_equal; [|f_equal]; lia.
Qed.

(** ** File paths and what [ImageFile] reads off them *)

Lemma chars_rev_app (s acc : string) :
  chars (String.rev_app s acc) = rev (chars s) ++ chars acc.
Proof.
  unfold chars. revert acc. induction s as [|c s IH]; intros acc; simpl;
    [reflexivity|].
  rewrite IH. simpl. rewrite <- app_assoc. reflexivity.
Qed.

Lemma prefix_char (a c : ascii) (t : string) :
  String.prefix (String a "") (String c t) = Ascii.eqb a c.
Proof.
  change (String.prefix (String a "") (String c t))
    with (if ascii_dec a c then String.prefix "" t else false).
  destruct (ascii_dec a c) as [->|Hne].
  - rewrite Ascii.eqb_refl. destruct t; reflexivity.
  - apply Ascii.eqb_neq in Hne. rewrite Hne. reflexivity.
Qed.

Lemma endswith_slash (s : string) :
  endswith s "/" = true -> exists l, chars s = l ++ ["/"%char].
Proof.
  unfold endswith. change (String.rev "/") with "/"%string.
  destruct (String.rev s) as [|c t] eqn:Hrev; [discriminate|].
  rewrite prefix_char. intros Hc. apply Ascii.eqb_eq in Hc. subst c.
  exists (rev (chars t)).
  apply (f_equal chars) in Hrev. unfold String.rev in Hrev.
  rewrite chars_rev_app, app_nil_r in Hrev.
  apply (f_equal (@rev ascii)) in Hrev. rewrite rev_involutive in Hrev.
  rewrite Hrev. reflexivity.
Qed.

(** [os.path.join(directory, name)] for a name without a slash: the name,
    or the name after something that ends in a slash. *)
Lemma os_path_join_chars (directory name : string) :
  no_char "/" name = true ->
  chars (os_path_join directory name) = chars name \/
  exists l, chars (os_path_join directory name) = (l ++ ["/"%char]) ++ chars name.
Proof.
  intros Hname. unfold os_path_join.
  assert (startswith name "/" = false) as ->.
  { unfold startswith. destruct name as [|c name]; [reflexivity|].
    rewrite prefix_char. rewrite Ascii.eqb_sym.
    unfold no_char, chars in Hname. simpl in Hname.
    apply andb_true_iff in Hname as [Hc _]. apply negb_true_iff in Hc. exact Hc. }
  destruct (String.eqb_spec directory "") as [->|_]; simpl.
  - left. reflexivity.
  - destruct (endswith directory "/") eqn:Hends.
    + apply endswith_slash in Hends as (l & Hl).
      right. exists l. rewrite chars_app, Hl. reflexivity.
    + right. exists (chars directory).
      rewrite chars_app, (chars_app "/"). rewrite <- app_assoc. reflexivity.
Qed.

Lemma rfind_slash_prefix (pre rest : list ascii) (fp : string) :
  chars fp = pre ++ rest -> Forall (fun x => x ≠ "/"%char) rest ->
  pre = [] \/ (exists l, pre = l ++ ["/"%char]) ->
  rfind fp "/" + 1 = Z.of_nat (length pre).
Proof.
  intros Hfp Hrest [->|(l & ->)]; unfold rfind; rewrite Hfp.
  - simpl. rewrite rfind_from_absent by exact Hrest. reflexivity.
  - rewrite <- app_assoc. simpl.
    rewrite rfind_from_last by exact Hrest. rewrite length_app. simpl. lia.
Qed.

Lemma os_path_basename_join (directory name : string) :
  no_char "/" name = true ->
  os_path_basename (os_path_join directory name) = name.
Proof.
  intros Hname. set (fp := os_path_join directory name).
  assert (exists pre, chars fp = pre ++ chars name /\
                      (pre = [] \/ exists l, pre = l ++ ["/"%char])) as (pre & Hfp & Hpre).
  { destruct (os_path_join_chars directory name Hname) as [Hfp|(l & Hfp)].
    - exists []. split; [exact Hfp|left; reflexivity].
    - exists (l ++ ["/"%char]). split; [exact Hfp|right; eauto]. }
  apply chars_inj. unfold os_path_basename, py_slice_from.
  rewrite (rfind_slash_prefix pre (chars name) fp Hfp); [|apply no_char_Forall, Hname|exact Hpre].
  rewrite length_chars, chars_py_slice; rewrite Hfp, ?length_app; [|lia].
  rewrite drop_app_length.
  rewrite take_ge; [reflexivity|lia].
Qed.

(** The person: what stands between the last slash and the last underscore. *)
Lemma filepath_to_person_name_join (directory person rest : string) :
  no_char "/" person = true -> no_char "/" rest = true -> no_char "_" rest = true ->
  filepath_to_person_name (os_path_join directory (person +:+ "_" +:+ rest)) = person.
Proof.
  intros Hp Hr1 Hr2. set (name := person +:+ "_" +:+ rest).
  assert (Hchars : chars name = chars person ++ "_"%char :: chars rest)
    by (unfold name; rewrite chars_app, (chars_app "_"); reflexivity).
  assert (Hname : no_char "/" name = true).
  { apply no_char_Forall. rewrite Hchars. apply Forall_app. split.
    - apply no_char_Forall, Hp.
    - constructor; [discriminate|apply no_char_Forall, Hr1]. }
  set (fp := os_path_join directory name).
  assert (exists pre, chars fp = pre ++ chars name /\
                      (pre = [] \/ exists l, pre = l ++ ["/"%char])) as (pre & Hfp & Hpre).
  { destruct (os_path_join_chars directory name Hname) as [Hfp|(l & Hfp)].
    - exists []. split; [exact Hfp|left; reflexivity].
    - exists (l ++ ["/"%char]). split; [exact Hfp|right; eauto]. }
  apply chars_inj. unfold filepath_to_person_name.
  rewrite (rfind_slash_prefix pre (chars name) fp Hfp); [|apply no_char_Forall, Hname|exact Hpre].
  assert (Hunder : rfind fp "_" = Z.of_nat (length pre + length (chars person))).
  { unfold rfind. rewrite Hfp, Hchars, app_assoc.
    rewrite rfind_from_last by (apply no_char_Forall, Hr2).
    rewrite length_app. lia. }
  rewrite Hunder, chars_py_slice; rewrite Hfp, Hchars, ?length_app; [|simpl; lia].
  rewrite drop_app_length.
  replace (length pre + length (chars person) - length pre)%nat
    with (length (chars person)) by lia.
  apply take_app_length.
Qed.

(** ** Numbers in file names *)

Lemma uint_of_char_digit (c : ascii) (d : Decimal.uint) :
  is_digit c = true -> exists d', uint_of_char c (Some d) = Some d'.
Proof.
  destruct c as [[] [] [] [] [] [] [] []]; intros Hc;
    try discriminate Hc; simpl; eauto.
Qed.

Lemma uint_of_string_digits (l : list ascii) :
  Forall (fun c => is_digit c = true) l ->
  exists d, NilEmpty.uint_of_string (of_chars l) = Some d.
Proof.
  induction 1 as [|c l Hc _ (d & IH)]; simpl; [eauto|].
  rewrite IH. apply uint_of_char_digit. exact Hc.
Qed.

(** [int(s)] succeeds on every non-empty string of at most
    [int_max_str_digits] digits. *)
Lemma py_int_digits (s : string) :
  s ≠ ""%string -> (String.length s <= int_max_str_digits)%nat ->
  Forall (fun c => is_digit c = true) (chars s) ->
  exists n, py_int s = Ret n.
Proof.
  intros Hs Hlen Hdigits.
  destruct (uint_of_string_digits _ Hdigits) as (d & Hd).
  rewrite of_chars_chars in Hd. rewrite (py_int_ok s d Hs Hlen Hd). eauto.
Qed.

(** [int(s)] fails on every string of more digits. *)
Lemma py_int_too_long (s : string) :
  (int_max_str_digits < String.length s)%nat -> py_int s = Raise ValueError.
Proof.
  intros Hlen. unfold py_int. destruct s as [|c s]; [reflexivity|].
  apply Nat.ltb_lt in Hlen. rewrite Hlen. reflexivity.
Qed.

Lemma length_string_app (a b : string) :
  String.length (a +:+ b) = (String.length a + String.length b)%nat.
Proof. rewrite !length_chars, chars_app, length_app. reflexivity. Qed.

Lemma length_padded_number (zeros : nat) (n : N) :
  String.length (padded_number zeros n)
    = (zeros + String.length (py_str_of_int n))%nat.
Proof.
  unfold padded_number. rewrite length_string_app. f_equal.
  rewrite length_chars, chars_of_chars. apply length_replicate.
Qed.

Lemma uint_of_padded_number (zeros : nat) (n : N) :
  NilEmpty.uint_of_string (padded_number zeros n)
    = Some (Nat.iter zeros Decimal.D0 (N.to_uint n)).
Proof.
  unfold padded_number. induction zeros as [|zeros IH].
  - apply NilEmpty.usu.
  - change (of_chars (replicate (S zeros) "0"%char) +:+ py_str_of_int n)
      with (String "0" (of_chars (replicate zeros "0"%char) +:+ py_str_of_int n)).
    cbn [NilEmpty.uint_of_string]. rewrite IH. reflexivity.
Qed.

Lemma of_uint_leading_zeros (zeros : nat) (d : Decimal.uint) :
  N.of_uint (Nat.iter zeros Decimal.D0 d) = N.of_uint d.
Proof. induction zeros as [|zeros IH]; [reflexivity|]. simpl. exact IH. Qed.

Lemma py_int_padded_number (zeros : nat) (n : N) :
  (zeros + String.length (py_str_of_int n) <= int_max_str_digits)%nat ->
  py_int (padded_number zeros n) = Ret n.
Proof.
  intros Hlen. rewrite <- length_padded_number in Hlen.
  assert (Hne : padded_number zeros n ≠ ""%string).
  { intros Hempty. apply (f_equal String.length) in Hempty.
    rewrite length_padded_number in Hempty.
    pose proof (py_str_of_int_nonempty n) as Hne.
    destruct (py_str_of_int n); [congruence|simpl in Hempty; lia]. }
  rewrite (py_int_ok _ _ Hne Hlen (uint_of_padded_number zeros n)).
  rewrite of_uint_leading_zeros, DecimalN.Unsigned.of_to. reflexivity.
Qed.

Lemma padded_number_digits (zeros : nat) (n : N) :
  Forall (fun c => is_digit c = true) (chars (padded_number zeros n)).
Proof.
  unfold padded_number. rewrite chars_app, chars_of_chars. apply Forall_app. split.
  - apply Forall_replicate. reflexivity.
  - apply string_of_uint_digits.
Qed.

Lemma no_digit_filter (s : string) :
  no_digit s = true -> filter (fun c => is_digit c = true) (chars s) = [].
Proof.
  unfold no_digit. induction (chars s) as [|c l IH]; simpl; [reflexivity|].
  intros Hall. apply andb_true_iff in Hall as [Hc Hl].
  apply negb_true_iff in Hc.
  rewrite filter_cons, decide_False by congruence. apply IH, Hl.
Qed.

Lemma digits_no_char (c : ascii) (l : list ascii) :
  is_digit c = false -> Forall (fun x => is_digit x = true) l ->
  Forall (fun x => x ≠ c) l.
Proof.
  intros Hc Hl. eapply Forall_impl; [exact Hl|].
  intros x Hx ->. congruence.
Qed.

Lemma strip_non_digits_image_filename (person : string) (zeros : nat) (n : N) (ext : string) :
  no_digit person = true -> no_digit ext = true ->
  strip_non_digits (image_filename person zeros n ext) = padded_number zeros n.
Proof.
  intros Hp He. unfold strip_non_digits, image_filename.
  rewrite chars_app, (chars_app "_"), chars_app, (chars_app ".").
  rewrite !filter_app, (no_digit_filter _ Hp), (no_digit_filter _ He).
  rewrite (filter_all _ (chars (padded_number zeros n))) by apply padded_number_digits.
  change (filter _ (chars "_")) with (@nil ascii).
  change (filter _ (chars ".")) with (@nil ascii).
  simpl. rewrite app_nil_r. apply of_chars_chars.
Qed.

(** X2: [ImageFile(directory, name)] for a name of the dataset,
    [<person>_<number>.<ext>], where the person holds neither a slash nor a
    digit and the extension neither a slash, an underscore nor a digit.  When
    the number is written (leading zeros included) with at most
    [int_max_str_digits] digits, the person is the part before the last
    underscore and the number is the one written in the name; when it is
    written with more digits, the constructor raises [ValueError]. *)
Theorem ImageFile_init_reads_person_and_number
    (id : nat) (directory person : string) (zeros : nat) (n : N) (ext : string) :
  no_char "/" person = true -> no_digit person = true ->
  no_char "/" ext = true -> no_char "_" ext = true -> no_digit ext = true ->
  let name := image_filename person zeros n ext in
  let digits := (zeros + String.length (py_str_of_int n))%nat in
  ((digits <= int_max_str_digits)%nat ->
   ImageFile_init id directory name
     = Ret {| oid := id; filepath := os_path_join directory name; filename := name;
              person := person; number := n |}) /\
  ((int_max_str_digits < digits)%nat ->
   ImageFile_init id directory name = Raise ValueError).
Proof.
  intros Hp1 Hp2 He1 He2 He3 name digits. subst name digits.
  unfold ImageFile_init, filepath_to_number.
  assert (Hrest : forall c, is_digit c = false -> (c =? ".")%char = false ->
            no_char c ext = true ->
            no_char c (padded_number zeros n +:+ "." +:+ ext) = true).
  { intros c Hc Hdot Hext. apply no_char_Forall.
    rewrite chars_app, (chars_app "."). apply Forall_app. split.
    - apply digits_no_char; [exact Hc|apply padded_number_digits].
    - apply Forall_app. split; [|apply no_char_Forall, Hext].
      repeat constructor. intros <-. rewrite Ascii.eqb_refl in Hdot. discriminate. }
  assert (Hname : no_char "/" (image_filename person zeros n ext) = true).
  { apply no_char_Forall. unfold image_filename.
    rewrite chars_app, (chars_app "_"). apply Forall_app. split.
    - apply no_char_Forall, Hp1.
    - apply Forall_app. split; [repeat constructor; discriminate|].
      apply no_char_Forall, Hrest; [reflexivity|reflexivity|exact He1]. }
  rewrite (os_path_basename_join _ _ Hname).
  rewrite (strip_non_digits_image_filename _ _ _ _ Hp2 He3).
  split; intros Hlen.
  - rewrite (py_int_padded_number _ _ Hlen). cbn [obind]. f_equal. f_equal.
    unfold image_filename.
    apply filepath_to_person_name_join; [exact Hp1| |];
      apply Hrest; try reflexivity; assumption.
  - rewrite py_int_too_long by (rewrite length_padded_number; exact Hlen).
    reflexivity.
Qed.

Lemma ImageFile_init_reads_person_and_number_witness :
  ImageFile_init 7 "lfw-gc/faces/" (image_filename "Arnold_Schwarzenegger" 2 1 "pgm")
    = Ret {| oid := 7;
             filepath := "lfw-gc/faces/Arnold_Schwarzenegger_001.pgm";
             filename := "Arnold_Schwarzenegger_001.pgm";
             person := "Arnold_Schwarzenegger"; number := 1 |}.
Proof.
  apply (proj1 (ImageFile_init_reads_person_and_number 7 "lfw-gc/faces/"
                  "Arnold_Schwarzenegger" 2 1 "pgm"
                  eq_refl eq_refl eq_refl eq_refl eq_refl)).
  apply Nat.leb_le. vm_compute. reflexivity.
Defined.

(** ** The matcher and the language of a regular expression *)

Lemma nullable_lang (r : regex) : nullable r = true <-> re_lang r [].
Proof.
  split.
  - induction r; simpl; intros Hn; try discriminate.
    + constructor.
    + apply andb_true_iff in Hn as [H1 H2].
      change (@nil ascii) with (@nil ascii ++ []). constructor; auto.
    + apply orb_true_iff in Hn as [H1|H2]; [apply lang_alt_l|apply lang_alt_r]; auto.
    + constructor.
  - intros Hl. remember [] as l eqn:Hnil.
    induction Hl; simpl; try reflexivity; try discriminate.
    + apply app_eq_nil in Hnil as [-> ->]. rewrite IHHl1, IHHl2; reflexivity.
    + rewrite IHHl by exact Hnil. reflexivity.
    + rewrite IHHl by exact Hnil. apply orb_true_r.
Qed.

Lemma deriv_sound (c : ascii) (r : regex) (l : list ascii) :
  re_lang (deriv c r) l -> re_lang r (c :: l).
Proof.
  revert l. induction r; simpl; intros l Hl.
  - inversion Hl.
  - inversion Hl.
  - destruct (p c) eqn:Hp; inversion Hl; subst. constructor. exact Hp.
  - destruct (nullable r1) eqn:Hn.
    + inversion Hl as [| | | ? ? ? Hcat | ? ? ? Hd2 | |]; subst.
      * inversion Hcat; subst. change (c :: l1 ++ l2) with ((c :: l1) ++ l2).
        constructor; auto.
      * change (c :: l) with ([] ++ c :: l). constructor; [|auto].
        apply nullable_lang, Hn.
    + inversion Hl; subst. change (c :: l1 ++ l2) with ((c :: l1) ++ l2).
      constructor; auto.
  - inversion Hl; subst; [apply lang_alt_l|apply lang_alt_r]; auto.
  - inversion Hl; subst. change (c :: l1 ++ l2) with ((c :: l1) ++ l2).
    constructor; auto.
Qed.

Lemma star_cons_inv (r : regex) (c : ascii) (l : list ascii) :
  re_lang (ReStar r) (c :: l) ->
  exists l1 l2, l = l1 ++ l2 /\ re_lang r (c :: l1) /\ re_lang (ReStar r) l2.
Proof.
  intros Hl. remember (ReStar r) as r' eqn:Hr. remember (c :: l) as cl eqn:Hcl.
  revert l Hcl. induction Hl; try discriminate; intros l0 Hcl.
  injection Hr as ->.
  destruct l1 as [|c1 l1].
  - simpl in Hcl. apply IHHl2; [reflexivity|exact Hcl].
  - injection Hcl as -> <-. exists l1, l2. auto.
Qed.

Lemma cat_cons_inv (r1 r2 : regex) (c : ascii) (l : list ascii) :
  re_lang (ReCat r1 r2) (c :: l) ->
  (re_lang r1 [] /\ re_lang r2 (c :: l)) \/
  exists l1 l2, l = l1 ++ l2 /\ re_lang r1 (c :: l1) /\ re_lang r2 l2.
Proof.
  intros Hl. remember (ReCat r1 r2) as r' eqn:Hr. remember (c :: l) as cl eqn:Hcl.
  destruct Hl; try discriminate. injection Hr as -> ->.
  destruct l1 as [|c1 l1].
  - simpl in Hcl. subst l2. left. auto.
  - injection Hcl as -> <-. right. exists l1, l2. auto.
Qed.

Lemma deriv_complete (c : ascii) (r : regex) (l : list ascii) :
  re_lang r (c :: l) -> re_lang (deriv c r) l.
Proof.
  revert l. induction r; simpl; intros l Hl.
  - inversion Hl.
  - inversion Hl.
  - inversion Hl as [|? ? Hp| | | | |]; subst. rewrite Hp. constructor.
  - apply cat_cons_inv in Hl as [[H1 H2]|(l1 & l2 & -> & H1 & H2)].
    + apply nullable_lang in H1. rewrite H1. apply lang_alt_r. auto.
    + destruct (nullable r1); [apply lang_alt_l|]; constructor; auto.
  - inversion Hl; subst; [apply lang_alt_l|apply lang_alt_r]; auto.
  - apply star_cons_inv in Hl as (l1 & l2 & -> & H1 & H2).
    constructor; auto.
Qed.

(** The matcher accepts exactly the strings of the expression. *)
Lemma matches_lang (r : regex) (l : list ascii) :
  matches r l = true <-> re_lang r l.
Proof.
  revert r. induction l as [|c l IH]; intros r; simpl.
  - apply nullable_lang.
  - rewrite IH. split; [apply deriv_sound|apply deriv_complete].
Qed.

Lemma lang_cat_iff (r1 r2 : regex) (l : list ascii) :
  re_lang (ReCat r1 r2) l <->
  exists l1 l2, l = l1 ++ l2 /\ re_lang r1 l1 /\ re_lang r2 l2.
Proof.
  split.
  - intros Hl. inversion Hl; subst. eauto.
  - intros (l1 & l2 & -> & H1 & H2). constructor; assumption.
Qed.

Lemma lang_alt_iff (r1 r2 : regex) (l : list ascii) :
  re_lang (ReAlt r1 r2) l <-> re_lang r1 l \/ re_lang r2 l.
Proof.
  split.
  - intros Hl. inversion Hl; subst; auto.
  - intros [H1|H2]; [apply lang_alt_l|apply lang_alt_r]; assumption.
Qed.

Lemma lang_eps_iff (l : list ascii) : re_lang ReEps l <-> l = [].
Proof. split; [intros Hl; inversion Hl; reflexivity|intros ->; constructor]. Qed.

Lemma lang_class_iff (p : ascii -> bool) (l : list ascii) :
  re_lang (ReClass p) l <-> exists c, l = [c] /\ p c = true.
Proof.
  split.
  - intros Hl. inversion Hl; subst. eauto.
  - intros (c & -> & Hc). constructor. exact Hc.
Qed.

Lemma lang_char_iff (c : ascii) (l : list ascii) : re_lang (re_char c) l <-> l = [c].
Proof.
  unfold re_char. rewrite lang_class_iff. split.
  - intros (x & -> & Hx). apply Ascii.eqb_eq in Hx. subst. reflexivity.
  - intros ->. exists c. split; [reflexivity|apply Ascii.eqb_refl].
Qed.

Lemma lang_star_class_iff (p : ascii -> bool) (l : list ascii) :
  re_lang (ReStar (ReClass p)) l <-> Forall (fun c => p c = true) l.
Proof.
  split.
  - intros Hl. remember (ReStar (ReClass p)) as r eqn:Hr.
    induction Hl; try discriminate; [constructor|].
    injection Hr as ->. apply Forall_app. split; [|auto].
    inversion Hl1; subst. repeat constructor. assumption.
  - induction 1 as [|c l Hc _ IH]; [constructor|].
    change (c :: l) with ([c] ++ l). constructor; [|exact IH].
    constructor. exact Hc.
Qed.

Lemma lang_plus_class_iff (p : ascii -> bool) (l : list ascii) :
  re_lang (re_plus (ReClass p)) l <-> l ≠ [] /\ Forall (fun c => p c = true) l.
Proof.
  unfold re_plus. rewrite lang_cat_iff. split.
  - intros (l1 & l2 & -> & H1 & H2).
    apply lang_class_iff in H1 as (c & -> & Hc).
    apply lang_star_class_iff in H2.
    split; [discriminate|]. constructor; assumption.
  - intros [Hne Hall]. destruct Hall as [|c l Hc Hl]; [congruence|].
    exists [c], l. split; [reflexivity|]. split.
    + constructor. exact Hc.
    + apply lang_star_class_iff, Hl.
Qed.

Lemma lang_lit_iff (s : string) (l : list ascii) : re_lang (re_lit s) l <-> l = chars s.
Proof.
  unfold re_lit. revert l. induction (chars s) as [|c cs IH]; intros l; simpl.
  - apply lang_eps_iff.
  - rewrite lang_cat_iff. split.
    + intros (l1 & l2 & -> & H1 & H2).
      apply lang_char_iff in H1. apply IH in H2. subst. reflexivity.
    + intros ->. exists [c], cs. split; [reflexivity|].
      split; [apply lang_char_iff; reflexivity|apply IH; reflexivity].
Qed.

Lemma lang_extensions (l : list ascii) :
  re_lang (ReAlt (re_lit "pgm") (ReAlt (re_lit "ppm") (ReAlt (re_lit "jpg")
            (ReAlt (re_lit "jpeg") (ReAlt (re_lit "png") (ReAlt (re_lit "bmp")
              (re_lit "tiff"))))))) l <->
  exists ext, ext ∈ image_extensions /\ l = chars ext.
Proof.
  rewrite !lang_alt_iff, !lang_lit_iff. unfold image_extensions. split.
  - intros [H|[H|[H|[H|[H|[H|H]]]]]]; eexists; (split; [|exact H]);
      repeat first [apply list_elem_of_here | apply list_elem_of_further].
  - intros (ext & Hin & ->).
    repeat (apply elem_of_cons in Hin as [->|Hin]; [tauto|]).
    apply elem_of_nil in Hin. contradiction.
Qed.

(** The language of the pattern of [get_image_files]. *)
Lemma image_name_lang (l : list ascii) :
  re_lang image_name_re l <->
  exists (pre digits : list ascii) (ext : string) (nl : list ascii),
    l = pre ++ "_"%char :: digits ++ "."%char :: chars ext ++ nl /\
    Forall (fun c => c ≠ newline) pre /\
    digits ≠ [] /\ Forall (fun c => is_digit c = true) digits /\
    ext ∈ image_extensions /\
    (nl = [] \/ nl = [newline]).
Proof.
  unfold image_name_re, image_name_body. split.
  - intros Hl.
    apply lang_cat_iff in Hl as (body & nl & Hname & Hbody & Hnl).
    apply lang_cat_iff in Hbody as (pre & l1 & -> & Hpre & Hbody).
    apply lang_cat_iff in Hbody as (u & l2 & -> & Hu & Hbody).
    apply lang_cat_iff in Hbody as (digits & l3 & -> & Hdigits & Hbody).
    apply lang_cat_iff in Hbody as (dot & l4 & -> & Hdot & Hext).
    apply lang_char_iff in Hu, Hdot. subst u dot.
    apply lang_plus_class_iff in Hdigits as [Hne Hdigits].
    apply lang_extensions in Hext as (ext & Hin & ->).
    apply lang_star_class_iff in Hpre.
    exists pre, digits, ext, nl. split.
    { rewrite Hname. simpl. rewrite <- !app_assoc. simpl.
      rewrite <- !app_assoc. reflexivity. }
    split.
    { eapply Forall_impl; [exact Hpre|]. intros c Hc ->.
      unfold newline in Hc. simpl in Hc. discriminate. }
    repeat split; try assumption.
    apply lang_alt_iff in Hnl as [Hnl|Hnl];
      [apply lang_eps_iff in Hnl|apply lang_char_iff in Hnl]; auto.
  - intros (pre & digits & ext & nl & Hname & Hpre & Hne & Hdigits & Hin & Hnl).
    rewrite Hname.
    replace (pre ++ "_"%char :: digits ++ "."%char :: chars ext ++ nl)
      with ((pre ++ ["_"%char] ++ digits ++ ["."%char] ++ chars ext) ++ nl)
      by (rewrite <- !app_assoc; reflexivity).
    constructor.
    + constructor.
      { apply lang_star_class_iff. eapply Forall_impl; [exact Hpre|].
        intros c Hc. apply negb_true_iff, Ascii.eqb_neq, Hc. }
      constructor; [apply lang_char_iff; reflexivity|].
      constructor; [apply lang_plus_class_iff; auto|].
      constructor; [apply lang_char_iff; reflexivity|].
      apply lang_extensions. eauto.
    + apply lang_alt_iff. destruct Hnl as [-> | ->];
        [left; apply lang_eps_iff|right; apply lang_char_iff]; reflexivity.
Qed.

(** X4: The names that the pattern of [get_image_files] picks are those that
    end in an underscore, one or more digits, a dot and one of the seven
    extensions (and may carry a final newline); what stands before that
    underscore holds no newline. *)
Theorem re_match_image_name_spec (name : string) :
  re_match_image_name name = true <->
  exists (pre digits : list ascii) (ext : string) (nl : list ascii),
    chars name = pre ++ "_"%char :: digits ++ "."%char :: chars ext ++ nl /\
    Forall (fun c => c ≠ newline) pre /\
    digits ≠ [] /\ Forall (fun c => is_digit c = true) digits /\
    ext ∈ image_extensions /\
    (nl = [] \/ nl = [newline]).
Proof.
  unfold re_match_image_name. rewrite matches_lang. apply image_name_lang.
Qed.

(** ** When [ImageFile] can be built *)

Lemma rfind_from_app_absent (i : Z) (l tail : list ascii) (c : ascii) (found : Z) :
  Forall (fun x => x ≠ c) tail ->
  rfind_from i (l ++ tail) c found = rfind_from i l c found.
Proof.
  intros Htail. revert i found. induction l as [|x l IH]; intros i found; simpl.
  - apply rfind_from_absent, Htail.
  - apply IH.
Qed.

Lemma rfind_from_range (i : Z) (l : list ascii) (c : ascii) (found : Z) :
  rfind_from i l c found = found \/
  i <= rfind_from i l c found < i + Z.of_nat (length l).
Proof.
  revert i found. induction l as [|x l IH]; intros i found; simpl; [auto|].
  destruct (IH (i + 1) (if Ascii.eqb x c then i else found)) as [-> | Hr].
  - destruct (Ascii.eqb x c); [right; lia|left; reflexivity].
  - right. lia.
Qed.

(** A tail without a slash is a tail of the base name. *)
Lemma os_path_basename_tail (fp : string) (l tail : list ascii) :
  chars fp = l ++ tail -> Forall (fun x => x ≠ "/"%char) tail ->
  exists l', chars (os_path_basename fp) = l' ++ tail.
Proof.
  intros Hfp Htail. unfold os_path_basename, py_slice_from, rfind.
  rewrite Hfp, rfind_from_app_absent by exact Htail.
  pose proof (rfind_from_range 0 l "/" (-1)) as Hr.
  set (r := rfind_from 0 l "/" (-1)) in *.
  replace (r + 1) with (Z.of_nat (Z.to_nat (r + 1))) by lia.
  rewrite length_chars, chars_py_slice; rewrite Hfp, ?length_app; [|lia].
  exists (drop (Z.to_nat (r + 1)) l).
  rewrite drop_app_le by lia.
  apply take_ge. rewrite length_app, length_drop. lia.
Qed.

Lemma os_path_join_tail (directory name : string) :
  exists l, chars (os_path_join directory name) = l ++ chars name.
Proof.
  unfold os_path_join. destruct (startswith name "/"); [exists []; reflexivity|].
  destruct (_ || _)%bool.
  - exists (chars directory). apply chars_app.
  - exists (chars directory ++ ["/"%char]).
    rewrite chars_app, (chars_app "/"), <- app_assoc. reflexivity.
Qed.

Lemma no_digit_false (s : string) :
  no_digit s = false <-> exists c, c ∈ chars s /\ is_digit c = true.
Proof.
  unfold no_digit. induction (chars s) as [|x l IH]; simpl.
  - split; [discriminate|]. intros (c & Hc & _). apply elem_of_nil in Hc. contradiction.
  - rewrite andb_false_iff, negb_false_iff, IH. split.
    + intros [Hx|(c & Hc & Hd)]; [exists x; split; [left|exact Hx]|].
      exists c. split; [right; exact Hc|exact Hd].
    + intros (c & Hc & Hd). apply elem_of_cons in Hc as [->|Hc]; eauto.
Qed.

Lemma strip_non_digits_digits (s : string) :
  Forall (fun c => is_digit c = true) (chars (strip_non_digits s)).
Proof.
  unfold strip_non_digits. rewrite chars_of_chars.
  apply Forall_forall. intros c Hc. apply list_elem_of_filter in Hc as [Hd _]. exact Hd.
Qed.

Lemma strip_non_digits_empty (s : string) :
  strip_non_digits s = ""%string <-> no_digit s = true.
Proof.
  unfold strip_non_digits, no_digit. induction (chars s) as [|x l IH]; simpl.
  - split; reflexivity.
  - rewrite filter_cons. case_decide as Hx.
    + rewrite Hx. simpl. split; discriminate.
    + apply not_true_is_false in Hx. rewrite Hx. exact IH.
Qed.

Lemma length_strip_non_digits (s : string) :
  (String.length (strip_non_digits s) <= String.length s)%nat.
Proof.
  unfold strip_non_digits. rewrite !length_chars, chars_of_chars.
  apply length_filter.
Qed.

(** [filepath_to_number] returns exactly when the base name has a digit, and
    no more digits than [int] converts. *)
Lemma filepath_to_number_cases (fp : string) :
  let base := os_path_basename fp in
  let digits := String.length (strip_non_digits base) in
  (no_digit base = true /\ filepath_to_number fp = Raise ValueError) \/
  (no_digit base = false /\ (digits <= int_max_str_digits)%nat /\
   exists n, filepath_to_number fp = Ret n) \/
  (no_digit base = false /\ (int_max_str_digits < digits)%nat /\
   filepath_to_number fp = Raise ValueError).
Proof.
  intros base digits. subst base digits. unfold filepath_to_number.
  destruct (no_digit (os_path_basename fp)) eqn:Hd.
  - left. split; [reflexivity|].
    apply strip_non_digits_empty in Hd. rewrite Hd. reflexivity.
  - right.
    destruct (Nat.le_gt_cases
                (String.length (strip_non_digits (os_path_basename fp)))
                int_max_str_digits) as [Hlen|Hlen].
    + left. split; [reflexivity|]. split; [exact Hlen|].
      apply py_int_digits; [|exact Hlen|apply strip_non_digits_digits].
      intros Hempty. apply strip_non_digits_empty in Hempty. congruence.
    + right. split; [reflexivity|]. split; [exact Hlen|].
      apply py_int_too_long, Hlen.
Qed.

(** The last slash of a list of characters, if it has one. *)
Lemma last_slash (l : list ascii) :
  Forall (fun x => x ≠ "/"%char) l \/
  exists l1 l2, l = l1 ++ "/"%char :: l2 /\ Forall (fun x => x ≠ "/"%char) l2.
Proof.
  induction l as [|c l IH]; [left; constructor|].
  destruct IH as [Hl|(l1 & l2 & -> & Hl2)].
  - destruct (ascii_dec c "/") as [->|Hc].
    + right. exists [], l. split; [reflexivity|exact Hl].
    + left. constructor; assumption.
  - right. exists (c :: l1), l2. split; [reflexivity|exact Hl2].
Qed.

(** [os.path.basename] gives what follows the last slash. *)
Lemma os_path_basename_chars (fp : string) (pre rest : list ascii) :
  chars fp = pre ++ rest -> Forall (fun x => x ≠ "/"%char) rest ->
  pre = [] \/ (exists l, pre = l ++ ["/"%char]) ->
  chars (os_path_basename fp) = rest.
Proof.
  intros Hfp Hrest Hpre. unfold os_path_basename, py_slice_from.
  rewrite (rfind_slash_prefix pre rest fp Hfp Hrest Hpre).
  rewrite length_chars, chars_py_slice; rewrite Hfp, ?length_app; [|lia].
  rewrite drop_app_length.
  rewrite take_ge; [reflexivity|lia].
Qed.

(** The base name of [os.path.join(directory, name)] is an end of [name]. *)
Lemma os_path_basename_join_length (directory name : string) :
  (String.length (os_path_basename (os_path_join directory name))
     <= String.length name)%nat.
Proof.
  destruct (last_slash (chars name)) as [Hname|(n1 & n2 & Hname & Hn2)].
  - apply no_char_Forall in Hname.
    rewrite (os_path_basename_join _ _ Hname). lia.
  - destruct (os_path_join_tail directory name) as (l & Hfp).
    rewrite (length_chars (os_path_basename _)).
    rewrite (os_path_basename_chars _ (l ++ n1 ++ ["/"%char]) n2).
    + rewrite (length_chars name), Hname, length_app. simpl. lia.
    + rewrite Hfp, Hname, <- !app_assoc. reflexivity.
    + exact Hn2.
    + right. exists (l ++ n1). rewrite app_assoc. reflexivity.
Qed.

(** The name of a file holds no more digits than [int] converts. *)
Lemma allowed_name_digits (directory name : string) :
  (String.length name <= name_max)%nat ->
  (String.length (strip_non_digits (os_path_basename (os_path_join directory name)))
     <= int_max_str_digits)%nat.
Proof.
  intros Hname.
  pose proof (length_strip_non_digits (os_path_basename (os_path_join directory name))).
  pose proof (os_path_basename_join_length directory name).
  assert (name_max <= int_max_str_digits)%nat
    by (apply Nat.leb_le; vm_compute; reflexivity).
  lia.
Qed.

(** A name that the pattern picks has a digit in its base name, whatever
    the directory. *)
Lemma matching_name_has_digit (directory name : string) :
  re_match_image_name name = true ->
  no_digit (os_path_basename (os_path_join directory name)) = false.
Proof.
  intros Hmatch. apply matches_lang, image_name_lang in Hmatch
    as (pre & digits & ext & nl & Hname & _ & Hne & Hdigits & Hin & Hnl).
  destruct (os_path_join_tail directory name) as (l & Hfp).
  destruct (os_path_basename_tail (os_path_join directory name)
              (l ++ pre) ("_"%char :: digits ++ "."%char :: chars ext ++ nl))
    as (l' & Hbase).
  { rewrite Hfp, Hname, <- app_assoc. reflexivity. }
  { constructor; [discriminate|]. apply Forall_app. split.
    - apply digits_no_char; [reflexivity|exact Hdigits].
    - constructor; [discriminate|]. apply Forall_app. split.
      + unfold image_extensions in Hin.
        repeat (apply elem_of_cons in Hin as [->|Hin];
                [repeat constructor; discriminate|]).
        apply elem_of_nil in Hin. contradiction.
      + destruct Hnl as [-> | ->]; repeat constructor. discriminate. }
  apply no_digit_false. destruct digits as [|c digits]; [congruence|].
  exists c. split; [|inversion Hdigits; assumption].
  rewrite Hbase. apply elem_of_app. right. right. left.
Qed.

(** X3: [ImageFile(directory, name)] fails, with a [ValueError] from [int],
    exactly when the base name of the path holds no decimal digit, or more
    digits than [int] converts ([int_max_str_digits]); every other name gives
    a record, also one without an underscore or an extension. A name that
    the pattern picks has a digit, and no name has more digits than
    characters. *)
Theorem ImageFile_init_fails_without_digit (id : nat) (directory name : string) :
  let base := os_path_basename (os_path_join directory name) in
  let digits := String.length (strip_non_digits base) in
  (no_digit base = true -> ImageFile_init id directory name = Raise ValueError) /\
  ((int_max_str_digits < digits)%nat ->
     ImageFile_init id directory name = Raise ValueError) /\
  (no_digit base = false -> (digits <= int_max_str_digits)%nat ->
     exists n, ImageFile_init id directory name
       = Ret {| oid := id; filepath := os_path_join directory name;
                filename := name;
                person := filepath_to_person_name (os_path_join directory name);
                number := n |}) /\
  (re_match_image_name name = true -> no_digit base = false) /\
  (digits <= String.length name)%nat.
Proof.
  intros base digits. subst base digits. unfold ImageFile_init.
  assert (Hmatch : re_match_image_name name = true ->
                   no_digit (os_path_basename (os_path_join directory name)) = false)
    by apply matching_name_has_digit.
  assert (Hdigits :
    (String.length (strip_non_digits (os_path_basename (os_path_join directory name)))
       <= String.length name)%nat).
  { pose proof (length_strip_non_digits
                  (os_path_basename (os_path_join directory name))).
    pose proof (os_path_basename_join_length directory name). lia. }
  destruct (filepath_to_number_cases (os_path_join directory name))
    as [[Hd Hn]|[(Hd & Hlen & n & Hn)|(Hd & Hlen & Hn)]]; rewrite Hn; cbn [obind].
  - split; [reflexivity|]. split; [reflexivity|].
    split; [congruence|]. split; assumption.
  - split; [congruence|]. split; [lia|].
    split; [eauto|]. split; assumption.
  - split; [reflexivity|]. split; [reflexivity|].
    split; [lia|]. split; assumption.
Qed.

Lemma ImageFile_init_fails_without_digit_witness :
  ImageFile_init 0 "faces" "notes.txt" = Raise ValueError /\
  exists n, ImageFile_init 0 "faces" "Alice0001.pgm"
    = Ret {| oid := 0; filepath := os_path_join "faces" "Alice0001.pgm";
             filename := "Alice0001.pgm";
             person := filepath_to_person_name (os_path_join "faces" "Alice0001.pgm");
             number := n |}.
Proof.
  split.
  - apply (proj1 (ImageFile_init_fails_without_digit 0 "faces" "notes.txt")).
    vm_compute. reflexivity.
  - apply (proj1 (proj2 (proj2
             (ImageFile_init_fails_without_digit 0 "faces" "Alice0001.pgm")))).
    + vm_compute. reflexivity.
    + apply Nat.leb_le. vm_compute. reflexivity.
Defined.

(** ** get_image_files *)

(** Every name of a file that the pattern picks gives a record. *)
Lemma ImageFile_init_matching (id : nat) (directory name : string) :
  (String.length name <= name_max)%nat ->
  re_match_image_name name = true ->
  exists n, ImageFile_init id directory name
    = Ret {| oid := id; filepath := os_path_join directory name;
             filename := name;
             person := filepath_to_person_name (os_path_join directory name);
             number := n |}.
Proof.
  intros Hname Hmatch. unfold ImageFile_init.
  pose proof (allowed_name_digits directory name Hname) as Hdigits.
  destruct (filepath_to_number_cases (os_path_join directory name))
    as [[Hd _]|[(_ & _ & n & Hn)|(_ & Hlen & _)]].
  - rewrite (matching_name_has_digit directory name Hmatch) in Hd. discriminate.
  - rewrite Hn. cbn [obind]. eauto.
  - lia.
Qed.

Lemma names_allowed_Forall (names : list string) :
  names_allowed names = true <->
  Forall (fun name => (String.length name <= name_max)%nat) names.
Proof.
  unfold names_allowed. rewrite forallb_forall, Forall_forall.
  split; intros Hall name Hin.
  - apply Nat.leb_le, Hall, list_elem_of_In, Hin.
  - apply Nat.leb_le, Hall, list_elem_of_In, Hin.
Qed.

Lemma scan_files_spec ex directory files images :
  names_allowed files = true ->
  exists new,
    scan_files ex directory files images = Ret (images ++ new) /\
    Forall2 built_from new (map (pair directory) (filter (fun n => kept_name ex n = true) files)) /\
    map oid new = seq (length images) (length new).
Proof.
  intros Hnames. apply names_allowed_Forall in Hnames.
  revert images. induction Hnames as [|name rest Hname _ IH]; intros images; simpl.
  - exists []. rewrite app_nil_r. repeat split. constructor.
  - rewrite filter_cons. case_decide as Hkept.
    + unfold kept_name in Hkept. apply andb_true_iff in Hkept as [Hmatch Hex].
      rewrite Hmatch, Hex.
      destruct (ImageFile_init_matching (length images) directory name Hname Hmatch)
        as (n & Hinit).
      rewrite Hinit. cbn [obind].
      match goal with |- context [images ++ [?i]] => set (img := i) in * end.
      destruct (IH (images ++ [img])) as (new & Hscan & Hbuilt & Hoid).
      exists (img :: new). rewrite Hscan, <- app_assoc. split; [reflexivity|].
      split; [constructor; [exact Hinit|exact Hbuilt]|].
      simpl. rewrite Hoid, length_app. simpl.
      replace (length images + 1)%nat with (S (length images)) by lia. reflexivity.
    + assert (Hskip : scan_files ex directory rest images
                      = (if re_match_image_name name
                         then if bool_decide (name ∉ ex)
                              then img <-? ImageFile_init (length images) directory name;
                                   scan_files ex directory rest (images ++ [img])
                              else scan_files ex directory rest images
                         else scan_files ex directory rest images)).
      { unfold kept_name in Hkept.
        destruct (re_match_image_name name); [|reflexivity].
        destruct (bool_decide (name ∉ ex)); [|reflexivity].
        destruct Hkept. reflexivity. }
      rewrite <- Hskip. apply IH.
Qed.

Lemma scan_walk_spec ex entries images :
  forallb (fun entry => names_allowed (snd entry)) entries = true ->
  exists new,
    scan_walk ex entries images = Ret (images ++ new) /\
    Forall2 built_from new
      (filter (fun f => kept_name ex (snd f) = true) (walk_files entries)) /\
    map oid new = seq (length images) (length new).
Proof.
  revert images. induction entries as [|[[directory dirs] files] rest IH];
    intros images Hnames; simpl.
  - exists []. rewrite app_nil_r. repeat split. constructor.
  - simpl in Hnames. apply andb_true_iff in Hnames as [Hfiles Hrest].
    destruct (scan_files_spec ex directory files images Hfiles)
      as (new1 & Hscan & Hb1 & Ho1).
    rewrite Hscan. cbn [obind].
    destruct (IH (images ++ new1) Hrest) as (new2 & Hwalk & Hb2 & Ho2).
    exists (new1 ++ new2). rewrite Hwalk, <- app_assoc. split; [reflexivity|].
    unfold walk_files in *. cbn [mbind list_bind fst snd]. fold (@mbind list _).
    split.
    + rewrite filter_app. apply Forall2_app; [|exact Hb2].
      clear -Hb1. revert new1 Hb1. induction files as [|n files IHf]; intros new1 Hb1.
      * exact Hb1.
      * cbn [mbind list_bind app]. rewrite filter_cons in Hb1. rewrite filter_cons.
        cbn [snd]. case_decide.
        -- destruct new1 as [|i new1]; inversion Hb1; subst.
           constructor; [assumption|]. apply IHf. assumption.
        -- apply IHf. exact Hb1.
    + rewrite map_app, Ho1, Ho2, !length_app, seq_app. reflexivity.
Qed.

Lemma insert_by_filename_Permutation x l : insert_by_filename x l ≡ₚ x :: l.
Proof.
  induction l as [|y l IH]; simpl; [reflexivity|].
  destruct (String.ltb _ _); [|reflexivity].
  rewrite IH. apply Permutation_swap.
Qed.

Lemma sorted_by_filename_Permutation l : sorted_by_filename l ≡ₚ l.
Proof.
  unfold sorted_by_filename. induction l as [|x l IH]; simpl; [reflexivity|].
  rewrite insert_by_filename_Permutation, IH. reflexivity.
Qed.

Lemma insert_by_filename_Sorted x l :
  Sorted filename_le l -> Sorted filename_le (insert_by_filename x l).
Proof.
  induction 1 as [|y l Hl IH Hhd]; simpl.
  - repeat constructor.
  - destruct (String.ltb (filename y) (filename x)) eqn:Hyx.
    + constructor; [exact IH|].
      destruct l as [|z l]; simpl.
      * constructor. unfold filename_le. apply ltb_asym, Hyx.
      * destruct (String.ltb (filename z) (filename x)).
        -- constructor. inversion Hhd; assumption.
        -- constructor. unfold filename_le. apply ltb_asym, Hyx.
    + constructor; [constructor; assumption|]. constructor. exact Hyx.
Qed.

Lemma sorted_by_filename_Sorted l : Sorted filename_le (sorted_by_filename l).
Proof.
  unfold sorted_by_filename. induction l as [|x l IH]; simpl; [constructor|].
  apply insert_by_filename_Sorted, IH.
Qed.

(** What [get_image_files] returns, in terms of the walk. *)
Lemma get_image_files_scan fs path excl :
  fs_isdir fs path = true ->
  exists scanned,
    get_image_files fs path excl = Ret (sorted_by_filename scanned) /\
    Forall2 built_from scanned
      (filter (fun f => kept_name (list_to_set (map filename excl)) (snd f) = true)
              (walk_files (fs_walk fs path))) /\
    map oid scanned = seq 0 (length scanned).
Proof.
  intros Hdir. unfold get_image_files. rewrite Hdir. simpl.
  destruct (scan_walk_spec (list_to_set (map filename excl)) (fs_walk fs path) []
              (fs_walk_names fs path))
    as (scanned & Hscan & Hbuilt & Hoid).
  exists scanned. simpl in Hscan. rewrite Hscan. auto.
Qed.

Lemma built_from_filenames scanned files :
  Forall2 built_from scanned files -> map filename scanned = map snd files.
Proof.
  induction 1 as [|img f scanned files Hb _ IH]; [reflexivity|].
  simpl. rewrite IH. f_equal.
  apply ImageFile_init_fields in Hb. tauto.
Qed.

Lemma built_from_elem scanned files img :
  Forall2 built_from scanned files -> img ∈ scanned ->
  exists f, f ∈ files /\ built_from img f.
Proof.
  induction 1 as [|i f scanned files Hb _ IH]; intros Hin.
  - apply elem_of_nil in Hin. contradiction.
  - apply elem_of_cons in Hin as [->|Hin].
    + exists f. split; [left|exact Hb].
    + destruct (IH Hin) as (f' & Hf' & Hb'). exists f'. split; [right|]; assumption.
Qed.

(** Everything the later proofs need to know about the returned images. *)
Lemma get_image_files_facts fs path excl images :
  get_image_files fs path excl = Ret images ->
  let ex : gset string := list_to_set (map filename excl) in
  let files := filter (fun f => kept_name ex (snd f) = true) (walk_files (fs_walk fs path)) in
  fs_isdir fs path = true /\
  map filename images ≡ₚ map snd files /\
  Sorted filename_le images /\
  NoDup (map oid images) /\
  (forall img, img ∈ images -> exists f, f ∈ files /\ built_from img f).
Proof.
  intros Hret ex files.
  destruct (fs_isdir fs path) eqn:Hdir.
  - destruct (get_image_files_scan fs path excl Hdir) as (scanned & Hget & Hbuilt & Hoid).
    rewrite Hget in Hret. injection Hret as <-.
    pose proof (sorted_by_filename_Permutation scanned) as Hperm.
    split; [reflexivity|]. split.
    { rewrite Hperm. rewrite (built_from_filenames _ _ Hbuilt). reflexivity. }
    split; [apply sorted_by_filename_Sorted|]. split.
    { rewrite Hperm, Hoid. apply NoDup_seq. }
    intros img Himg. rewrite Hperm in Himg.
    exact (built_from_elem _ _ _ Hbuilt Himg).
  - unfold get_image_files in Hret. rewrite Hdir in Hret. discriminate.
Qed.

(** X5: [get_image_files] raises its exception when the path is no directory.
    On a directory it returns, without raising, one record for each file of
    the walk whose name matches the pattern and is not the file name of an
    excluded image: the records are sorted by file name, they are distinct
    objects, and each holds the path of its file. *)
Theorem get_image_files_lists_kept_files fs path excl :
  let ex : gset string := list_to_set (map filename excl) in
  let files := filter (fun f => kept_name ex (snd f) = true) (walk_files (fs_walk fs path)) in
  (fs_isdir fs path = false ->
     get_image_files fs path excl = Raise (PyException (not_a_directory_msg path))) /\
  (fs_isdir fs path = true ->
     exists images,
       get_image_files fs path excl = Ret images /\
       map filename images ≡ₚ map snd files /\
       Sorted filename_le images /\
       NoDup (map oid images) /\
       forall img, img ∈ images ->
         (filename img ∉ map filename excl) /\
         re_match_image_name (filename img) = true /\
         exists directory,
           (directory, filename img) ∈ walk_files (fs_walk fs path) /\
           filepath img = os_path_join directory (filename img)).
Proof.
  intros ex files. split.
  - intros Hdir. unfold get_image_files. rewrite Hdir. reflexivity.
  - intros Hdir.
    destruct (get_image_files_scan fs path excl Hdir) as (scanned & Hget & _).
    exists (sorted_by_filename scanned). split; [exact Hget|].
    destruct (get_image_files_facts _ _ _ _ Hget) as (_ & Hperm & Hsorted & Hnd & Helem).
    repeat (split; [assumption|]).
    intros img Himg. destruct (Helem img Himg) as ([d n] & Hf & Hb).
    apply list_elem_of_filter in Hf as [Hkept Hf]. simpl in Hkept.
    apply ImageFile_init_fields in Hb as (_ & Hname & Hpath & _). simpl in Hname, Hpath.
    unfold kept_name in Hkept. apply andb_true_iff in Hkept as [Hmatch Hex].
    apply bool_decide_eq_true in Hex. rewrite Hname.
    split; [|split; [exact Hmatch|]].
    + intros Hin. apply Hex. apply elem_of_list_to_set. exact Hin.
    + exists d. rewrite <- Hname at 2. split; [exact Hf|].
      rewrite Hpath, Hname. reflexivity.
Qed.

Lemma get_image_files_lists_kept_files_witness :
  exists images,
    get_image_files mixed_fs "faces" [alice1_image] = Ret images /\
    map filename images ≡ₚ ["Bob_0001.pgm"; "Alice_0002.pgm"; "Carol_0001.jpeg"].
Proof.
  destruct (proj2 (get_image_files_lists_kept_files mixed_fs "faces" [alice1_image]) eq_refl)
    as (images & Hget & Hperm & _).
  exists images. split; [exact Hget|]. exact Hperm.
Defined.

(** ** The mapping from persons to images *)

Lemma dict_append_keys d k v :
  map fst (dict_append d k v) =
  if bool_decide (k ∈ map fst d) then map fst d else map fst d ++ [k].
Proof.
  induction d as [|[k0 vs] d IH]; simpl; [reflexivity|].
  destruct (String.eqb_spec k0 k) as [->|Hne]; simpl.
  - rewrite bool_decide_true by left. reflexivity.
  - rewrite IH. case_bool_decide as Hin.
    + rewrite bool_decide_true by (right; exact Hin). reflexivity.
    + rewrite bool_decide_false; [reflexivity|].
      intros Hin'. apply elem_of_cons in Hin' as [->|Hin']; [congruence|auto].
Qed.

Lemma dict_append_NoDup d k v : NoDup (map fst d) -> NoDup (map fst (dict_append d k v)).
Proof.
  intros Hd. rewrite dict_append_keys. case_bool_decide as Hin; [exact Hd|].
  apply NoDup_app. split; [exact Hd|]. split.
  - intros x Hx Hx'. apply list_elem_of_singleton in Hx'. subst. auto.
  - apply NoDup_singleton.
Qed.

Lemma dict_get_missing d k : k ∉ map fst d -> dict_get d k = [].
Proof.
  induction d as [|[k0 vs] d IH]; simpl; [reflexivity|]. intros Hk.
  destruct (String.eqb_spec k0 k) as [->|Hne].
  - destruct Hk. left.
  - apply IH. intros Hin. apply Hk. right. exact Hin.
Qed.

Lemma dict_get_entry d k vs :
  NoDup (map fst d) -> (k, vs) ∈ d -> dict_get d k = vs.
Proof.
  induction d as [|[k0 vs0] d IH]; simpl; intros Hnd Hin.
  - apply elem_of_nil in Hin. contradiction.
  - apply NoDup_cons in Hnd as [Hk0 Hnd].
    apply elem_of_cons in Hin as [[= <- <-]|Hin].
    + rewrite String.eqb_refl. reflexivity.
    + destruct (String.eqb_spec k0 k) as [->|Hne]; [|auto].
      destruct Hk0. apply list_elem_of_fmap. exists (k, vs). auto.
Qed.

(** The state of the mapping while the images are put into it. *)
Lemma foldl_dict_append d images :
  NoDup (map fst d) ->
  let d' := foldl (fun d image => dict_append d (person image) image) d images in
  NoDup (map fst d') /\
  (forall k, dict_get d' k = dict_get d k ++ filter (fun img => person img = k) images) /\
  (forall k, k ∈ map fst d' <-> k ∈ map fst d \/ exists img, img ∈ images /\ person img = k).
Proof.
  revert d. induction images as [|img images IH]; intros d Hd; simpl.
  - split; [exact Hd|]. split.
    + intros k. rewrite filter_nil, app_nil_r. reflexivity.
    + intros k. split; [auto|]. intros [Hk|(img & Himg & _)]; [exact Hk|].
      apply elem_of_nil in Himg. contradiction.
  - destruct (IH (dict_append d (person img) img) (dict_append_NoDup _ _ _ Hd))
      as (Hnd & Hget & Hkeys).
    split; [exact Hnd|]. split.
    + intros k. rewrite Hget, dict_get_append, filter_cons.
      destruct (String.eqb_spec (person img) k) as [->|Hne].
      * rewrite decide_True by reflexivity. rewrite <- app_assoc. reflexivity.
      * rewrite decide_False by exact Hne. reflexivity.
    + intros k. rewrite Hkeys, dict_append_keys. split.
      * intros [Hk|(i & Hi & Hp)].
        -- case_bool_decide; [auto|].
           apply elem_of_app in Hk as [Hk|Hk]; [auto|].
           apply list_elem_of_singleton in Hk. right. exists img. split; [left|auto].
        -- right. exists i. split; [right|]; assumption.
      * intros [Hk|(i & Hi & Hp)].
        -- left. case_bool_decide; [exact Hk|]. apply elem_of_app. auto.
        -- apply elem_of_cons in Hi as [->|Hi]; [|right; eauto].
           left. subst k. case_bool_decide; [assumption|].
           apply elem_of_app. right. left.
Qed.

Lemma group_by_person_get images k :
  dict_get (group_by_person images) k = filter (fun img => person img = k) images.
Proof.
  destruct (foldl_dict_append [] images (NoDup_nil_2)) as (_ & Hget & _).
  apply Hget.
Qed.

Lemma group_by_person_NoDup images : NoDup (all_names (group_by_person images)).
Proof. apply (foldl_dict_append [] images NoDup_nil_2). Qed.

Lemma group_by_person_names images k :
  k ∈ all_names (group_by_person images) <-> exists img, img ∈ images /\ person img = k.
Proof.
  destruct (foldl_dict_append [] images (NoDup_nil_2)) as (_ & _ & Hkeys).
  unfold all_names, group_by_person. rewrite Hkeys. split; [|auto].
  intros [Hk|Hk]; [|exact Hk]. apply elem_of_nil in Hk. contradiction.
Qed.

Lemma all_names_gte2_elem d k :
  NoDup (map fst d) ->
  k ∈ all_names_gte2 d <-> (2 <= length (dict_get d k))%nat.
Proof.
  intros Hd. unfold all_names_gte2. rewrite list_elem_of_fmap. split.
  - intros ([k' vs] & -> & Hin). apply list_elem_of_filter in Hin as [Hlen Hin].
    simpl in *. rewrite (dict_get_entry _ _ _ Hd Hin). exact Hlen.
  - intros Hlen.
    destruct (decide (k ∈ map fst d)) as [Hk|Hk].
    + apply list_elem_of_fmap in Hk as ([k' vs] & -> & Hin).
      exists (k', vs). split; [reflexivity|].
      apply list_elem_of_filter. split; [|exact Hin]. simpl in *.
      rewrite (dict_get_entry _ _ _ Hd Hin) in Hlen. exact Hlen.
    + rewrite (dict_get_missing _ _ Hk) in Hlen. simpl in Hlen. lia.
Qed.

(** X6: The mapping [images_by_person] and the two lists of names built from it:
    under each name stand the images of that person, in the order of the
    list of images; [names] lists every person once; [names_gte2] lists the
    persons with two or more images. *)
Theorem images_by_person_partitions_images (images : list ImageFile) :
  let d := group_by_person images in
  (forall k, dict_get d k = filter (fun img => person img = k) images) /\
  NoDup (all_names d) /\
  (forall k, k ∈ all_names d <-> exists img, img ∈ images /\ person img = k) /\
  (forall k, k ∈ all_names_gte2 d <->
             (2 <= length (filter (fun img => person img = k) images))%nat) /\
  (forall img, img ∈ images -> img ∈ dict_get d (person img)).
Proof.
  intros d. split; [apply group_by_person_get|].
  split; [apply group_by_person_NoDup|].
  split; [apply group_by_person_names|]. split.
  - intros k. unfold d.
    rewrite (all_names_gte2_elem _ _ (group_by_person_NoDup images)).
    rewrite group_by_person_get. reflexivity.
  - intros img Himg. unfold d. rewrite group_by_person_get.
    apply list_elem_of_filter. auto.
Qed.

(** ** The images of the returned pairs *)

Lemma positive_candidate_images d same_imgs p :
  p ∈ positive_candidates d same_imgs ->
  exists k, k ∈ all_names_gte2 d /\
    image1 p ∈ dict_get d k /\ image2 p ∈ dict_get d k /\
    (same_imgs = false -> oid (image1 p) ≠ oid (image2 p)) /\
    p = ImagePair_init (image1 p) (image2 p).
Proof.
  unfold positive_candidates. intros Hp.
  apply list_elem_of_bind in Hp as (k & Hp & Hk).
  apply list_elem_of_bind in Hp as (img1 & Hp & H1).
  apply list_elem_of_bind in Hp as (img2 & Hp & H2).
  apply list_elem_of_singleton in Hp. subst p. simpl.
  exists k. split; [exact Hk|]. split; [exact H1|].
  destruct same_imgs.
  - repeat split; [exact H2|discriminate].
  - apply list_elem_of_filter in H2 as [Hne H2]. repeat split; auto.
Qed.

Lemma negative_candidate_images d p :
  p ∈ negative_candidates d ->
  exists k1 k2, k1 ≠ k2 /\
    image1 p ∈ dict_get d k1 /\ image2 p ∈ dict_get d k2 /\
    p = ImagePair_init (image1 p) (image2 p).
Proof.
  unfold negative_candidates. intros Hp.
  apply list_elem_of_bind in Hp as (k1 & Hp & Hk1).
  apply list_elem_of_bind in Hp as (k2 & Hp & Hk2).
  apply list_elem_of_bind in Hp as (img1 & Hp & H1).
  apply list_elem_of_bind in Hp as (img2 & Hp & H2).
  apply list_elem_of_singleton in Hp. subst p. simpl.
  apply list_elem_of_filter in Hk2 as [Hne _].
  exists k1, k2. repeat split; auto.
Qed.

Lemma NoDup_fmap_eq {A B : Type} (f : A -> B) (l : list A) (x y : A) :
  NoDup (map f l) -> x ∈ l -> y ∈ l -> f x = f y -> x = y.
Proof.
  induction l as [|a l IH]; simpl; intros Hnd Hx Hy Heq.
  - apply elem_of_nil in Hx. contradiction.
  - apply NoDup_cons in Hnd as [Ha Hnd].
    apply elem_of_cons in Hx as [->|Hx]; apply elem_of_cons in Hy as [->|Hy].
    + reflexivity.
    + destruct Ha. rewrite Heq. apply list_elem_of_fmap. eauto.
    + destruct Ha. rewrite <- Heq. apply list_elem_of_fmap. eauto.
    + auto.
Qed.

Lemma NoDup_fmap_filter {A B : Type} (f : A -> B) (P : A -> Prop)
    `{forall x, Decision (P x)} (l : list A) :
  NoDup (map f l) -> NoDup (map f (filter P l)).
Proof.
  induction l as [|a l IH]; simpl; intros Hnd; [constructor|].
  apply NoDup_cons in Hnd as [Ha Hnd]. rewrite filter_cons.
  case_decide; [|auto]. simpl. apply NoDup_cons. split; [|auto].
  intros Hin. apply Ha. apply list_elem_of_fmap in Hin as (x & -> & Hx).
  apply list_elem_of_filter in Hx as [_ Hx]. apply list_elem_of_fmap. eauto.
Qed.

Lemma built_from_filepaths scanned files :
  Forall2 built_from scanned files ->
  map filepath scanned = map (fun f => os_path_join (fst f) (snd f)) files.
Proof.
  induction 1 as [|img f scanned files Hb _ IH]; [reflexivity|].
  simpl. rewrite IH. f_equal.
  apply ImageFile_init_fields in Hb. tauto.
Qed.

(** When the walk lists no path twice, no two images have the same path. *)
Lemma get_image_files_filepaths fs path excl images :
  get_image_files fs path excl = Ret images ->
  NoDup (walk_paths fs path) -> NoDup (map filepath images).
Proof.
  intros Hret Hnd.
  destruct (get_image_files_facts _ _ _ _ Hret) as (Hdir & _).
  destruct (get_image_files_scan fs path excl Hdir) as (scanned & Hget & Hbuilt & _).
  rewrite Hget in Hret. injection Hret as <-.
  rewrite sorted_by_filename_Permutation, (built_from_filepaths _ _ Hbuilt).
  apply NoDup_fmap_filter. exact Hnd.
Qed.

Section ReturnedImages.
Context {G : Type} `{RandomGen G}.

Lemma positive_loop_candidates d nb_max same_imgs io fuel st (g g' : G) st' :
  Forall (fun p => p ∈ positive_candidates d same_imgs \/ p ∈ negative_candidates d)
         (pairs st) ->
  positive_loop d nb_max same_imgs io fuel st g = (Ret st', g') ->
  Forall (fun p => p ∈ positive_candidates d same_imgs \/ p ∈ negative_candidates d)
         (pairs st').
Proof.
  intros Hst Hloop.
  refine (proj1 (positive_loop_inv d nb_max same_imgs io
    (fun s => Forall (fun p => p ∈ positive_candidates d same_imgs \/
                               p ∈ negative_candidates d) (pairs s))
    _ fuel st g g' st' Hst Hloop)).
  intros s g0 g0' s1 Hs _ Hstep.
  apply positive_step_spec in Hstep as (p & Hp & ->).
  case_bool_decide; [|exact Hs]. simpl.
  apply Forall_app. split; [exact Hs|].
  constructor; [left; exact Hp|constructor].
Qed.

Lemma negative_loop_candidates d nb_max same_imgs io fuel st (g g' : G) st' :
  Forall (fun p => p ∈ positive_candidates d same_imgs \/ p ∈ negative_candidates d)
         (pairs st) ->
  negative_loop d nb_max io fuel st g = (Ret st', g') ->
  Forall (fun p => p ∈ positive_candidates d same_imgs \/ p ∈ negative_candidates d)
         (pairs st').
Proof.
  intros Hst Hloop.
  refine (proj1 (negative_loop_inv d nb_max io
    (fun s => Forall (fun p => p ∈ positive_candidates d same_imgs \/
                               p ∈ negative_candidates d) (pairs s))
    _ fuel st g g' st' Hst Hloop)).
  intros s g0 g0' s1 Hs _ Hstep.
  apply negative_step_spec in Hstep as (p & Hp & ->).
  case_bool_decide; [|exact Hs]. simpl.
  apply Forall_app. split; [exact Hs|].
  constructor; [right; exact Hp|constructor].
Qed.

(** Every returned pair was built in one of the two loops. *)
Lemma returned_pairs_candidates fs fuel path nb_max same_imgs io excl seed (g g' : G) l :
  get_image_pairs fs fuel path nb_max same_imgs io excl seed g = (Ret l, g') ->
  exists images,
    get_image_files fs path (map image1 excl ++ map image2 excl) = Ret images /\
    forall p, p ∈ l ->
      p ∈ positive_candidates (group_by_person images) same_imgs \/
      p ∈ negative_candidates (group_by_person images).
Proof.
  intros Hcall.
  apply get_image_pairs_ret_inv in Hcall
    as (images & st1 & st2 & g0 & g1 & g2 & g3 & _ & Hfiles & _ & Hpos & Hneg & Hsh & _).
  exists images. split; [exact Hfiles|].
  apply positive_loop_candidates in Hpos; [|constructor].
  apply (negative_loop_candidates _ _ same_imgs) in Hneg; [|exact Hpos].
  apply shuffle_Permutation in Hsh.
  intros p Hp. rewrite Hsh in Hp.
  exact (proj1 (Forall_forall _ _) Hneg p Hp).
Qed.

Lemma returned_pairs_images
    fs fuel path nb_max same_imgs io excl seed (g g' : G) l :
  get_image_pairs fs fuel path nb_max same_imgs io excl seed g = (Ret l, g') ->
  exists images,
    get_image_files fs path (map image1 excl ++ map image2 excl) = Ret images /\
    forall p, p ∈ l ->
      image1 p ∈ images /\ image2 p ∈ images /\
      p = ImagePair_init (image1 p) (image2 p) /\
      (forall q img, q ∈ excl -> img = image1 p \/ img = image2 p ->
         filename img ≠ filename (image1 q) /\ filename img ≠ filename (image2 q)) /\
      (same_imgs = false -> oid (image1 p) ≠ oid (image2 p)).
Proof.
  intros Hcall.
  destruct (returned_pairs_candidates _ _ _ _ _ _ _ _ _ _ _ Hcall)
    as (images & Hfiles & Hcand).
  exists images. split; [exact Hfiles|]. intros p Hp.
  pose proof (group_by_person_get images) as Hget.
  destruct (get_image_files_facts _ _ _ _ Hfiles) as (_ & _ & _ & Hoid & Hbuilt).
  assert (Himgs : image1 p ∈ images /\ image2 p ∈ images /\
                  p = ImagePair_init (image1 p) (image2 p) /\
                  (same_imgs = false -> oid (image1 p) ≠ oid (image2 p))).
  { destruct (Hcand p Hp) as [Hpos|Hneg].
    - apply positive_candidate_images in Hpos as (k & _ & H1 & H2 & Hne & Heq).
      rewrite Hget in H1, H2.
      apply list_elem_of_filter in H1 as [_ H1], H2 as [_ H2]. auto.
    - apply negative_candidate_images in Hneg as (k1 & k2 & Hne & H1 & H2 & Heq).
      rewrite Hget in H1, H2.
      apply list_elem_of_filter in H1 as [Hp1 H1], H2 as [Hp2 H2].
      repeat split; try assumption.
      intros _ Hsame. apply Hne.
      rewrite <- Hp1, <- Hp2.
      rewrite (NoDup_fmap_eq oid images _ _ Hoid H1 H2 Hsame). reflexivity. }
  destruct Himgs as (H1 & H2 & Heq & Hne).
  split; [exact H1|]. split; [exact H2|]. split; [exact Heq|]. split; [|exact Hne].
  intros q img Hq Himg.
  assert (Hin : img ∈ images) by (destruct Himg as [-> | ->]; assumption).
  destruct (Hbuilt _ Hin) as (f & Hf & Hb).
  apply list_elem_of_filter in Hf as [Hkept _].
  apply ImageFile_init_fields in Hb as (_ & Hname & _).
  unfold kept_name in Hkept. apply andb_true_iff in Hkept as [_ Hex].
  apply bool_decide_eq_true in Hex. rewrite <- Hname in Hex.
  split; intros Hsame; apply Hex; apply elem_of_list_to_set;
    rewrite Hsame, map_app; apply elem_of_app; [left|right];
    apply list_elem_of_fmap; eexists; (split; [reflexivity|]);
    apply list_elem_of_fmap; eauto.
Qed.

(** X7: The pairs that [get_image_pairs] returns are made of images that
    [get_image_files] listed, with the flags that [ImagePair] computes, and
    no image of a returned pair has the file name of an image of an excluded
    pair. *)
Theorem returned_pairs_use_listed_images
    fs fuel path nb_max same_imgs io excl seed (g g' : G) l :
  get_image_pairs fs fuel path nb_max same_imgs io excl seed g = (Ret l, g') ->
  exists images,
    get_image_files fs path (map image1 excl ++ map image2 excl) = Ret images /\
    forall p, p ∈ l ->
      image1 p ∈ images /\ image2 p ∈ images /\
      same_person p = String.eqb (person (image1 p)) (person (image2 p)) /\
      same_image p = String.eqb (filepath (image1 p)) (filepath (image2 p)) /\
      (forall q img, q ∈ excl -> img = image1 p \/ img = image2 p ->
         filename img ≠ filename (image1 q) /\ filename img ≠ filename (image2 q)).
Proof.
  intros Hcall.
  destruct (returned_pairs_images _ _ _ _ _ _ _ _ _ _ _ Hcall) as (images & Hfiles & Hl).
  exists images. split; [exact Hfiles|]. intros p Hp.
  destruct (Hl p Hp) as (H1 & H2 & Heq & Hex & _).
  split; [exact H1|]. split; [exact H2|].
  split; [rewrite Heq at 1; reflexivity|].
  split; [rewrite Heq at 1; reflexivity|exact Hex].
Qed.

(** X8: Without [pairs_of_same_imgs], the two images of every returned pair are
    two objects; when the walk lists no path twice, their paths differ and
    [same_image] is false. *)
Theorem returned_pairs_hold_two_images
    fs fuel path nb_max io excl seed (g g' : G) l :
  get_image_pairs fs fuel path nb_max false io excl seed g = (Ret l, g') ->
  forall p, p ∈ l ->
    oid (image1 p) ≠ oid (image2 p) /\
    (NoDup (walk_paths fs path) ->
     filepath (image1 p) ≠ filepath (image2 p) /\ same_image p = false).
Proof.
  intros Hcall p Hp.
  destruct (returned_pairs_images _ _ _ _ _ _ _ _ _ _ _ Hcall) as (images & Hfiles & Hl).
  destruct (Hl p Hp) as (H1 & H2 & Heq & _ & Hoid).
  specialize (Hoid eq_refl). split; [exact Hoid|].
  intros Hwalk.
  pose proof (get_image_files_filepaths _ _ _ _ Hfiles Hwalk) as Hpaths.
  assert (Hne : filepath (image1 p) ≠ filepath (image2 p)).
  { intros Hsame. apply Hoid.
    rewrite (NoDup_fmap_eq filepath images _ _ Hpaths H1 H2 Hsame). reflexivity. }
  split; [exact Hne|]. rewrite Heq. simpl. apply String.eqb_neq, Hne.
Qed.
End ReturnedImages.

Lemma returned_pairs_use_listed_images_witness :
  get_image_pairs mixed_fs 10 "faces" 1 false true
      [ImagePair_init alice1_image bob1_image] None [0; 0; 0; 0]%nat
    = (Ret excluding_example_pairs, []) /\
  exists images,
    get_image_files mixed_fs "faces" [alice1_image; bob1_image] = Ret images /\
    forall p, p ∈ excluding_example_pairs ->
      image1 p ∈ images /\ image2 p ∈ images /\
      same_person p = String.eqb (person (image1 p)) (person (image2 p)) /\
      same_image p = String.eqb (filepath (image1 p)) (filepath (image2 p)) /\
      (forall q img, q ∈ [ImagePair_init alice1_image bob1_image] ->
         img = image1 p \/ img = image2 p ->
         filename img ≠ filename (image1 q) /\ filename img ≠ filename (image2 q)).
Proof.
  assert (Hrun : get_image_pairs mixed_fs 10 "faces" 1 false true
      [ImagePair_init alice1_image bob1_image] None [0; 0; 0; 0]%nat
    = (Ret excluding_example_pairs, [])) by (vm_compute; reflexivity).
  split; [exact Hrun|].
  exact (returned_pairs_use_listed_images _ _ _ _ _ _ _ _ _ _ _ Hrun).
Defined.

Lemma returned_pairs_hold_two_images_witness :
  NoDup (walk_paths alice_bob_fs "faces") /\
  forall p, p ∈ example_pairs ->
    oid (image1 p) ≠ oid (image2 p) /\
    filepath (image1 p) ≠ filepath (image2 p) /\ same_image p = false.
Proof.
  assert (Hrun : get_image_pairs alice_bob_fs 10 "faces" 2 false true [] None example_draws
    = (Ret example_pairs, [6; 7]%nat)) by (vm_compute; reflexivity).
  assert (Hwalk : NoDup (walk_paths alice_bob_fs "faces"))
    by (apply (bool_decide_unpack _); vm_compute; exact I).
  split; [exact Hwalk|]. intros p Hp.
  destruct (returned_pairs_hold_two_images _ _ _ _ _ _ _ _ _ _ Hrun p Hp) as [Hoid Hpath].
  split; [exact Hoid|exact (Hpath Hwalk)].
Defined.

(** ** Calls that raise nothing *)

Lemma NoDup_oid_other (l : list ImageFile) (img : ImageFile) :
  NoDup (map oid l) -> (2 <= length l)%nat ->
  filter (fun image => oid image ≠ oid img) l ≠ [].
Proof.
  destruct l as [|a [|b l]]; simpl; intros Hnd Hlen; [lia..|].
  apply NoDup_cons in Hnd as [Hab _].
  rewrite !filter_cons.
  destruct (decide (oid a ≠ oid img)); [discriminate|].
  destruct (decide (oid b ≠ oid img)) as [|Hb]; [discriminate|].
  exfalso. apply Hab. apply dec_stable in n. apply dec_stable in Hb.
  replace (oid a) with (oid b) by congruence. left.
Qed.

Lemma NoDup_other (l : list string) (x : string) :
  NoDup l -> (2 <= length l)%nat -> filter (fun y => y ≠ x) l ≠ [].
Proof.
  destruct l as [|a [|b l]]; simpl; intros Hnd Hlen; [lia..|].
  apply NoDup_cons in Hnd as [Hab _].
  rewrite !filter_cons.
  destruct (decide (a ≠ x)); [discriminate|].
  destruct (decide (b ≠ x)) as [|Hb]; [discriminate|].
  exfalso. apply Hab. apply dec_stable in n. apply dec_stable in Hb.
  replace a with b by congruence. left.
Qed.

Section Lawful.
Context {G : Type} `{RandomGen G} `{!RandomGenLawful G}.

Lemma choice_lawful {A : Type} (seq : list A) (g : G) :
  seq ≠ [] -> exists x g', choice seq g = (Ret x, g') /\ x ∈ seq.
Proof.
  intros Hne. unfold choice. destruct seq as [|a seq]; [congruence|].
  pose proof (randbelow_lt (length (a :: seq)) g ltac:(simpl; lia)) as Hlt.
  destruct (randbelow (length (a :: seq)) g) as [i g1]. simpl in Hlt.
  destruct (lookup_lt_is_Some_2 (a :: seq) i Hlt) as (x & Hx).
  rewrite Hx. exists x, g1. split; [reflexivity|].
  eapply list_elem_of_lookup_2. exact Hx.
Qed.

Lemma positive_step_lawful images same_imgs io st (g : G) :
  NoDup (map oid images) ->
  all_names_gte2 (group_by_person images) ≠ [] ->
  exists st' g', positive_step (group_by_person images) same_imgs io st g = (Ret st', g').
Proof.
  intros Hoid Hpool. unfold positive_step.
  destruct (choice_lawful _ g Hpool) as (k & g1 & Hk & Hin). rewrite (gen_bind_ret _ _ _ _ _ Hk).
  apply (all_names_gte2_elem _ _ (group_by_person_NoDup images)) in Hin.
  assert (Hnd : NoDup (map oid (dict_get (group_by_person images) k))).
  { rewrite group_by_person_get. apply NoDup_fmap_filter. exact Hoid. }
  destruct (choice_lawful (dict_get (group_by_person images) k) g1) as (img1 & g2 & H1 & _).
  { intros Hnil. rewrite Hnil in Hin. simpl in Hin. lia. }
  rewrite (gen_bind_ret _ _ _ _ _ H1).
  assert (exists img2 g3,
    (if same_imgs then choice (dict_get (group_by_person images) k)
     else choice (filter (fun image => oid image ≠ oid img1)
                         (dict_get (group_by_person images) k))) g2 = (Ret img2, g3))
    as (img2 & g3 & H2).
  { destruct same_imgs.
    - destruct (choice_lawful (dict_get (group_by_person images) k) g2) as (x & g3 & Hx & _);
        [|eauto]. intros Hnil. rewrite Hnil in Hin. simpl in Hin. lia.
    - destruct (choice_lawful (filter (fun image => oid image ≠ oid img1)
                                 (dict_get (group_by_person images) k)) g2)
        as (x & g3 & Hx & _); [|eauto].
      apply NoDup_oid_other; assumption. }
  rewrite (gen_bind_ret _ _ _ _ _ H2).
  case_bool_decide; eauto.
Qed.

Lemma negative_step_lawful images io st (g : G) :
  (2 <= length (all_names (group_by_person images)))%nat ->
  exists st' g', negative_step (group_by_person images) io st g = (Ret st', g').
Proof.
  intros Hlen. unfold negative_step.
  pose proof (group_by_person_NoDup images) as Hnd.
  destruct (choice_lawful (all_names (group_by_person images)) g) as (k1 & g1 & Hk1 & Hin1).
  { intros Hnil. rewrite Hnil in Hlen. simpl in Hlen. lia. }
  rewrite (gen_bind_ret _ _ _ _ _ Hk1).
  destruct (choice_lawful (filter (fun person => person ≠ k1)
                             (all_names (group_by_person images))) g1)
    as (k2 & g2 & Hk2 & Hin2); [apply NoDup_other; assumption|].
  rewrite (gen_bind_ret _ _ _ _ _ Hk2).
  apply list_elem_of_filter in Hin2 as [_ Hin2].
  assert (Hget : forall k, k ∈ all_names (group_by_person images) ->
                           dict_get (group_by_person images) k ≠ []).
  { intros k Hk. apply group_by_person_names in Hk as (img & Himg & Hp).
    rewrite group_by_person_get. intros Hnil.
    assert (Hin : img ∈ filter (fun i => person i = k) images)
      by (apply list_elem_of_filter; auto).
    rewrite Hnil in Hin. apply elem_of_nil in Hin. exact Hin. }
  destruct (choice_lawful _ g2 (Hget k1 Hin1)) as (img1 & g3 & H1 & _).
  rewrite (gen_bind_ret _ _ _ _ _ H1).
  destruct (choice_lawful _ g3 (Hget k2 Hin2)) as (img2 & g4 & H2 & _).
  rewrite (gen_bind_ret _ _ _ _ _ H2).
  case_bool_decide; eauto.
Qed.

Lemma positive_loop_lawful images nb_max same_imgs io fuel st (g : G) :
  NoDup (map oid images) ->
  (Z.of_nat (nb_added st) < nb_max / 2 -> all_names_gte2 (group_by_person images) ≠ []) ->
  no_exception (fst (positive_loop (group_by_person images) nb_max same_imgs io fuel st g)).
Proof.
  intros Hoid. revert st g. induction fuel as [|fuel IH]; intros st g Hpool; simpl.
  - destruct (_ <? _); exact I.
  - destruct (Z.ltb_spec (Z.of_nat (nb_added st)) (nb_max / 2)) as [Hlt|]; [|exact I].
    destruct (positive_step_lawful images same_imgs io st g Hoid (Hpool Hlt))
      as (st' & g' & Hstep).
    rewrite (gen_bind_ret _ _ _ _ _ Hstep). apply IH. intros _. exact (Hpool Hlt).
Qed.

Lemma negative_loop_lawful images nb_max io fuel st (g : G) :
  (Z.of_nat (nb_added st) < nb_max -> (2 <= length (all_names (group_by_person images)))%nat) ->
  no_exception (fst (negative_loop (group_by_person images) nb_max io fuel st g)).
Proof.
  revert st g. induction fuel as [|fuel IH]; intros st g Hpool; simpl.
  - destruct (_ <? _); exact I.
  - destruct (Z.ltb_spec (Z.of_nat (nb_added st)) nb_max) as [Hlt|]; [|exact I].
    destruct (negative_step_lawful images io st g (Hpool Hlt)) as (st' & g' & Hstep).
    rewrite (gen_bind_ret _ _ _ _ _ Hstep). apply IH. intros _. exact (Hpool Hlt).
Qed.

Lemma swap_length {A : Type} (x x' : list A) i j :
  swap x i j = Ret x' -> length x' = length x.
Proof.
  unfold swap. destruct (x !! i), (x !! j); try discriminate.
  intros [= <-]. rewrite !length_insert. reflexivity.
Qed.

Lemma shuffle_down_lawful {A : Type} i (x : list A) (g : G) :
  (i < length x)%nat -> exists l g', shuffle_down i x g = (Ret l, g').
Proof.
  revert x g. induction i as [|i IH]; intros x g Hi; cbn [shuffle_down];
    [unfold gen_ret; eauto|].
  pose proof (randbelow_lt (S i + 1) g ltac:(lia)) as Hj.
  destruct (randbelow (S i + 1) g) as [j g1]. cbn [fst] in Hj.
  destruct (lookup_lt_is_Some_2 x (S i) Hi) as (xi & Hxi).
  destruct (lookup_lt_is_Some_2 x j ltac:(lia)) as (xj & Hxj).
  assert (Hswap : swap x (S i) j = Ret (<[j := xi]> (<[S i := xj]> x)))
    by (unfold swap; rewrite Hxi, Hxj; reflexivity).
  unfold gen_bind, gen_lift. rewrite Hswap.
  apply IH. rewrite !length_insert. lia.
Qed.

Lemma shuffle_lawful {A : Type} (x : list A) (g : G) :
  exists l g', shuffle x g = (Ret l, g').
Proof.
  unfold shuffle. destruct x as [|a x]; [simpl; eauto|].
  apply shuffle_down_lawful. simpl. lia.
Qed.

(** X9: When every draw of the generator stays below its bound, a call on a
    directory raises nothing, provided the pools the loops draw from are
    not empty: two persons when a pair is asked for ([nb_max >= 1]), one of
    them with two images when a same-person pair is asked for
    ([nb_max >= 2]). The call returns, or it goes on drawing. *)
Theorem get_image_pairs_raises_nothing
    fs fuel path nb_max same_imgs io excl seed (g : G) images :
  get_image_files fs path (map image1 excl ++ map image2 excl) = Ret images ->
  (1 <= nb_max -> (2 <= length (all_names (group_by_person images)))%nat) ->
  (2 <= nb_max -> all_names_gte2 (group_by_person images) ≠ []) ->
  no_exception (fst (get_image_pairs fs fuel path nb_max same_imgs io excl seed g)).
Proof.
  intros Hfiles Hnames Hgte2.
  destruct (get_image_files_facts _ _ _ _ Hfiles) as (_ & _ & _ & Hoid & _).
  assert (Hbody : forall g0 : G,
    no_exception (fst (get_image_pairs_body fs fuel path nb_max same_imgs io excl g0))).
  { intros g0. rewrite (get_image_pairs_body_files _ _ _ _ _ _ _ _ _ Hfiles).
    unfold sample_pairs.
    assert (Hpool1 : Z.of_nat (nb_added sampler_init) < nb_max / 2 ->
                     all_names_gte2 (group_by_person images) ≠ []).
    { simpl. intros Hlt. apply Hgte2.
      destruct (Z.le_gt_cases 2 nb_max) as [|Hsmall]; [assumption|].
      assert (nb_max / 2 < 1) by (apply Z.div_lt_upper_bound; lia). lia. }
    pose proof (positive_loop_lawful images nb_max same_imgs io fuel sampler_init g0
                  Hoid Hpool1) as Hpos.
    unfold gen_bind at 1.
    destruct (positive_loop _ _ _ _ _ _ g0) as [[st1|e|] g1] eqn:Hloop1;
      [|destruct Hpos|exact I].
    pose proof (negative_loop_lawful images nb_max io fuel st1 g1) as Hneg.
    unfold gen_bind at 1.
    destruct (negative_loop _ _ _ _ _ g1) as [[st2|e|] g2] eqn:Hloop2;
      [|apply Hneg; intros; apply Hnames; lia|exact I].
    destruct (shuffle_lawful (pairs st2) g2) as (l & g3 & Hsh). rewrite Hsh. exact I. }
  unfold get_image_pairs.
  match goal with |- context [get_image_pairs_body ?a ?b ?c ?d ?e ?f ?h ?g0] =>
    specialize (Hbody g0);
    destruct (get_image_pairs_body a b c d e f h g0) as [[l|e0|] g1] end;
    simpl in *; [exact I|exact Hbody|exact I].
Qed.
End Lawful.

#[export] Instance replay_gen_lawful : RandomGenLawful (list nat).
Proof.
  intros n [|r g] Hn; simpl; [exact Hn|].
  apply Nat.mod_upper_bound. lia.
Qed.

Lemma get_image_pairs_raises_nothing_witness :
  no_exception
    (fst (get_image_pairs alice_bob_fs 10 "faces" 2 false true [] None example_draws)).
Proof.
  apply (get_image_pairs_raises_nothing alice_bob_fs 10 "faces" 2 false true [] None
           example_draws alice_bob_images).
  - vm_compute. reflexivity.
  - intros _. vm_compute. lia.
  - intros _. vm_compute. discriminate.
Defined.

(** ** image_pairs_to_xy *)

(** The shape that [get_contents] gives one image: the one asked for when
    the picture has it already, the transposed one after [cv2.resize]. *)
Lemma resize_if_needed_shape fs img squeeze_color (height width : nat) :
  readable fs img = true -> (2 <= height)%nat -> (2 <= width)%nat ->
  exists s,
    get_content fs img = Ret s /\
    resize_if_needed squeeze_color s height width
      = Ret (if has_size fs height width img then [height; width; 1%nat]
             else [width; height; 1%nat]).
Proof.
  unfold readable, has_size, get_content. intros Hread Hh Hw.
  destruct (fs_imread fs (filepath img)) as [[h0 w0]|]; [|discriminate].
  exists [h0; w0; 1%nat]. split; [reflexivity|].
  unfold resize_if_needed. simpl.
  destruct (Nat.eqb_spec h0 height) as [->|Hne1]; simpl.
  - destruct (Nat.eqb_spec w0 width) as [->|Hne2].
    + rewrite bool_decide_false by (intros [?|?]; congruence). reflexivity.
    + rewrite bool_decide_true by (right; congruence).
      destruct (Nat.eqb_spec height 0); [lia|]. destruct (Nat.eqb_spec width 0); [lia|].
      simpl. unfold np_squeeze, shape. rewrite !filter_cons, filter_nil.
      rewrite !decide_True by lia. reflexivity.
  - rewrite bool_decide_true by (left; congruence).
    destruct (Nat.eqb_spec height 0); [lia|]. destruct (Nat.eqb_spec width 0); [lia|].
    simpl. unfold np_squeeze, shape. rewrite !filter_cons, filter_nil.
    rewrite !decide_True by lia. reflexivity.
Qed.

Lemma get_contents_shape fs p (height width : nat) :
  readable fs (image1 p) = true -> readable fs (image2 p) = true ->
  (2 <= height)%nat -> (2 <= width)%nat ->
  get_contents fs p height width =
    if bool_decide (height = width \/
                    (has_size fs height width (image1 p) = true /\
                     has_size fs height width (image2 p) = true))
    then Ret [2%nat; height; width; 1%nat]
    else if bool_decide (has_size fs height width (image1 p)
                         = has_size fs height width (image2 p))
         then Ret [2%nat; width; height; 1%nat]
         else Raise ValueError.
Proof.
  intros Hr1 Hr2 Hh Hw. unfold get_contents.
  destruct (resize_if_needed_shape fs (image1 p) false height width Hr1 Hh Hw)
    as (s1 & Hc1 & Hs1).
  destruct (resize_if_needed_shape fs (image2 p) true height width Hr2 Hh Hw)
    as (s2 & Hc2 & Hs2).
  rewrite Hc1, Hc2. cbn [obind]. rewrite Hs1, Hs2. cbn [obind]. unfold np_array2.
  destruct (decide (height = width)) as [->|Hne].
  - rewrite (bool_decide_true (_ \/ _)) by (left; reflexivity).
    destruct (has_size _ _ _ (image1 p)), (has_size _ _ _ (image2 p));
      rewrite bool_decide_true by reflexivity; reflexivity.
  - destruct (has_size _ _ _ (image1 p)), (has_size _ _ _ (image2 p)).
    + rewrite bool_decide_true by reflexivity.
      rewrite bool_decide_true by (right; auto). reflexivity.
    + rewrite bool_decide_false by congruence.
      rewrite bool_decide_false by (intros [?|[_ ?]]; congruence).
      rewrite bool_decide_false by congruence. reflexivity.
    + rewrite bool_decide_false by congruence.
      rewrite bool_decide_false by (intros [?|[? _]]; congruence).
      rewrite bool_decide_false by congruence. reflexivity.
    + rewrite bool_decide_true by reflexivity.
      rewrite bool_decide_false by (intros [?|[? _]]; congruence).
      rewrite bool_decide_true by reflexivity. reflexivity.
Qed.

Lemma broadcastable_transposed (height width : nat) :
  (2 <= height)%nat -> height ≠ width ->
  broadcastable [2%nat; width; height; 1%nat] [2%nat; height; width; 1%nat] = false.
Proof.
  intros Hh Hne. unfold broadcastable. simpl.
  destruct (Nat.eqb_spec height width); [congruence|].
  destruct (Nat.eqb_spec height 1); [lia|]. reflexivity.
Qed.

Lemma broadcastable_refl (s : shape) : broadcastable s s = true.
Proof.
  unfold broadcastable. induction (rev s) as [|a l IH]; simpl; [reflexivity|].
  rewrite Nat.eqb_refl, IH. reflexivity.
Qed.

(** The labels and the shape of what [image_pairs_to_xy] returns. *)
Lemma fill_xy_ret fs image_pairs height width y :
  fill_xy fs image_pairs height width = Ret y -> y = labels image_pairs.
Proof.
  revert y. induction image_pairs as [|p rest IH]; intros y; simpl.
  - intros [= <-]. reflexivity.
  - destruct (get_contents fs p height width) as [c| |]; simpl; [|discriminate..].
    destruct (broadcastable c _); [|discriminate].
    destruct (fill_xy fs rest height width) as [y'| |]; simpl; [|discriminate..].
    intros [= <-]. rewrite (IH y' eq_refl). reflexivity.
Qed.

Lemma fill_xy_exact fs image_pairs (height width : nat) :
  Forall (fun img => readable fs img = true) (images_of image_pairs) ->
  (2 <= height)%nat -> (2 <= width)%nat ->
  height = width \/
    Forall (fun img => has_size fs height width img = true) (images_of image_pairs) ->
  fill_xy fs image_pairs height width = Ret (labels image_pairs).
Proof.
  intros Hread Hh Hw. induction image_pairs as [|p rest IH]; intros Hok; [reflexivity|].
  cbn [images_of mbind list_bind app] in Hread, Hok. fold (images_of rest) in Hread, Hok.
  apply Forall_cons in Hread as [Hr1 Hread]. apply Forall_cons in Hread as [Hr2 Hread].
  cbn [fill_xy]. rewrite (get_contents_shape _ _ _ _ Hr1 Hr2 Hh Hw).
  rewrite bool_decide_true.
  - cbn [obind]. change IMAGE_CHANNELS with 1%nat. rewrite broadcastable_refl.
    rewrite IH; [reflexivity|exact Hread|].
    destruct Hok as [?|Hok]; [left; assumption|right].
    apply Forall_cons in Hok as [_ Hok]. apply Forall_cons in Hok as [_ Hok]. exact Hok.
  - destruct Hok as [?|Hok]; [left; assumption|right].
    apply Forall_cons in Hok as [H1 Hok]. apply Forall_cons in Hok as [H2 _]. auto.
Qed.

Lemma fill_xy_transposed fs image_pairs (height width : nat) :
  Forall (fun img => readable fs img = true) (images_of image_pairs) ->
  (2 <= height)%nat -> (2 <= width)%nat -> height ≠ width ->
  ~ Forall (fun img => has_size fs height width img = true) (images_of image_pairs) ->
  fill_xy fs image_pairs height width = Raise ValueError.
Proof.
  intros Hread Hh Hw Hne. induction image_pairs as [|p rest IH]; intros Hbad.
  - destruct Hbad. constructor.
  - cbn [images_of mbind list_bind app] in Hread, Hbad. fold (images_of rest) in Hread, Hbad.
    apply Forall_cons in Hread as [Hr1 Hread]. apply Forall_cons in Hread as [Hr2 Hread].
    cbn [fill_xy]. rewrite (get_contents_shape _ _ _ _ Hr1 Hr2 Hh Hw).
    case_bool_decide as Hexact.
    + destruct Hexact as [?|[H1 H2]]; [congruence|].
      cbn [obind]. change IMAGE_CHANNELS with 1%nat. rewrite broadcastable_refl.
      rewrite IH; [reflexivity|exact Hread|].
      intros Hrest. apply Hbad. repeat (constructor; [assumption|]). exact Hrest.
    + case_bool_decide; [|reflexivity]. cbn [obind].
      change IMAGE_CHANNELS with 1%nat.
      rewrite (broadcastable_transposed _ _ Hh Hne). reflexivity.
Qed.

(** X10: Whatever [image_pairs_to_xy] returns has the shape
    [(N, 2, height, width, IMAGE_CHANNELS)] for [X] and one label for each
    pair, in the order of the pairs: [Y_SAME] for a pair of one person,
    [Y_DIFFERENT] otherwise. *)
Theorem image_pairs_to_xy_labels fs image_pairs (height width : nat) X y :
  image_pairs_to_xy fs image_pairs height width = Ret (X, y) ->
  X = [length image_pairs; 2%nat; height; width; IMAGE_CHANNELS] /\
  length y = length image_pairs /\
  forall i p, image_pairs !! i = Some p ->
    y !! i = Some (if same_person p then Y_SAME else Y_DIFFERENT).
Proof.
  unfold image_pairs_to_xy. intros Hret.
  apply obind_ret_inv in Hret as (y' & Hfill & [= <- <-]).
  apply fill_xy_ret in Hfill. subst y'. unfold labels.
  split; [reflexivity|]. split; [apply length_map|].
  intros i p Hp. rewrite list_lookup_fmap, Hp. reflexivity.
Qed.

(** X11: [image_pairs_to_xy] on pictures that [cv2.imread] can read, for a
    target of at least 2 by 2: it returns when the target is square or
    every picture has the target size already; for another target it
    raises [ValueError] as soon as one picture has to be resized, because
    [cv2.resize(img, (height, width))] gives [width] rows and [height]
    columns. *)
Theorem image_pairs_to_xy_square_or_same_size fs image_pairs (height width : nat) :
  Forall (fun img => readable fs img = true) (images_of image_pairs) ->
  (2 <= height)%nat -> (2 <= width)%nat ->
  (height = width \/
     Forall (fun img => has_size fs height width img = true) (images_of image_pairs) ->
   image_pairs_to_xy fs image_pairs height width
     = Ret ([length image_pairs; 2%nat; height; width; IMAGE_CHANNELS],
            labels image_pairs)) /\
  (height ≠ width ->
   ~ Forall (fun img => has_size fs height width img = true) (images_of image_pairs) ->
   image_pairs_to_xy fs image_pairs height width = Raise ValueError).
Proof.
  intros Hread Hh Hw. unfold image_pairs_to_xy. split.
  - intros Hok. rewrite (fill_xy_exact _ _ _ _ Hread Hh Hw Hok). reflexivity.
  - intros Hne Hbad. rewrite (fill_xy_transposed _ _ _ _ Hread Hh Hw Hne Hbad). reflexivity.
Qed.

Lemma image_pairs_to_xy_labels_witness :
  image_pairs_to_xy alice_bob_fs example_pairs 64 64
    = Ret ([2; 2; 64; 64; 1]%nat, labels example_pairs) /\
  length (labels example_pairs) = length example_pairs.
Proof.
  assert (Hrun : image_pairs_to_xy alice_bob_fs example_pairs 64 64
    = Ret ([2; 2; 64; 64; 1]%nat, labels example_pairs)) by (vm_compute; reflexivity).
  split; [exact Hrun|].
  exact (proj1 (proj2 (image_pairs_to_xy_labels _ _ _ _ _ _ Hrun))).
Defined.

Lemma image_pairs_to_xy_square_or_same_size_witness :
  image_pairs_to_xy alice_bob_fs example_pairs 64 64
    = Ret ([2; 2; 64; 64; 1]%nat, labels example_pairs) /\
  image_pairs_to_xy alice_bob_fs example_pairs 64 32 = Raise ValueError.
Proof.
  split.
  - apply (proj1 (image_pairs_to_xy_square_or_same_size alice_bob_fs example_pairs 64 64
                    ltac:(vm_compute; repeat constructor) ltac:(lia) ltac:(lia))).
    left. reflexivity.
  - apply (proj2 (image_pairs_to_xy_square_or_same_size alice_bob_fs example_pairs 64 32
                    ltac:(vm_compute; repeat constructor) ltac:(lia) ltac:(lia))).
    + discriminate.
    + intros Hall. vm_compute in Hall. inversion Hall as [|? ? Hhead _]. discriminate Hhead.
Defined.

(** ** load_previous_model *)

Section History.
Variable History : Type.
Variable Row : Type.
Variable history_load : string -> epoch_marker -> outcome History.
Variable history_epochs : History -> list Z.
Variable history_row : History -> nat -> outcome Row.
Variable format_identifier : string -> string -> string.

Lemma replay_history_rows (history : History) (i : nat) (epochs : list Z)
    (rows : list Row) (la_plotter : Plotter Row) :
  length rows = length epochs ->
  (forall k row, rows !! k = Some row -> history_row history (i + k) = Ret row) ->
  replay_history History Row history_row history i epochs la_plotter
    = Ret (la_plotter ++ zip epochs rows).
Proof.
  revert i rows la_plotter. induction epochs as [|epoch epochs IH];
    intros i [|row rows] la_plotter Hlen Hrows; try discriminate Hlen; simpl.
  - rewrite app_nil_r. reflexivity.
  - specialize (Hrows 0%nat row eq_refl) as Hrow. rewrite Nat.add_0_r in Hrow.
    rewrite Hrow. cbn [obind]. rewrite (IH (S i) rows).
    + rewrite <- app_assoc. reflexivity.
    + simpl in Hlen. lia.
    + intros k r Hk. replace (S i + k)%nat with (i + S k)%nat by lia.
      apply Hrows. exact Hk.
Qed.

(** X12: [load_previous_model], once the weights are found and the history is
    read: with no epoch in the history it raises [IndexError] (at
    [history.epochs[-1]], after the weights have been loaded); otherwise it
    hands the values of every epoch to the plotter, in the order of the
    epochs, and returns the last epoch with the history. *)
Theorem load_previous_model_replays_history
    fs identifier model la_plotter weights_dir csv_filepath model' marker history :
  load_weights fs model weights_dir identifier = Ret (model', (true, marker)) ->
  history_load (format_identifier csv_filepath identifier) marker = Ret history ->
  let call :=
    load_previous_model History Row history_load history_epochs history_row
      format_identifier fs identifier model la_plotter weights_dir csv_filepath in
  (history_epochs history = [] -> call = Raise IndexError) /\
  (forall rows earlier last,
     history_epochs history = earlier ++ [last] ->
     length rows = length (history_epochs history) ->
     (forall k row, rows !! k = Some row -> history_row history k = Ret row) ->
     call = Ret (model', la_plotter ++ zip (history_epochs history) rows, (last, history))).
Proof.
  intros Hweights Hload call. subst call. unfold load_previous_model.
  rewrite Hweights. cbn [obind negb]. rewrite Hload. cbn [obind]. split.
  - intros ->. reflexivity.
  - intros rows earlier last Hepochs Hlen Hrows.
    rewrite (replay_history_rows history 0 _ rows la_plotter Hlen Hrows). cbn [obind].
    unfold py_index. rewrite Hepochs at 1 2.
    rewrite length_app, Nat.add_sub. cbn [length].
    rewrite lookup_app_r, Nat.sub_diag by lia. reflexivity.
Qed.
End History.

Lemma load_previous_model_replays_history_witness :
  load_previous_model (list Z) nat (fun _ _ => Ret [100; 200]) (fun h => h)
      (fun _ i => Ret i) (fun csv _ => csv)
      epochs_fs "model1" {| loaded_weights := [] |} [] "weights" "history.csv"
    = Ret ({| loaded_weights := ["weights/model1.at200.weights"] |},
           [(100, 0%nat); (200, 1%nat)], (200, [100; 200])).
Proof.
  apply (proj2 (load_previous_model_replays_history (list Z) nat
                  (fun _ _ => Ret [100; 200]) (fun h => h) (fun _ i => Ret i)
                  (fun csv _ => csv)
                  epochs_fs "model1" {| loaded_weights := [] |} [] "weights" "history.csv"
                  {| loaded_weights := ["weights/model1.at200.weights"] |}
                  (EpochNum 200) [100; 200]
                  ltac:(vm_compute; reflexivity) eq_refl)
           [0; 1]%nat [100] 200).
  - reflexivity.
  - reflexivity.
  - intros [|[|k]] row [= <-]; reflexivity.
Defined.

(** ** How many pairs the pools can give *)

Lemma size_list_to_set_le (l : list string) :
  (size (list_to_set l : gset string) <= length l)%nat.
Proof.
  induction l as [|x l IH]; cbn [list_to_set length].
  - rewrite size_empty. lia.
  - rewrite size_union_alt, size_singleton.
    pose proof (subseteq_size (list_to_set l ∖ {[x]}) (list_to_set l : gset string)
                  (subseteq_difference_l _ _ _ (reflexivity _))). lia.
Qed.

Lemma NoDup_length_le_size (l : list string) (X : gset string) :
  NoDup l -> (forall x, x ∈ l -> x ∈ X) -> (length l <= size X)%nat.
Proof.
  intros Hnd Hsub. rewrite <- (size_list_to_set (C := gset string) l Hnd).
  apply subseteq_size. intros x Hx. apply elem_of_list_to_set in Hx. auto.
Qed.

Lemma filter_other_oid_length (l : list ImageFile) (img : ImageFile) :
  NoDup (map oid l) -> img ∈ l ->
  length (filter (fun image => oid image ≠ oid img) l) = (length l - 1)%nat.
Proof.
  induction l as [|a l IH]; simpl; intros Hnd Hin.
  - apply elem_of_nil in Hin. contradiction.
  - apply NoDup_cons in Hnd as [Ha Hnd]. rewrite filter_cons.
    apply elem_of_cons in Hin as [->|Hin].
    + rewrite decide_False by (intros Hne; apply Hne; reflexivity).
      rewrite filter_all; [lia|].
      apply Forall_forall. intros x Hx Heq. apply Ha. rewrite <- Heq.
      apply list_elem_of_fmap. eauto.
    + rewrite decide_True.
      * simpl. rewrite IH by assumption.
        destruct l; [apply elem_of_nil in Hin; contradiction|simpl; lia].
      * intros Heq. apply Ha. rewrite Heq. apply list_elem_of_fmap. eauto.
Qed.

Lemma length_bind_const {A B : Type} (f : A -> list B) (l : list A) (c : nat) :
  (forall x, x ∈ l -> length (f x) = c) -> length (l ≫= f) = (length l * c)%nat.
Proof.
  induction l as [|a l IH]; intros Hf; [reflexivity|].
  rewrite bind_cons, length_app, Hf by left. simpl.
  rewrite IH; [reflexivity|]. intros x Hx. apply Hf. right. exact Hx.
Qed.

Lemma length_bind_singleton {A B : Type} (f : A -> B) (l : list A) :
  length (l ≫= fun x => [f x]) = length l.
Proof.
  rewrite (length_bind_const _ l 1); [lia|]. reflexivity.
Qed.

(** [sum_avail_ordered] counts the pairs that a round of the first loop can
    build from two objects. *)
Lemma sum_avail_ordered_candidates (images : list ImageFile) :
  NoDup (map oid images) ->
  sum_avail_ordered (group_by_person images)
    = Z.of_nat (length (positive_candidates (group_by_person images) false)).
Proof.
  intros Hoid. unfold sum_avail_ordered, positive_candidates.
  set (d := group_by_person images).
  assert (Hgen : forall names acc,
    foldl (fun acc name => let k := Z.of_nat (length (dict_get d name)) in acc + k * (k - 1))
          acc names
    = acc + Z.of_nat (length (names ≫= fun person =>
        dict_get d person ≫= fun img1 =>
          filter (fun image => oid image ≠ oid img1) (dict_get d person) ≫= fun img2 =>
            [ImagePair_init img1 img2]))).
  { induction names as [|name names IH]; intros acc; simpl; [lia|].
    rewrite IH, length_app.
    rewrite (length_bind_const _ (dict_get d name) (length (dict_get d name) - 1)).
    - rewrite Nat2Z.inj_add, Nat2Z.inj_mul.
      assert (Hk : forall n : nat, Z.of_nat n - 1 = Z.of_nat (n - 1) \/ n = 0%nat)
        by (intros [|n]; [right; reflexivity|left; lia]).
      destruct (Hk (length (dict_get d name))) as [-> | ->];
        rewrite <- Z.add_assoc; reflexivity.
    - intros img1 Himg1. rewrite length_bind_singleton.
      apply filter_other_oid_length; [|exact Himg1].
      unfold d. rewrite group_by_person_get. apply NoDup_fmap_filter. exact Hoid. }
  rewrite Hgen. lia.
Qed.

Section PoolBounds.
Context {G : Type} `{RandomGen G}.

(** X13: A call returns only when the pools hold enough keys: [nb_max // 2]
    different keys among the same-person pairs that can be drawn, and
    [nb_max - nb_max // 2] among the different-person pairs. Without
    [pairs_of_same_imgs], [nb_max // 2] is then at most the statistic
    [sum_avail_ordered]. (With less, the loop never ends, as the
    documentation of the function warns.) *)
Theorem returning_call_has_enough_keys
    fs fuel path nb_max same_imgs io excl seed (g g' : G) l :
  get_image_pairs fs fuel path nb_max same_imgs io excl seed g = (Ret l, g') ->
  exists images,
    get_image_files fs path (map image1 excl ++ map image2 excl) = Ret images /\
    let d := group_by_person images in
    (Z.to_nat (nb_max / 2) <= size (key_set io (positive_candidates d same_imgs)))%nat /\
    (Z.to_nat nb_max - Z.to_nat (nb_max / 2)
       <= size (key_set io (negative_candidates d)))%nat /\
    (same_imgs = false -> nb_max / 2 <= sum_avail_ordered d).
Proof.
  intros Hcall.
  destruct (returned_pairs_candidates _ _ _ _ _ _ _ _ _ _ _ Hcall)
    as (images & Hfiles & Hcand).
  exists images. split; [exact Hfiles|]. intros d.
  pose proof (returned_composition _ _ _ _ _ _ _ _ _ _ _ Hcall) as (_ & Hsame & Hdiff).
  assert (Hnd : NoDup (map (get_key io) l)).
  { apply get_image_pairs_ret_inv in Hcall
      as (images' & st1 & st2 & g0 & g1 & g2 & g3 & _ & _ & _ & Hpos & Hneg & Hsh & _).
    apply positive_loop_ok in Hpos; [|apply sampler_init_ok].
    apply negative_loop_ok in Hneg; [|exact Hpos].
    apply shuffle_Permutation in Hsh. rewrite Hsh. apply (ok_nodup _ _ Hneg). }
  pose proof (group_by_person_ok images) as Hd.
  assert (Hpos : (Z.to_nat (nb_max / 2)
                  <= size (key_set io (positive_candidates d same_imgs)))%nat).
  { rewrite <- Hsame. unfold count_same. rewrite <- (length_map (get_key io)).
    apply NoDup_length_le_size; [apply NoDup_fmap_filter; exact Hnd|].
    intros k Hk. apply list_elem_of_fmap in Hk as (p & -> & Hp).
    apply list_elem_of_filter in Hp as [Hsp Hp].
    apply elem_of_list_to_set, list_elem_of_fmap. exists p. split; [reflexivity|].
    destruct (Hcand p Hp) as [Hc|Hc]; [exact Hc|].
    apply (negative_candidates_different _ _ Hd) in Hc. congruence. }
  split; [exact Hpos|]. split.
  - rewrite <- Hdiff. rewrite <- (length_map (get_key io)).
    apply NoDup_length_le_size; [apply NoDup_fmap_filter; exact Hnd|].
    intros k Hk. apply list_elem_of_fmap in Hk as (p & -> & Hp).
    apply list_elem_of_filter in Hp as [Hsp Hp].
    apply elem_of_list_to_set, list_elem_of_fmap. exists p. split; [reflexivity|].
    destruct (Hcand p Hp) as [Hc|Hc]; [|exact Hc].
    apply (positive_candidates_same _ _ _ Hd) in Hc. congruence.
  - intros ->.
    destruct (get_image_files_facts _ _ _ _ Hfiles) as (_ & _ & _ & Hoid & _).
    unfold d. rewrite (sum_avail_ordered_candidates _ Hoid).
    pose proof (size_list_to_set_le
                  (map (get_key io) (positive_candidates (group_by_person images) false)))
      as Hle.
    rewrite length_map in Hle.
    assert (Hfin : (Z.to_nat (nb_max / 2)
                    <= length (positive_candidates (group_by_person images) false))%nat)
      by (etransitivity; [exact Hpos|exact Hle]).
    lia.
Qed.
End PoolBounds.

Lemma returning_call_has_enough_keys_witness :
  exists images,
    get_image_files alice_bob_fs "faces" [] = Ret images /\
    (Z.to_nat (2 / 2)
       <= size (key_set true (positive_candidates (group_by_person images) false)))%nat /\
    (Z.to_nat 2 - Z.to_nat (2 / 2)
       <= size (key_set true (negative_candidates (group_by_person images))))%nat /\
    (false = false -> 2 / 2 <= sum_avail_ordered (group_by_person images)).
Proof.
  assert (Hrun : get_image_pairs alice_bob_fs 10 "faces" 2 false true [] None example_draws
    = (Ret example_pairs, [6; 7]%nat)) by (vm_compute; reflexivity).
  exact (returning_call_has_enough_keys _ _ _ _ _ _ _ _ _ _ _ Hrun).
Defined.

(** ** The persons counted by the statistics *)

Lemma count_persons_split d (a b c : Z) :
  a <= b -> b <= c ->
  (count_persons d a b + count_persons d b c)%nat = count_persons d a c.
Proof.
  intros Hab Hbc. unfold count_persons.
  induction d as [|kv d IH]; [reflexivity|].
  rewrite !filter_cons.
  repeat case_decide; simpl; lia.
Qed.

Lemma count_persons_all d (a b : Z) :
  Forall (fun kv => a <= Z.of_nat (length (snd kv)) /\ Z.of_nat (length (snd kv)) < b) d ->
  count_persons d a b = length d.
Proof.
  intros Hall. unfold count_persons. rewrite filter_all by exact Hall. reflexivity.
Qed.

Lemma count_persons_gte2 d (b : Z) :
  Forall (fun kv => Z.of_nat (length (snd kv)) < b) d ->
  count_persons d 2 b = length (all_names_gte2 d).
Proof.
  intros Hall. unfold count_persons, all_names_gte2. rewrite length_map.
  induction Hall as [|kv d Hkv _ IH]; [reflexivity|].
  rewrite !filter_cons. repeat case_decide; simpl; lia.
Qed.

Lemma group_by_person_sizes (images : list ImageFile) :
  Forall (fun kv => (1 <= length (snd kv) <= length images)%nat) (group_by_person images).
Proof.
  apply Forall_forall. intros [k vs] Hin. simpl.
  pose proof (group_by_person_NoDup images) as Hnd.
  rewrite <- (dict_get_entry _ _ _ Hnd Hin), group_by_person_get.
  split; [|apply length_filter].
  assert (Hk : k ∈ all_names (group_by_person images))
    by (apply list_elem_of_fmap; exists (k, vs); auto).
  apply group_by_person_names in Hk as (img & Himg & Hp).
  assert (Hf : img ∈ filter (fun i => person i = k) images)
    by (apply list_elem_of_filter; auto).
  destruct (filter _ images); [apply elem_of_nil in Hf; contradiction|simpl; lia].
Qed.

(** X14: The statistics of the verbose mode count every person once: with fewer
    than 9999999 images, the eight ranges printed add up to the number of
    persons, the first one holds the persons that are not in [names_gte2]
    and the others those that are. *)
Theorem count_persons_ranges_cover_persons (images : list ImageFile) :
  Z.of_nat (length images) < 9999999 ->
  let d := group_by_person images in
  sum_list (map (fun r => count_persons d (fst r) (snd r)) person_count_ranges)
    = length (all_names d) /\
  (count_persons d 1 2 + length (all_names_gte2 d))%nat = length (all_names d) /\
  sum_list (map (fun r => count_persons d (fst r) (snd r)) (tail person_count_ranges))
    = length (all_names_gte2 d).
Proof.
  intros Hlen d.
  pose proof (group_by_person_sizes images) as Hsizes. fold d in Hsizes.
  assert (Hall : count_persons d 1 9999999 = length (all_names d)).
  { unfold all_names. rewrite length_map. apply count_persons_all.
    eapply Forall_impl; [exact Hsizes|]. simpl. intros kv Hkv. lia. }
  assert (Hgte2 : count_persons d 2 9999999 = length (all_names_gte2 d)).
  { apply count_persons_gte2.
    eapply Forall_impl; [exact Hsizes|]. simpl. intros kv Hkv. lia. }
  assert (Htail : sum_list (map (fun r => count_persons d (fst r) (snd r))
                                (tail person_count_ranges))
                  = count_persons d 2 9999999).
  { unfold person_count_ranges. cbn [tail map sum_list fst snd sum_list_with].
    rewrite <- (count_persons_split d 2 3 9999999) by lia.
    rewrite <- (count_persons_split d 3 6 9999999) by lia.
    rewrite <- (count_persons_split d 6 11 9999999) by lia.
    rewrite <- (count_persons_split d 11 26 9999999) by lia.
    rewrite <- (count_persons_split d 26 76 9999999) by lia.
    rewrite <- (count_persons_split d 76 201 9999999) by lia.
    unfold id. lia. }
  pose proof (count_persons_split d 1 2 9999999 ltac:(lia) ltac:(lia)) as Hsplit.
  split; [|split].
  - change person_count_ranges with ((1, 2) :: tail person_count_ranges).
    cbn [map sum_list sum_list_with fst snd].
    fold (sum_list (map (fun r => count_persons d (fst r) (snd r)) (tail person_count_ranges))).
    rewrite Htail. unfold id. lia.
  - lia.
  - rewrite Htail. exact Hgte2.
Qed.

Lemma count_persons_ranges_cover_persons_witness :
  sum_list (map (fun r => count_persons (group_by_person alice_bob_images) (fst r) (snd r))
                person_count_ranges) = 2%nat.
Proof.
  exact (proj1 (count_persons_ranges_cover_persons alice_bob_images
                  ltac:(vm_compute; reflexivity))).
Defined.

(** ** Draws on which a call returns *)

Lemma choice_replay {A : Type} (seq : list A) (i : nat) (x : A) (g : list nat) :
  seq !! i = Some x -> choice seq (i :: g) = (Ret x, g).
Proof.
  intros Hx. unfold choice. destruct seq as [|a seq]; [discriminate|].
  pose proof (lookup_lt_Some _ _ _ Hx) as Hlt.
  cbn [randbelow replay_gen]. rewrite Nat.mod_small by exact Hlt.
  rewrite Hx. reflexivity.
Qed.

Lemma positive_step_replay d same_imgs io st p :
  p ∈ positive_candidates d same_imgs ->
  exists a b c, forall g : list nat,
    positive_step d same_imgs io st (a :: b :: c :: g)
      = (Ret (if bool_decide (get_key io p ∉ added st)
              then push_positive io st p else st), g).
Proof.
  unfold positive_candidates. intros Hp.
  apply list_elem_of_bind in Hp as (k & Hp & Hk).
  apply list_elem_of_bind in Hp as (img1 & Hp & H1).
  apply list_elem_of_bind in Hp as (img2 & Hp & H2).
  apply list_elem_of_singleton in Hp. subst p.
  apply list_elem_of_lookup_1 in Hk as (a & Ha).
  apply list_elem_of_lookup_1 in H1 as (b & Hb).
  apply list_elem_of_lookup_1 in H2 as (c & Hc).
  exists a, b, c. intros g. unfold positive_step.
  rewrite (gen_bind_ret _ _ _ _ _ (choice_replay _ _ _ _ Ha)).
  rewrite (gen_bind_ret _ _ _ _ _ (choice_replay _ _ _ _ Hb)).
  assert (H2 : (if same_imgs then choice (dict_get d k)
                else choice (filter (fun image => oid image ≠ oid img1) (dict_get d k)))
               (c :: g) = (Ret img2, g))
    by (destruct same_imgs; apply choice_replay; exact Hc).
  rewrite (gen_bind_ret _ _ _ _ _ H2).
  case_bool_decide; reflexivity.
Qed.

Lemma negative_step_replay d io st p :
  p ∈ negative_candidates d ->
  exists a b c e, forall g : list nat,
    negative_step d io st (a :: b :: c :: e :: g)
      = (Ret (if bool_decide (get_key io p ∉ added st)
              then push_negative io st p else st), g).
Proof.
  unfold negative_candidates. intros Hp.
  apply list_elem_of_bind in Hp as (k1 & Hp & Hk1).
  apply list_elem_of_bind in Hp as (k2 & Hp & Hk2).
  apply list_elem_of_bind in Hp as (img1 & Hp & H1).
  apply list_elem_of_bind in Hp as (img2 & Hp & H2).
  apply list_elem_of_singleton in Hp. subst p.
  apply list_elem_of_lookup_1 in Hk1 as (a & Ha).
  apply list_elem_of_lookup_1 in Hk2 as (b & Hb).
  apply list_elem_of_lookup_1 in H1 as (c & Hc).
  apply list_elem_of_lookup_1 in H2 as (e & He).
  exists a, b, c, e. intros g. unfold negative_step.
  rewrite (gen_bind_ret _ _ _ _ _ (choice_replay _ _ _ _ Ha)).
  rewrite (gen_bind_ret _ _ _ _ _ (choice_replay _ _ _ _ Hb)).
  rewrite (gen_bind_ret _ _ _ _ _ (choice_replay _ _ _ _ Hc)).
  rewrite (gen_bind_ret _ _ _ _ _ (choice_replay _ _ _ _ He)).
  case_bool_decide; reflexivity.
Qed.

Lemma sampler_ok_size io st : sampler_ok io st -> size (added st) = nb_added st.
Proof.
  intros [Hn Ha Hd]. rewrite Ha, Hn. unfold key_set.
  rewrite (size_list_to_set (C := gset string) _ Hd). apply length_map.
Qed.

(** While [added] holds fewer keys than the candidates have, one of the
    candidates is new. *)
Lemma fresh_candidate io (candidates : list ImagePair) (added : gset string) :
  (size added < size (key_set io candidates))%nat ->
  exists p, p ∈ candidates /\ get_key io p ∉ added.
Proof.
  intros Hsize.
  assert (Hpos : (0 < size (key_set io candidates ∖ added))%nat).
  { pose proof (size_union_alt added (key_set io candidates)) as Hu.
    pose proof (subseteq_size (key_set io candidates) (added ∪ key_set io candidates)
                  (union_subseteq_r _ _)) as Hle.
    lia. }
  apply size_pos_elem_of in Hpos as (k & Hk).
  apply elem_of_difference in Hk as [Hk Hfresh].
  apply elem_of_key_set, list_elem_of_fmap in Hk as (p & -> & Hp). eauto.
Qed.

Lemma positive_loop_replay d nb_max same_imgs io (n : nat) st :
  sampler_ok io st ->
  (Z.to_nat (nb_max / 2) <= size (key_set io (positive_candidates d same_imgs)))%nat ->
  (Z.to_nat (nb_max / 2) - nb_added st <= n)%nat ->
  exists draws st',
    sampler_ok io st' /\
    forall (fuel : nat) (g : list nat), (n <= fuel)%nat ->
      positive_loop d nb_max same_imgs io fuel st (draws ++ g) = (Ret st', g).
Proof.
  intros Hok Hpool. revert st Hok. induction n as [|n IH]; intros st Hok Hrem.
  - exists [], st. split; [exact Hok|]. intros fuel g _.
    assert (Hcond : (Z.of_nat (nb_added st) <? nb_max / 2) = false) by (apply Z.ltb_ge; lia).
    destruct fuel; simpl; rewrite Hcond; reflexivity.
  - destruct (Z.ltb_spec (Z.of_nat (nb_added st)) (nb_max / 2)) as [Hlt|Hge].
    + destruct (fresh_candidate io (positive_candidates d same_imgs) (added st))
        as (p & Hp & Hfresh); [(rewrite (sampler_ok_size _ _ Hok)); lia|].
      destruct (positive_step_replay d same_imgs io st p Hp) as (a & b & c & Hstep).
      destruct (IH (push_positive io st p)) as (draws & st' & Hok' & Hloop).
      { eapply push_ok; eauto; reflexivity. }
      { simpl. lia. }
      exists (a :: b :: c :: draws), st'. split; [exact Hok'|].
      intros [|fuel] g Hfuel; [lia|]. cbn [positive_loop].
      apply Z.ltb_lt in Hlt. rewrite Hlt.
      change ((a :: b :: c :: draws) ++ g) with (a :: b :: c :: draws ++ g).
      rewrite (gen_bind_ret _ _ _ _ _ (Hstep (draws ++ g))).
      rewrite bool_decide_true by exact Hfresh. apply Hloop. lia.
    + exists [], st. split; [exact Hok|]. intros fuel g _.
      apply Z.ltb_ge in Hge. destruct fuel; simpl; rewrite Hge; reflexivity.
Qed.

Lemma negative_loop_replay d nb_max io (n : nat) st :
  sampler_ok io st ->
  (Z.to_nat nb_max <= size (key_set io (negative_candidates d)))%nat ->
  (Z.to_nat nb_max - nb_added st <= n)%nat ->
  exists draws st',
    sampler_ok io st' /\
    forall (fuel : nat) (g : list nat), (n <= fuel)%nat ->
      negative_loop d nb_max io fuel st (draws ++ g) = (Ret st', g).
Proof.
  intros Hok Hpool. revert st Hok. induction n as [|n IH]; intros st Hok Hrem.
  - exists [], st. split; [exact Hok|]. intros fuel g _.
    assert (Hcond : (Z.of_nat (nb_added st) <? nb_max) = false) by (apply Z.ltb_ge; lia).
    destruct fuel; simpl; rewrite Hcond; reflexivity.
  - destruct (Z.ltb_spec (Z.of_nat (nb_added st)) nb_max) as [Hlt|Hge].
    + destruct (fresh_candidate io (negative_candidates d) (added st))
        as (p & Hp & Hfresh); [(rewrite (sampler_ok_size _ _ Hok)); lia|].
      destruct (negative_step_replay d io st p Hp) as (a & b & c & e & Hstep).
      destruct (IH (push_negative io st p)) as (draws & st' & Hok' & Hloop).
      { eapply push_ok; eauto; reflexivity. }
      { simpl. lia. }
      exists (a :: b :: c :: e :: draws), st'. split; [exact Hok'|].
      intros [|fuel] g Hfuel; [lia|]. cbn [negative_loop].
      apply Z.ltb_lt in Hlt. rewrite Hlt.
      change ((a :: b :: c :: e :: draws) ++ g) with (a :: b :: c :: e :: draws ++ g).
      rewrite (gen_bind_ret _ _ _ _ _ (Hstep (draws ++ g))).
      rewrite bool_decide_true by exact Hfresh. apply Hloop. lia.
    + exists [], st. split; [exact Hok|]. intros fuel g _.
      apply Z.ltb_ge in Hge. destruct fuel; simpl; rewrite Hge; reflexivity.
Qed.

(** X15: When the pools hold enough keys, [nb_max // 2] among the same-person
    pairs and [nb_max] among the different-person pairs, the loops can end:
    there are draws on which an unseeded call returns, after at most
    [nb_max] rounds of each loop. *)
Theorem get_image_pairs_can_return fs path nb_max same_imgs io excl images :
  get_image_files fs path (map image1 excl ++ map image2 excl) = Ret images ->
  let d := group_by_person images in
  (Z.to_nat (nb_max / 2) <= size (key_set io (positive_candidates d same_imgs)))%nat ->
  (Z.to_nat nb_max <= size (key_set io (negative_candidates d)))%nat ->
  exists draws : list nat,
    forall (fuel : nat) (rest : list nat), (Z.to_nat nb_max <= fuel)%nat ->
      exists l g',
        get_image_pairs fs fuel path nb_max same_imgs io excl None (draws ++ rest)
          = (Ret l, g') /\
        length l = Z.to_nat nb_max.
Proof.
  intros Hfiles d Hpos Hneg.
  destruct (positive_loop_replay d nb_max same_imgs io (Z.to_nat nb_max) sampler_init
              (sampler_init_ok io) Hpos) as (draws1 & st1 & Hok1 & Hloop1).
  { simpl. destruct (Z.le_gt_cases 0 nb_max).
    - assert (nb_max / 2 <= nb_max) by (apply Z.div_le_upper_bound; lia). lia.
    - assert (nb_max / 2 < 0) by (apply Z.div_lt_upper_bound; lia). lia. }
  destruct (negative_loop_replay d nb_max io (Z.to_nat nb_max) st1 Hok1 Hneg)
    as (draws2 & st2 & Hok2 & Hloop2); [lia|].
  exists (draws1 ++ draws2). intros fuel rest Hfuel.
  destruct (shuffle_lawful (pairs st2) rest) as (l & g' & Hsh).
  assert (Hcall : get_image_pairs fs fuel path nb_max same_imgs io excl None
                    ((draws1 ++ draws2) ++ rest) = (Ret l, g')).
  { unfold get_image_pairs.
    rewrite (get_image_pairs_body_files _ _ _ _ _ _ _ _ _ Hfiles).
    unfold sample_pairs. fold d. rewrite <- app_assoc.
    rewrite (gen_bind_ret _ _ _ _ _ (Hloop1 fuel (draws2 ++ rest) Hfuel)).
    rewrite (gen_bind_ret _ _ _ _ _ (Hloop2 fuel rest Hfuel)).
    rewrite Hsh. reflexivity. }
  exists l, g'. split; [exact Hcall|].
  exact (proj1 (returned_composition _ _ _ _ _ _ _ _ _ _ _ Hcall)).
Qed.

Lemma get_image_pairs_can_return_witness :
  exists draws : list nat,
    forall (fuel : nat) (rest : list nat), (Z.to_nat 2 <= fuel)%nat ->
      exists l g',
        get_image_pairs alice_bob_fs fuel "faces" 2 false true [] None (draws ++ rest)
          = (Ret l, g') /\
        length l = Z.to_nat 2.
Proof.
  apply (get_image_pairs_can_return alice_bob_fs "faces" 2 false true [] alice_bob_images).
  - vm_compute. reflexivity.
  - vm_compute. lia.
  - vm_compute. lia.
Defined.

(** ** What load_weights can do *)

Lemma prefix_chars (p s : string) :
  String.prefix p s = true -> exists rest, chars s = chars p ++ rest.
Proof.
  revert s. induction p as [|c p IH]; intros s Hp.
  - exists (chars s). reflexivity.
  - destruct s as [|c' s]; [discriminate|].
    change (String.prefix (String c p) (String c' s))
      with (if ascii_dec c c' then String.prefix p s else false) in Hp.
    destruct (ascii_dec c c') as [<-|]; [|discriminate].
    destruct (IH s Hp) as (rest & Hrest). exists rest.
    change (chars (String c s)) with (c :: chars s). rewrite Hrest. reflexivity.
Qed.

Lemma split_chars_length (sep : ascii) (l : list ascii) :
  sep ∈ l -> (2 <= length (split_chars sep l))%nat.
Proof.
  induction l as [|c l IH]; intros Hin; [apply elem_of_nil in Hin; contradiction|].
  simpl. destruct (Ascii.eqb_spec c sep) as [->|Hne].
  - simpl. destruct l; simpl; [lia|]. destruct (Ascii.eqb _ _); simpl; [lia|].
    destruct (split_chars sep l); simpl; lia.
  - apply elem_of_cons in Hin as [->|Hin]; [congruence|].
    specialize (IH Hin). destruct (split_chars sep l) as [|f fields]; simpl in *; lia.
Qed.

Lemma py_int_cases (s : string) : (exists n, py_int s = Ret n) \/ py_int s = Raise ValueError.
Proof.
  unfold py_int. destruct s; [right; reflexivity|].
  destruct (_ <? _)%nat; [right; reflexivity|].
  destruct (NilEmpty.uint_of_string _); [left; eauto|right; reflexivity].
Qed.

(** The epoch of a file whose name starts with the identifier and a dot is
    a number, or [int] fails. *)
Lemma epoch_of_filename_cases (id f : string) :
  startswith f (id +:+ ".") = true ->
  (exists n, epoch_of_filename f = Ret n) \/ epoch_of_filename f = Raise ValueError.
Proof.
  intros Hstart. unfold epoch_of_filename, py_index, py_split.
  apply prefix_chars in Hstart as (rest & Hf). rewrite chars_app in Hf.
  assert (Hlen : (2 <= length (split_chars "." (chars f)))%nat).
  { apply split_chars_length. rewrite Hf. set_solver. }
  rewrite list_lookup_fmap.
  destruct (split_chars "." (chars f) !! 1%nat) as [field|] eqn:Hfield.
  - simpl. apply py_int_cases.
  - apply lookup_ge_None in Hfield. lia.
Qed.

Lemma map_outcome_cases {A B : Type} (f : A -> outcome B) (l : list A) :
  Forall (fun x => (exists y, f x = Ret y) \/ f x = Raise ValueError) l ->
  (exists ys, map_outcome f l = Ret ys /\ length ys = length l) \/
  map_outcome f l = Raise ValueError.
Proof.
  induction 1 as [|x l Hx _ IH]; simpl; [left; eauto|].
  destruct Hx as [(y & ->)| ->]; [|right; reflexivity]. simpl.
  destruct IH as [(ys & -> & Hlen)| ->]; [|right; reflexivity].
  left. exists (y :: ys). simpl. auto.
Qed.

(** X16: Everything [load_weights] can do. It returns [(False, -1)] and leaves
    the model alone, or it loads exactly one file of the weights directory
    and returns [True]: the one file that ends in [.last.weights], or the
    file named after the highest of the numbers found in the names. It
    raises the error of [os.listdir], the ambiguity exception, or the
    [ValueError] of [int] on a name without digits in its second field, and
    nothing else of its own ([model.load_weights] is taken to succeed). *)
Theorem load_weights_outcomes fs model dir id :
  match load_weights fs model dir id with
  | Ret (model', (found, marker)) =>
    exists filenames, weight_filenames fs dir id = Ret filenames /\
      ((found = false /\ model' = model /\ marker = EpochNum (-1) /\ filenames = []) \/
       (found = true /\ marker = EpochLast /\
        exists f, filter (fun f => endswith f ".last.weights" = true) filenames = [f] /\
                  model' = model_load_weights model (os_path_join dir f)) \/
       (found = true /\
        exists epochs e0,
          map_outcome epoch_of_filename filenames = Ret epochs /\
          e0 ∈ epochs /\ (forall n, n ∈ epochs -> (n <= e0)%N) /\
          marker = EpochNum (Z.of_N e0) /\
          model' = model_load_weights model (os_path_join dir (epoch_filename id e0))))
  | Raise e =>
    (e = OSError /\ fs_listdir fs dir = None) \/
    e = PyException ambiguous_msg \/
    e = ValueError
  | OutOfFuel => False
  end.
Proof.
  unfold load_weights.
  destruct (weight_filenames fs dir id) as [filenames|e|] eqn:Hfiles; cbn [obind].
  - destruct (Nat.eqb_spec (length filenames) 0) as [Hnil|Hne].
    { apply nil_length_inv in Hnil. subst. exists []. split; [reflexivity|]. left. auto. }
    set (last := filter (fun f => endswith f ".last.weights" = true) filenames).
    destruct (Nat.leb_spec 2 (length last)) as [_|Hlt]; [right; left; reflexivity|].
    destruct (Nat.eqb_spec (length last) 1) as [Hone|Hzero].
    { destruct last as [|f [|f' last']] eqn:Hlast; try discriminate Hone.
      cbn [py_index lookup list_lookup obind].
      exists filenames. split; [reflexivity|]. right. left.
      split; [reflexivity|]. split; [reflexivity|]. exists f. auto. }
    assert (Hstart : Forall (fun f => (exists n, epoch_of_filename f = Ret n) \/
                                      epoch_of_filename f = Raise ValueError) filenames).
    { unfold weight_filenames in Hfiles.
      destruct (fs_listdir fs dir) as [listing|]; [|discriminate].
      injection Hfiles as <-. apply Forall_forall. intros f Hf.
      apply list_elem_of_filter in Hf as [Hf _].
      apply andb_true_iff in Hf as [Hf _].
      exact (epoch_of_filename_cases id f Hf). }
    destruct (map_outcome_cases _ _ Hstart) as [(epochs & Hmap & Hlen)|Hmap];
      rewrite Hmap; [|right; right; reflexivity].
    cbn [obind].
    destruct (sorted_desc_head epochs) as (e0 & rest & Hsorted & Hin & Hmax).
    { intros ->. simpl in Hlen. lia. }
    rewrite Hsorted. cbn [py_index lookup list_lookup obind].
    exists filenames. split; [reflexivity|]. right. right.
    split; [reflexivity|]. exists epochs, e0. repeat split; auto.
  - unfold weight_filenames in Hfiles.
    destruct (fs_listdir fs dir); [discriminate|]. injection Hfiles as <-. auto.
  - unfold weight_filenames in Hfiles.
    destruct (fs_listdir fs dir); discriminate.
Qed.

(** ** The bars of plot_dataset_skew *)

Lemma dict_append_total d k v :
  sum_list (map (fun kv => length (snd kv)) (dict_append d k v))
    = S (sum_list (map (fun kv => length (snd kv)) d)).
Proof.
  induction d as [|[k0 vs] d IH]; simpl; [reflexivity|].
  destruct (String.eqb k0 k); simpl.
  - rewrite length_app. simpl. unfold id. lia.
  - rewrite IH. unfold id. lia.
Qed.

Lemma name_to_images_total only_y_same pairs d :
  sum_list (map (fun kv => length (snd kv))
    (foldl (fun d pair =>
              if (negb only_y_same || (only_y_same && same_person pair))%bool then
                dict_append (dict_append d (person (image1 pair)) (image1 pair))
                            (person (image2 pair)) (image2 pair)
              else d) d pairs))
  = (sum_list (map (fun kv => length (snd kv)) d)
     + 2 * length (filter (fun p => counted only_y_same p = true) pairs))%nat.
Proof.
  revert d. induction pairs as [|p pairs IH]; intros d; simpl; [lia|].
  rewrite IH, filter_cons.
  change (negb only_y_same || only_y_same && same_person p)%bool
    with (counted only_y_same p).
  destruct (counted only_y_same p) eqn:Hp.
  - rewrite decide_True by reflexivity. rewrite !dict_append_total. simpl. lia.
  - rewrite decide_False by discriminate. lia.
Qed.

Lemma dict_append_twice_even d k a b :
  Forall (fun kv => Nat.Even (length (snd kv))) d ->
  Forall (fun kv => Nat.Even (length (snd kv))) (dict_append (dict_append d k a) k b).
Proof.
  induction 1 as [|[k0 vs] d Hkv Hd IH]; simpl.
  - rewrite String.eqb_refl. repeat constructor. simpl. exists 1%nat. reflexivity.
  - destruct (String.eqb k0 k) eqn:Hk; simpl; rewrite Hk.
    + constructor; [|exact Hd]. simpl in *. rewrite !length_app. simpl.
      destruct Hkv as (m & ->). exists (S m). lia.
    + constructor; [exact Hkv|exact IH].
Qed.

Lemma name_to_images_NoDup only_y_same pairs : NoDup (map fst (name_to_images only_y_same pairs)).
Proof.
  unfold name_to_images.
  assert (Hgen : forall d0, NoDup (map fst d0) ->
    NoDup (map fst (foldl (fun d pair =>
      if (negb only_y_same || (only_y_same && same_person pair))%bool then
        dict_append (dict_append d (person (image1 pair)) (image1 pair))
                    (person (image2 pair)) (image2 pair)
      else d) d0 pairs))).
  { induction pairs as [|p ps IH]; intros d0 Hd0; simpl; [exact Hd0|].
    apply IH. destruct (_ || _)%bool; [|exact Hd0].
    apply dict_append_NoDup, dict_append_NoDup, Hd0. }
  apply Hgen. constructor.
Qed.

Lemma name_to_images_even pairs :
  Forall (fun p => same_person p = true -> person (image1 p) = person (image2 p)) pairs ->
  Forall (fun kv => Nat.Even (length (snd kv))) (name_to_images true pairs).
Proof.
  intros Hpairs. unfold name_to_images.
  assert (Hgen : forall d0, Forall (fun kv => Nat.Even (length (snd kv))) d0 ->
    Forall (fun kv => Nat.Even (length (snd kv)))
      (foldl (fun d pair =>
        if (negb true || (true && same_person pair))%bool then
          dict_append (dict_append d (person (image1 pair)) (image1 pair))
                      (person (image2 pair)) (image2 pair)
        else d) d0 pairs)).
  { induction Hpairs as [|p ps Hp _ IH]; intros d0 Hd0; simpl; [exact Hd0|].
    apply IH. destruct (same_person p) eqn:Hsame; [|exact Hd0].
    rewrite <- (Hp eq_refl). apply dict_append_twice_even, Hd0. }
  apply Hgen. constructor.
Qed.

Lemma insert_by_count_Permutation x l : insert_by_count x l ≡ₚ x :: l.
Proof.
  induction l as [|y l IH]; simpl; [reflexivity|].
  destruct (_ <? _)%nat; [|reflexivity]. rewrite IH. apply Permutation_swap.
Qed.

Lemma sort_by_count_Permutation l : sort_by_count l ≡ₚ l.
Proof.
  unfold sort_by_count. induction l as [|x l IH]; simpl; [reflexivity|].
  rewrite insert_by_count_Permutation, IH. reflexivity.
Qed.

Lemma insert_by_count_Sorted x l :
  StronglySorted (fun a b => (snd b <= snd a)%nat) l ->
  StronglySorted (fun a b => (snd b <= snd a)%nat) (insert_by_count x l).
Proof.
  induction 1 as [|y l Hl IH Hall]; simpl.
  - repeat constructor.
  - destruct (Nat.ltb_spec (snd x) (snd y)) as [Hlt|Hge].
    + constructor; [exact IH|].
      rewrite insert_by_count_Permutation. constructor; [lia|exact Hall].
    + constructor; [constructor; assumption|].
      constructor; [exact Hge|].
      eapply Forall_impl; [exact Hall|]. simpl. intros z Hz. lia.
Qed.

Lemma sort_by_count_Sorted l :
  StronglySorted (fun a b => (snd b <= snd a)%nat) (sort_by_count l).
Proof.
  unfold sort_by_count. induction l as [|x l IH]; simpl; [constructor|].
  apply insert_by_count_Sorted, IH.
Qed.

Lemma StronglySorted_take {A : Type} (R : A -> A -> Prop) (l : list A) (n : nat) :
  StronglySorted R l -> StronglySorted R (take n l).
Proof.
  intros Hl. revert n. induction Hl as [|x l Hl IH Hall]; intros [|n]; simpl;
    try constructor; [apply IH|].
  apply Forall_forall. intros y Hy. apply (proj1 (Forall_forall _ _) Hall).
  apply elem_of_take in Hy as (i & Hi & _).
  eapply list_elem_of_lookup_2. exact Hi.
Qed.

(** X17: The bars of a chart of [plot_dataset_skew]: a chart has one bar for a
    person, the bars stand from the highest to the lowest, there are at most
    [n_highest] of them and no person left out has more images than one
    shown. Before the cut to [n_highest] the heights add up to twice the
    number of counted pairs; with [only_y_same], on pairs whose flag says
    that both images show one person, every height is even. *)
Theorem chart_bars_descend (only_y_same : bool) (n_highest : Z) (pairs : list ImagePair) :
  let bars := names_with_counts only_y_same n_highest pairs in
  let all_bars := names_with_counts only_y_same
                    (Z.of_nat (length (name_to_images only_y_same pairs))) pairs in
  StronglySorted (fun a b => (snd b <= snd a)%nat) bars /\
  NoDup (map fst bars) /\
  (0 <= n_highest -> Z.of_nat (length bars) <= n_highest) /\
  (0 <= n_highest -> exists others,
     all_bars = bars ++ others /\
     forall shown other, shown ∈ bars -> other ∈ others -> (snd other <= snd shown)%nat) /\
  sum_list (map snd all_bars)
    = (2 * length (filter (fun p => counted only_y_same p = true) pairs))%nat /\
  (only_y_same = true ->
   Forall (fun p => same_person p = true -> person (image1 p) = person (image2 p)) pairs ->
   Forall (fun bar => Nat.Even (snd bar)) all_bars).
Proof.
  intros bars all_bars. unfold names_with_counts in bars, all_bars.
  set (d := name_to_images only_y_same pairs) in *.
  set (sorted := sort_by_count (map (fun kv => (fst kv, length (snd kv))) d)) in *.
  pose proof (sort_by_count_Sorted (map (fun kv => (fst kv, length (snd kv))) d)) as Hsorted.
  pose proof (sort_by_count_Permutation (map (fun kv => (fst kv, length (snd kv))) d))
    as Hperm.
  fold sorted in Hsorted, Hperm.
  assert (Hlen : length sorted = length d).
  { rewrite Hperm. apply length_map. }
  assert (Hall : all_bars = sorted).
  { unfold all_bars, py_list_prefix, clip_index. rewrite Hlen.
    destruct (Z.ltb_spec (Z.of_nat (length d)) 0); [lia|].
    apply take_ge. lia. }
  pose proof (name_to_images_NoDup only_y_same pairs) as Hkeys. fold d in Hkeys.
  assert (Hsortedkeys : NoDup (map fst sorted)).
  { rewrite Hperm, <- list_fmap_compose. exact Hkeys. }
  set (k := Z.to_nat (clip_index (Z.of_nat (length sorted)) n_highest)).
  assert (Hbars : bars = take k sorted) by reflexivity.
  split; [apply StronglySorted_take, Hsorted|].
  split.
  { rewrite Hbars. rewrite <- (take_drop k sorted) in Hsortedkeys.
    rewrite map_app in Hsortedkeys. apply NoDup_app in Hsortedkeys as [Hnd _]. exact Hnd. }
  split.
  { intros Hn. rewrite Hbars, length_take. unfold k, clip_index.
    destruct (Z.ltb_spec n_highest 0); lia. }
  split.
  { intros Hn. exists (drop k sorted).
    split; [rewrite Hall, Hbars; symmetry; apply take_drop|].
    rewrite Hbars. rewrite <- (take_drop k sorted) in Hsorted.
    revert Hsorted. generalize (take k sorted) (drop k sorted).
    intros l1 l2 Hs shown other H1 H2.
    induction l1 as [|x l1 IH]; [apply elem_of_nil in H1; contradiction|].
    simpl in Hs. apply StronglySorted_inv in Hs as [Hs Hx].
    apply elem_of_cons in H1 as [->|H1]; [|auto].
    apply (proj1 (Forall_forall _ _) Hx). apply elem_of_app. auto. }
  split.
  { rewrite Hall, Hperm, <- list_fmap_compose.
    exact (name_to_images_total only_y_same pairs []). }
  intros Honly Hpairs. rewrite Hall, Hperm. apply Forall_fmap.
  unfold d. rewrite Honly.
  eapply Forall_impl; [exact (name_to_images_even pairs Hpairs)|].
  intros kv Hkv. exact Hkv.
Qed.

Lemma chart_bars_descend_witness :
  Z.of_nat (length (names_with_counts true 250 example_pairs)) <= 250 /\
  Forall (fun bar => Nat.Even (snd bar))
    (names_with_counts true (Z.of_nat (length (name_to_images true example_pairs)))
       example_pairs).
Proof.
  destruct (chart_bars_descend true 250 example_pairs) as (_ & _ & Hlen & _ & _ & Heven).
  split; [apply Hlen; lia|]. apply Heven; [reflexivity|].
  repeat (constructor; [vm_compute; intros Hsame; first [reflexivity|discriminate Hsame]|]).
  constructor.
Defined.

(** ** Loops that do not end *)

Section Rounds.
Context {G : Type} `{RandomGen G}.

(** A first loop that is out of fuel has made [fuel] rounds, each with a
    pair drawn from the pool, and still lacks pairs. *)
Lemma positive_loop_rounds d nb_max same_imgs io fuel st (g g' : G) :
  positive_loop d nb_max same_imgs io fuel st g = (OutOfFuel, g') ->
  exists c st',
    loop_rounds (positive_step d same_imgs io) (push_positive io)
      (positive_candidates d same_imgs) io fuel c st g st' g' /\
    Z.of_nat (nb_added st') < nb_max / 2 /\
    (fuel + nb_added st = c + nb_added st')%nat /\
    ((1 <= fuel)%nat -> all_names_gte2 d ≠ []).
Proof.
  revert st g. induction fuel as [|fuel IH]; intros st g; simpl.
  - destruct (Z.ltb_spec (Z.of_nat (nb_added st)) (nb_max / 2)) as [Hlt|_];
      [|discriminate].
    intros [= <-]. exists 0%nat, st.
    split; [constructor|]. split; [exact Hlt|]. split; lia.
  - destruct (Z.ltb_spec (Z.of_nat (nb_added st)) (nb_max / 2)) as [Hlt|_];
      [|discriminate].
    pose proof (positive_step_fuel d same_imgs io st g) as Hnf.
    destruct (positive_step d same_imgs io st g) as [[st1|e|] g1] eqn:Hstep.
    + rewrite (gen_bind_ret _ _ _ _ _ Hstep). intros Hloop.
      apply IH in Hloop as (c & st' & Hrounds & Hlack & Hcount & _).
      pose proof (positive_step_pool _ _ _ _ _ _ _ Hstep) as Hpool.
      pose proof Hstep as Hspec.
      apply positive_step_spec in Hspec as (p & Hp & Hst1).
      case_bool_decide as Hfresh; subst st1.
      * exists c, st'. split; [exact (rounds_add _ _ _ _ _ _ _ _ _ _ _ _ Hstep Hp Hfresh Hrounds)|].
        split; [exact Hlack|]. simpl in Hcount. split; [lia|auto].
      * assert (Hseen : get_key io p ∈ added st)
          by (destruct (decide (get_key io p ∈ added st)); [assumption|contradiction]).
        exists (S c), st'.
        split; [exact (rounds_collide _ _ _ _ _ _ _ _ _ _ _ _ Hstep Hp Hseen Hrounds)|].
        split; [exact Hlack|]. split; [lia|auto].
    + rewrite (gen_bind_raise _ _ _ _ _ Hstep). discriminate.
    + exfalso. apply Hnf. reflexivity.
Qed.

Lemma negative_loop_rounds d nb_max io fuel st (g g' : G) :
  negative_loop d nb_max io fuel st g = (OutOfFuel, g') ->
  exists c st',
    loop_rounds (negative_step d io) (push_negative io)
      (negative_candidates d) io fuel c st g st' g' /\
    Z.of_nat (nb_added st') < nb_max /\
    (fuel + nb_added st = c + nb_added st')%nat /\
    ((1 <= fuel)%nat -> (2 <= length (all_names d))%nat).
Proof.
  revert st g. induction fuel as [|fuel IH]; intros st g; simpl.
  - destruct (Z.ltb_spec (Z.of_nat (nb_added st)) nb_max) as [Hlt|_];
      [|discriminate].
    intros [= <-]. exists 0%nat, st.
    split; [constructor|]. split; [exact Hlt|]. split; lia.
  - destruct (Z.ltb_spec (Z.of_nat (nb_added st)) nb_max) as [Hlt|_];
      [|discriminate].
    pose proof (negative_step_fuel d io st g) as Hnf.
    destruct (negative_step d io st g) as [[st1|e|] g1] eqn:Hstep.
    + rewrite (gen_bind_ret _ _ _ _ _ Hstep). intros Hloop.
      apply IH in Hloop as (c & st' & Hrounds & Hlack & Hcount & _).
      pose proof (negative_step_pool _ _ _ _ _ _ Hstep) as Hpool.
      pose proof Hstep as Hspec.
      apply negative_step_spec in Hspec as (p & Hp & Hst1).
      case_bool_decide as Hfresh; subst st1.
      * exists c, st'. split; [exact (rounds_add _ _ _ _ _ _ _ _ _ _ _ _ Hstep Hp Hfresh Hrounds)|].
        split; [exact Hlack|]. simpl in Hcount. split; [lia|auto].
      * assert (Hseen : get_key io p ∈ added st)
          by (destruct (decide (get_key io p ∈ added st)); [assumption|contradiction]).
        exists (S c), st'.
        split; [exact (rounds_collide _ _ _ _ _ _ _ _ _ _ _ _ Hstep Hp Hseen Hrounds)|].
        split; [exact Hlack|]. split; [lia|auto].
    + rewrite (gen_bind_raise _ _ _ _ _ Hstep). discriminate.
    + exfalso. apply Hnf. reflexivity.
Qed.

(** C9: on a pool of images (the directory is read without error)
    - in which no person has two images, a call with [nb_max >= 2] raises
      [IndexError] in the first round of the first loop, before any draw;
    - with fewer than two person names, a call with [nb_max >= 1] whose
      first loop has finished raises [IndexError] in the first round of the
      second loop;
    - a call that is still in a loop after [fuel] rounds of it has drawn, in
      every one of these rounds, a pair from pools that are not empty, and
      each round added its pair or drew a pair whose key was in [added]
      already: the rounds are those of the first loop, counted from the
      start of the call, or those of the second loop, counted from the end
      of the first. The rounds that added a pair are fewer than the pairs
      the loop is to collect, all others are collisions. *)
Theorem empty_pool_raises_collisions_loop
    fs fuel path nb_max same_imgs io excl seed (g : G) images :
  get_image_files fs path (map image1 excl ++ map image2 excl) = Ret images ->
  let d := group_by_person images in
  let g0 := match seed with Some a => seed_state a | None => g end in
  (all_names_gte2 d = [] -> 2 <= nb_max -> (1 <= fuel)%nat ->
     get_image_pairs fs fuel path nb_max same_imgs io excl seed g
       = (Raise IndexError, g0)) /\
  ((length (all_names d) < 2)%nat -> 1 <= nb_max -> (1 <= fuel)%nat ->
     forall st1 g1,
       positive_loop d nb_max same_imgs io fuel sampler_init g0 = (Ret st1, g1) ->
       exists g',
         get_image_pairs fs fuel path nb_max same_imgs io excl seed g
           = (Raise IndexError, g')) /\
  (forall g',
     get_image_pairs fs fuel path nb_max same_imgs io excl seed g = (OutOfFuel, g') ->
     (exists c st',
        loop_rounds (positive_step d same_imgs io) (push_positive io)
          (positive_candidates d same_imgs) io fuel c sampler_init g0 st' g' /\
        Z.of_nat (nb_added st') < nb_max / 2 /\
        fuel = (c + nb_added st')%nat /\
        ((1 <= fuel)%nat -> all_names_gte2 d ≠ [])) \/
     (exists st1 g1 c st',
        positive_loop d nb_max same_imgs io fuel sampler_init g0 = (Ret st1, g1) /\
        loop_rounds (negative_step d io) (push_negative io)
          (negative_candidates d) io fuel c st1 g1 st' g' /\
        Z.of_nat (nb_added st') < nb_max /\
        (fuel + nb_added st1 = c + nb_added st')%nat /\
        ((1 <= fuel)%nat -> (2 <= length (all_names d))%nat))).
Proof.
  intros Hfiles d g0. split; [|split].
  - intros Hnil Hmax Hfuel.
    apply get_image_pairs_not_ret; [|discriminate].
    rewrite (get_image_pairs_body_files _ _ _ _ _ _ _ _ _ Hfiles).
    unfold sample_pairs. apply gen_bind_raise.
    apply positive_loop_no_candidates; [exact Hnil| |exact Hfuel].
    simpl. apply Z.div_str_pos. lia.
  - intros Hlen Hmax Hfuel st1 g1 Hpos.
    pose proof Hpos as Hphase.
    apply positive_loop_phase in Hphase as (_ & _ & Hn1);
      [|apply group_by_person_ok].
    destruct (negative_loop_few_names d nb_max io fuel st1 g1 Hlen) as (g' & Hneg);
      [|exact Hfuel|].
    { assert (nb_max / 2 < nb_max) by (apply Z.div_lt_upper_bound; lia). lia. }
    exists g'. apply get_image_pairs_not_ret; [|discriminate].
    rewrite (get_image_pairs_body_files _ _ _ _ _ _ _ _ _ Hfiles).
    unfold sample_pairs. fold d. rewrite (gen_bind_ret _ _ _ _ _ Hpos).
    apply gen_bind_raise. exact Hneg.
  - intros g' Hcall. unfold get_image_pairs in Hcall. fold g0 in Hcall.
    rewrite (get_image_pairs_body_files _ _ _ _ _ _ _ _ _ Hfiles) in Hcall.
    fold d in Hcall.
    destruct (sample_pairs d nb_max same_imgs io fuel g0) as [[l|e|] g2] eqn:Hbody;
      [discriminate..|]. injection Hcall as ->.
    unfold sample_pairs in Hbody.
    destruct (positive_loop d nb_max same_imgs io fuel sampler_init g0)
      as [[st1|e|] g3] eqn:Hpos.
    + rewrite (gen_bind_ret _ _ _ _ _ Hpos) in Hbody.
      destruct (negative_loop d nb_max io fuel st1 g3) as [[st2|e|] g4] eqn:Hneg.
      * rewrite (gen_bind_ret _ _ _ _ _ Hneg) in Hbody.
        pose proof (shuffle_fuel (pairs st2) g4) as Hnf.
        rewrite Hbody in Hnf. destruct Hnf. reflexivity.
      * rewrite (gen_bind_raise _ _ _ _ _ Hneg) in Hbody. discriminate.
      * assert (g4 = g') as ->.
        { unfold gen_bind in Hbody. rewrite Hneg in Hbody.
          injection Hbody as ->. reflexivity. }
        apply negative_loop_rounds in Hneg as (c & st' & Hr & Hlack & Hcount & Hpool).
        right. exists st1, g3, c, st'. auto.
    + rewrite (gen_bind_raise _ _ _ _ _ Hpos) in Hbody. discriminate.
    + assert (g3 = g') as ->.
      { unfold gen_bind in Hbody. rewrite Hpos in Hbody.
        injection Hbody as ->. reflexivity. }
      apply positive_loop_rounds in Hpos as (c & st' & Hr & Hlack & Hcount & Hpool).
      left. exists c, st'. simpl in Hcount.
      split; [exact Hr|]. split; [exact Hlack|]. split; [lia|exact Hpool].
Qed.

End Rounds.
Lemma empty_pool_raises_collisions_loop_witness :
  get_image_pairs strangers_fs 1 "faces" 2 false true [] None [5; 7]%nat
    = (Raise IndexError, [5; 7]%nat) /\
  get_image_pairs alice_bob_fs 3 "faces" 4 false true [] None [0; 0; 1; 0; 1; 0]%nat
    = (OutOfFuel, []) /\
  exists c st',
    loop_rounds (positive_step (group_by_person alice_bob_images) false true)
      (push_positive true)
      (positive_candidates (group_by_person alice_bob_images) false) true
      3 c sampler_init [0; 0; 1; 0; 1; 0]%nat st' [] /\
    (2 <= c)%nat.
Proof.
  assert (Hfiles : get_image_files strangers_fs "faces" [] = Ret strangers_images)
    by (vm_compute; reflexivity).
  assert (Hfiles' : get_image_files alice_bob_fs "faces" [] = Ret alice_bob_images)
    by (vm_compute; reflexivity).
  assert (Hrun :
    get_image_pairs alice_bob_fs 3 "faces" 4 false true [] None [0; 0; 1; 0; 1; 0]%nat
      = (OutOfFuel, [])) by (vm_compute; reflexivity).
  split; [|split; [exact Hrun|]].
  - apply (proj1 (empty_pool_raises_collisions_loop
                    strangers_fs 1%nat "faces" 2 false true [] None [5; 7]%nat
                    strangers_images Hfiles));
      [vm_compute; reflexivity|lia|lia].
  - destruct (proj2 (proj2 (empty_pool_raises_collisions_loop
                alice_bob_fs 3%nat "faces" 4 false true [] None [0; 0; 1; 0; 1; 0]%nat
                alice_bob_images Hfiles')) [] Hrun)
      as [(c & st' & Hrounds & Hlack & Hcount & _)
         |(st1 & g1 & c & st' & Hpos & _)].
    + exists c, st'. split; [exact Hrounds|].
      change (4 / 2) with 2 in Hlack. lia.
    + vm_compute in Hpos. discriminate Hpos.
Defined.

(** ** The generator after a call *)

Section Advances.
Context {G : Type} `{RandomGen G}.

Lemma advances_ret {A : Type} (a : A) : advances (G := G) (gen_ret a).
Proof. intros g o g' [= <- <-]. exists 0%nat. constructor. Qed.

Lemma advances_lift {A : Type} (o : outcome A) : advances (G := G) (gen_lift o).
Proof. intros g o' g' [= <- <-]. exists 0%nat. constructor. Qed.

Lemma advances_bind {A B : Type} (m : M G A) (f : A -> M G B) :
  advances m -> (forall a, advances (f a)) -> advances (gen_bind m f).
Proof.
  intros Hm Hf g o g'. unfold gen_bind.
  destruct (m g) as [[a|e|] g1] eqn:Hrun; specialize (Hm _ _ _ Hrun) as (k1 & Hk1).
  - intros Hrest. apply Hf in Hrest as (k2 & Hk2).
    exists (k1 + k2)%nat. exact (draws_from_trans _ _ _ _ _ Hk1 Hk2).
  - intros [= <- <-]. eauto.
  - intros [= <- <-]. eauto.
Qed.

Lemma advances_choice {A : Type} (seq : list A) : advances (G := G) (choice seq).
Proof.
  intros g o g'. unfold choice. destruct seq as [|a seq].
  - intros [= <- <-]. exists 0%nat. constructor.
  - pose proof (draws_from_one (length (a :: seq)) g) as Hone.
    destruct (randbelow _ g) as [i g1]. simpl in Hone.
    destruct (_ !! i); intros [= <- <-]; eauto.
Qed.

Lemma advances_shuffle_down {A : Type} (i : nat) (x : list A) :
  advances (G := G) (shuffle_down i x).
Proof.
  revert x. induction i as [|i IH]; intros x; cbn [shuffle_down].
  - apply advances_ret.
  - intros g o g'.
    pose proof (draws_from_one (S i + 1) g) as Hone.
    destruct (randbelow _ g) as [j g1]. simpl in Hone. intros Hrest.
    apply (advances_bind _ _ (advances_lift _) (fun x' => IH x')) in Hrest
      as (k & Hk).
    exists (1 + k)%nat. exact (draws_from_trans _ _ _ _ _ Hone Hk).
Qed.

Lemma advances_positive_step d same_imgs io st :
  advances (G := G) (positive_step d same_imgs io st).
Proof.
  unfold positive_step.
  apply advances_bind; [apply advances_choice|intros person].
  apply advances_bind; [apply advances_choice|intros img1].
  apply advances_bind; [destruct same_imgs; apply advances_choice|intros img2].
  case_bool_decide; apply advances_ret.
Qed.

Lemma advances_negative_step d io st :
  advances (G := G) (negative_step d io st).
Proof.
  unfold negative_step.
  apply advances_bind; [apply advances_choice|intros person1].
  apply advances_bind; [apply advances_choice|intros person2].
  apply advances_bind; [apply advances_choice|intros img1].
  apply advances_bind; [apply advances_choice|intros img2].
  case_bool_decide; apply advances_ret.
Qed.

Lemma advances_positive_loop d nb_max same_imgs io fuel st :
  advances (G := G) (positive_loop d nb_max same_imgs io fuel st).
Proof.
  revert st. induction fuel as [|fuel IH]; intros st; cbn [positive_loop];
    destruct (_ <? _); try apply advances_ret; [apply advances_lift|].
  apply advances_bind; [apply advances_positive_step|exact IH].
Qed.

Lemma advances_negative_loop d nb_max io fuel st :
  advances (G := G) (negative_loop d nb_max io fuel st).
Proof.
  revert st. induction fuel as [|fuel IH]; intros st; cbn [negative_loop];
    destruct (_ <? _); try apply advances_ret; [apply advances_lift|].
  apply advances_bind; [apply advances_negative_step|exact IH].
Qed.

Lemma advances_get_image_pairs_body fs fuel path nb_max same_imgs io excl :
  advances (G := G) (get_image_pairs_body fs fuel path nb_max same_imgs io excl).
Proof.
  unfold get_image_pairs_body. destruct (negb _).
  - intros g o g' [= <- <-]. exists 0%nat. constructor.
  - apply advances_bind; [apply advances_lift|intros images].
    unfold sample_pairs.
    apply advances_bind; [apply advances_positive_loop|intros st1].
    apply advances_bind; [apply advances_negative_loop|intros st2].
    apply advances_shuffle_down.
Qed.

Lemma get_image_pairs_unseeded fs fuel path nb_max same_imgs io excl (g : G) :
  get_image_pairs fs fuel path nb_max same_imgs io excl None g
    = get_image_pairs_body fs fuel path nb_max same_imgs io excl g.
Proof.
  unfold get_image_pairs.
  destruct (get_image_pairs_body _ _ _ _ _ _ _ _) as [[l|e|] g1]; reflexivity.
Qed.

(** With nothing to collect, no pair is added and no draw is made. *)
Lemma sample_pairs_nothing d nb_max same_imgs io fuel (g : G) :
  nb_max <= 0 -> sample_pairs d nb_max same_imgs io fuel g = (Ret [], g).
Proof.
  intros Hmax. unfold sample_pairs.
  assert (Hhalf : nb_max / 2 <= 0) by (apply Z.div_le_upper_bound; lia).
  assert (Hpos : positive_loop d nb_max same_imgs io fuel sampler_init g
                 = (Ret sampler_init, g)).
  { destruct fuel; simpl;
      (destruct (Z.ltb_spec (Z.of_nat 0) (nb_max / 2)); [lia|reflexivity]). }
  assert (Hneg : negative_loop d nb_max io fuel sampler_init g
                 = (Ret sampler_init, g)).
  { destruct fuel; simpl;
      (destruct (Z.ltb_spec (Z.of_nat 0) nb_max); [lia|reflexivity]). }
  rewrite (gen_bind_ret _ _ _ _ _ Hpos), (gen_bind_ret _ _ _ _ _ Hneg).
  reflexivity.
Qed.

(** C4: two calls with the same seed and the same arguments end alike,
    whatever the state of the generator was, and when they do not return
    they also leave the same state. A seeded call that returns leaves the
    generator in the state it found. A seeded call that does not return
    leaves the state reached from the seeded state by the draws made so far,
    the seeded state itself when the path is no directory. An unseeded call
    leaves the state reached from the one it found by the draws it made: at
    least one for every pair returned, none when the path is no directory
    or when [nb_max <= 0]. *)
Theorem seeded_return_restores_state fs fuel path nb_max same_imgs io excl :
  let call := get_image_pairs (G := G) fs fuel path nb_max same_imgs io excl in
  (forall a (g1 g2 : G),
     fst (call (Some a) g1) = fst (call (Some a) g2) /\
     ((forall l, fst (call (Some a) g1) ≠ Ret l) ->
      snd (call (Some a) g1) = snd (call (Some a) g2))) /\
  (forall a (g g' : G) l, call (Some a) g = (Ret l, g') -> g' = g) /\
  (forall a (g g' : G) o,
     call (Some a) g = (o, g') -> (forall l, o ≠ Ret l) ->
     exists k, draws_from (seed_state a) k g') /\
  (fs_isdir fs path = false ->
   forall seed (g : G),
     call seed g
       = (Raise (PyException (not_a_directory_msg path)),
          match seed with Some a => seed_state a | None => g end)) /\
  (forall (g g' : G) o,
     call None g = (o, g') ->
     exists k, draws_from g k g' /\
       forall l, o = Ret l -> (length l <= k)%nat /\ length l = Z.to_nat nb_max) /\
  (fs_isdir fs path = true -> nb_max <= 0 ->
   forall g : G, call None g = (Ret [], g)).
Proof.
  intros call. subst call. repeat split.
  - unfold get_image_pairs.
    destruct (get_image_pairs_body _ _ _ _ _ _ _ _) as [[l|e|] g3]; reflexivity.
  - unfold get_image_pairs.
    destruct (get_image_pairs_body _ _ _ _ _ _ _ _) as [[l|e|] g3]; simpl;
      [intros Hnot; destruct (Hnot l); reflexivity|reflexivity..].
  - intros a g g' l Hcall.
    apply get_image_pairs_ret_inv in Hcall
      as (images & st1 & st2 & g0 & g1 & g2 & g3 & _ & _ & _ & _ & _ & _ & Hg').
    exact Hg'.
  - intros a g g' o Hcall Hnot. unfold get_image_pairs in Hcall.
    destruct (get_image_pairs_body fs fuel path nb_max same_imgs io excl (seed_state a))
      as [o' g1] eqn:Hbody.
    apply advances_get_image_pairs_body in Hbody.
    destruct o' as [l|e|]; injection Hcall as <- <-;
      [destruct (Hnot l); reflexivity|exact Hbody..].
  - intros Hdir seed g. unfold get_image_pairs, get_image_pairs_body.
    rewrite Hdir. reflexivity.
  - intros g g' o Hcall.
    destruct o as [l|e|].
    + pose proof (returned_composition _ _ _ _ _ _ _ _ _ _ _ Hcall) as (Hlen & _).
      apply get_image_pairs_ret_inv in Hcall
        as (images & st1 & st2 & g0 & g1 & g2 & g3 & _ & _ & -> & Hpos & Hneg & Hsh & ->).
      pose proof (positive_loop_phase _ _ _ _ _ _ _ _ (group_by_person_ok images) Hpos)
        as (Hn1 & _ & _).
      pose proof (negative_loop_phase _ _ _ _ _ _ _ _ (group_by_person_ok images) Hn1 Hneg)
        as (Hn2 & _ & _).
      apply positive_loop_draws in Hpos as (k1 & Hk1 & Hle1).
      apply negative_loop_draws in Hneg as (k2 & Hk2 & Hle2).
      pose proof (shuffle_Permutation _ _ _ _ Hsh) as Hperm.
      apply shuffle_down_draws in Hsh.
      exists (k1 + k2 + (length (pairs st2) - 1))%nat.
      split; [exact (draws_from_trans _ _ _ _ _ (draws_from_trans _ _ _ _ _ Hk1 Hk2) Hsh)|].
      intros l' [= <-]. split; [|exact Hlen].
      rewrite Hperm, <- Hn2. simpl in Hle1. lia.
    + rewrite get_image_pairs_unseeded in Hcall.
      apply advances_get_image_pairs_body in Hcall as (k & Hk).
      exists k. split; [exact Hk|discriminate].
    + rewrite get_image_pairs_unseeded in Hcall.
      apply advances_get_image_pairs_body in Hcall as (k & Hk).
      exists k. split; [exact Hk|discriminate].
  - intros Hdir Hmax g.
    destruct (get_image_files_scan fs path (map image1 excl ++ map image2 excl) Hdir)
      as (scanned & Hfiles & _).
    unfold get_image_pairs.
    rewrite (get_image_pairs_body_files _ _ _ _ _ _ _ _ _ Hfiles).
    rewrite (sample_pairs_nothing _ _ _ _ _ _ Hmax). reflexivity.
Qed.

End Advances.

Lemma seeded_return_restores_state_witness :
  get_image_pairs alice_bob_fs 10 "faces" 2 false true [] (Some 10) [1; 2; 3]%nat
    = (Ret seeded_example_pairs, [1; 2; 3]%nat) /\
  get_image_pairs alice_only_fs 10 "faces" 3 false true [] (Some 3) [1; 2]%nat
    = (Raise IndexError, []) /\
  exists k, draws_from (seed_state 3) k (@nil nat).
Proof.
  assert (Hrun : exists g',
    get_image_pairs alice_bob_fs 10 "faces" 2 false true [] (Some 10) [1; 2; 3]%nat
      = (Ret seeded_example_pairs, g')) by (eexists; vm_compute; reflexivity).
  destruct Hrun as (g' & Hrun).
  assert (Hraise :
    get_image_pairs alice_only_fs 10 "faces" 3 false true [] (Some 3) [1; 2]%nat
      = (Raise IndexError, [])) by (vm_compute; reflexivity).
  split; [|split; [exact Hraise|]].
  - rewrite Hrun. f_equal.
    exact (proj1 (proj2 (seeded_return_restores_state _ _ _ _ _ _ _)) _ _ _ _ Hrun).
  - apply (proj1 (proj2 (proj2 (seeded_return_restores_state
                                  alice_only_fs 10 "faces" 3 false true [])))
             3 [1; 2]%nat [] (Raise IndexError) Hraise).
    discriminate.
Defined.

(** ** The weights files of a directory *)

Lemma append_assoc (a b c : string) : (a +:+ b) +:+ c = a +:+ b +:+ c.
Proof. apply chars_inj. rewrite !chars_app, app_assoc. reflexivity. Qed.

Lemma chars_rev (s : string) : chars (String.rev s) = rev (chars s).
Proof. unfold String.rev. rewrite chars_rev_app. apply app_nil_r. Qed.

Lemma startswith_spec (f p : string) :
  startswith f p = true <-> exists rest, f = p +:+ rest.
Proof.
  unfold startswith. split.
  - intros Hp. apply prefix_chars in Hp as (rest & Hf).
    exists (of_chars rest). apply chars_inj.
    rewrite chars_app, chars_of_chars. exact Hf.
  - intros (rest & ->). apply String.prefix_correct. apply chars_inj.
    rewrite chars_substring, chars_app, drop_0, length_chars.
    apply take_app_length.
Qed.

Lemma endswith_spec (f s : string) :
  endswith f s = true <-> exists front, f = front +:+ s.
Proof.
  unfold endswith. fold (startswith (String.rev f) (String.rev s)).
  rewrite startswith_spec. split.
  - intros (rest & Hrev). exists (String.rev rest). apply chars_inj.
    apply (f_equal chars) in Hrev. rewrite chars_app, !chars_rev in Hrev.
    apply (f_equal (@rev ascii)) in Hrev.
    rewrite rev_app_distr, !rev_involutive in Hrev.
    rewrite chars_app, chars_rev. exact Hrev.
  - intros (front & ->). exists (String.rev front). apply chars_inj.
    rewrite chars_app, !chars_rev, chars_app, rev_app_distr. reflexivity.
Qed.

Lemma is_weights_file_test (fs : FileSystem) (dir id f : string) :
  is_weights_file fs dir id f <->
  fs_isfile fs (os_path_join dir f) = true /\
  (startswith f (id +:+ ".") && endswith f ".weights")%bool = true.
Proof.
  unfold is_weights_file.
  rewrite andb_true_iff, startswith_spec, endswith_spec.
  split; intros (Hfile & (rest & Hrest) & Hfront);
    (split; [exact Hfile|split; [exists rest|exact Hfront]]).
  - rewrite append_assoc. exact Hrest.
  - rewrite <- append_assoc. exact Hrest.
Qed.

Lemma is_last_weights_file_test (fs : FileSystem) (dir id f : string) :
  is_last_weights_file fs dir id f <->
  (fs_isfile fs (os_path_join dir f) = true /\
   (startswith f (id +:+ ".") && endswith f ".weights")%bool = true) /\
  endswith f ".last.weights" = true.
Proof.
  unfold is_last_weights_file. rewrite is_weights_file_test, endswith_spec.
  reflexivity.
Qed.

(** The names that [load_weights] keeps, for a directory that can be
    listed. *)
Lemma weight_filenames_listing fs dir id listing :
  fs_listdir fs dir = Some listing ->
  exists filenames,
    weight_filenames fs dir id = Ret filenames /\
    filenames
      = filter (fun f => fs_isfile fs (os_path_join dir f) = true /\
                         (startswith f (id +:+ ".") && endswith f ".weights")%bool
                           = true) listing /\
    (forall f, f ∈ filenames <-> f ∈ listing /\ is_weights_file fs dir id f).
Proof.
  intros Hlist. unfold weight_filenames. rewrite Hlist.
  eexists. split; [reflexivity|]. split.
  - rewrite list_filter_filter. apply list_filter_iff. intros f. tauto.
  - intros f. rewrite !list_elem_of_filter, is_weights_file_test. tauto.
Qed.

Lemma filter_none {A : Type} (P : A -> Prop) `{forall x, Decision (P x)} (l : list A) :
  (forall x, x ∈ l -> ~ P x) -> filter P l = [].
Proof.
  induction l as [|x l IH]; intros Hnone; [reflexivity|].
  rewrite filter_cons, decide_False by (apply Hnone; left).
  apply IH. intros y Hy. apply Hnone. right. exact Hy.
Qed.


Lemma filter_two {A : Type} (P : A -> Prop) `{forall x, Decision (P x)}
    (l1 : list A) (x : A) (l2 : list A) (y : A) (l3 : list A) :
  P x -> P y -> (2 <= length (filter P (l1 ++ x :: l2 ++ y :: l3)))%nat.
Proof.
  intros Hx Hy.
  rewrite filter_app, filter_cons, decide_True by exact Hx.
  rewrite filter_app, filter_cons, decide_True by exact Hy.
  rewrite length_app. simpl. rewrite length_app. simpl. lia.
Qed.
(** ** load_weights and load_previous_model: errors *)

(** [history.epochs[-1]] *)
Lemma py_index_last (l : list Z) :
  (l = [] /\ py_index l (length l - 1) = Raise IndexError) \/
  (exists front last, l = front ++ [last] /\ py_index l (length l - 1) = Ret last).
Proof.
  destruct l as [|x l] using rev_ind; [left; split; reflexivity|].
  right. exists l, x. split; [reflexivity|].
  unfold py_index. rewrite length_app. simpl.
  replace (length l + 1 - 1)%nat with (length l + 0)%nat by lia.
  rewrite lookup_app_r, Nat.add_0_r, Nat.sub_diag by lia. reflexivity.
Qed.

(** C7: for a directory that can be listed,
    - [load_weights] raises the ambiguity error when two entries of the
      listing are weights files of the identifier that end in
      [.last.weights];
    - when no entry is a weights file of the identifier it returns
      [(False, -1)] and the model is the one passed in, and this is the only
      way to get [found = False];
    - [load_previous_model] raises what [load_weights] raises; it raises its
      own exception when [load_weights] returns [found = False]; when
      [load_weights] returns [found = True] it goes on to the history: it
      raises what reading the history raises, it raises [IndexError] when
      the history has no epoch, and it returns the last epoch otherwise. It
      raises in these cases only. *)
Theorem load_weights_ambiguous_or_not_found fs model dir id listing :
  fs_listdir fs dir = Some listing ->
  (forall l1 f1 l2 f2 l3,
     listing = l1 ++ f1 :: l2 ++ f2 :: l3 ->
     is_last_weights_file fs dir id f1 -> is_last_weights_file fs dir id f2 ->
     load_weights fs model dir id = Raise (PyException ambiguous_msg)) /\
  ((forall f, f ∈ listing -> ~ is_weights_file fs dir id f) ->
     load_weights fs model dir id = Ret (model, (false, EpochNum (-1)))) /\
  (forall m' e,
     load_weights fs model dir id = Ret (m', (false, e)) ->
     m' = model /\ e = EpochNum (-1) /\
     forall f, f ∈ listing -> ~ is_weights_file fs dir id f) /\
  (forall (History Row : Type) history_load history_epochs history_row
          format_identifier la_plotter csv_filepath,
     let call :=
       load_previous_model History Row history_load history_epochs history_row
         format_identifier fs id model la_plotter dir csv_filepath in
     let read_history m' e :=
       (history <-? history_load (format_identifier csv_filepath id) e;
        la_plotter' <-? replay_history History Row history_row history 0
                          (history_epochs history) la_plotter;
        last <-? py_index (history_epochs history)
                   (length (history_epochs history) - 1);
        Ret (m', la_plotter', (last, history))) in
     (forall x, load_weights fs model dir id = Raise x -> call = Raise x) /\
     (forall m' e,
        load_weights fs model dir id = Ret (m', (false, e)) ->
        call = Raise (PyException no_weights_msg)) /\
     (forall m' e,
        load_weights fs model dir id = Ret (m', (true, e)) ->
        call = read_history m' e /\
        (forall x, history_load (format_identifier csv_filepath id) e = Raise x ->
                   call = Raise x) /\
        (forall history la_plotter',
           history_load (format_identifier csv_filepath id) e = Ret history ->
           replay_history History Row history_row history 0
             (history_epochs history) la_plotter = Ret la_plotter' ->
           (history_epochs history = [] -> call = Raise IndexError) /\
           (forall front last,
              history_epochs history = front ++ [last] ->
              call = Ret (m', la_plotter', (last, history))))) /\
     (forall x,
        call = Raise x <->
        load_weights fs model dir id = Raise x \/
        (x = PyException no_weights_msg /\
         exists m' e, load_weights fs model dir id = Ret (m', (false, e))) \/
        (exists m' e, load_weights fs model dir id = Ret (m', (true, e)) /\
                      read_history m' e = Raise x))).
Proof.
  intros Hlist.
  destruct (weight_filenames_listing fs dir id listing Hlist)
    as (filenames & Hfiles & Hfilter & Helem).
  split; [|split; [|split]].
  - intros l1 f1 l2 f2 l3 Hlisting Hf1 Hf2.
    apply is_last_weights_file_test in Hf1 as [Hw1 Hlast1].
    apply is_last_weights_file_test in Hf2 as [Hw2 Hlast2].
    unfold load_weights. rewrite Hfiles. cbn [obind].
    assert (Hlen : (2 <= length (filter (fun f => endswith f ".last.weights" = true)
                                        filenames))%nat).
    { rewrite Hfilter, list_filter_filter, Hlisting.
      apply filter_two; split; assumption. }
    destruct (Nat.eqb_spec (length filenames) 0) as [Hnil|_].
    + apply nil_length_inv in Hnil. rewrite Hnil in Hlen. simpl in Hlen. lia.
    + apply Nat.leb_le in Hlen. rewrite Hlen. reflexivity.
  - intros Hnone. unfold load_weights. rewrite Hfiles. cbn [obind].
    assert (filenames = []) as ->; [|reflexivity].
    rewrite Hfilter. apply filter_none. intros f Hf Htest.
    apply (Hnone f Hf), is_weights_file_test, Htest.
  - intros m' e Hload.
    apply load_weights_found_false in Hload as (Hm & He & Hnil).
    split; [exact Hm|]. split; [exact He|].
    intros f Hf Hw. rewrite Hfiles in Hnil. injection Hnil as Hnil.
    assert (Hin : f ∈ filenames) by (apply Helem; auto).
    rewrite Hnil in Hin. apply elem_of_nil in Hin. exact Hin.
  - intros History Row history_load history_epochs history_row
      format_identifier la_plotter csv_filepath call read_history.
    subst call read_history. unfold load_previous_model.
    split; [|split; [|split]].
    + intros x ->. reflexivity.
    + intros m' e ->. reflexivity.
    + intros m' e ->. cbn [obind negb]. split; [reflexivity|]. split.
      * intros x ->. reflexivity.
      * intros history la_plotter' -> Hreplay. cbn [obind]. rewrite Hreplay.
        cbn [obind]. split.
        -- intros ->. reflexivity.
        -- intros front last Hepochs.
           destruct (py_index_last (history_epochs history))
             as [[Hnil _]|(front' & last' & Hsplit & ->)].
           ++ rewrite Hnil in Hepochs. destruct front; discriminate.
           ++ rewrite Hepochs in Hsplit.
              apply app_inj_tail in Hsplit as [_ ->]. reflexivity.
    + intros x.
      destruct (load_weights fs model dir id) as [[m' [[|] ep]]|e'|]; cbn [obind negb].
      * split.
        -- intros Hraise. right. right. exists m', ep. auto.
        -- intros [Hload|[[_ (m1 & e1 & Hload)]|(m1 & e1 & Hload & Hraise)]];
             [discriminate Hload|discriminate Hload|].
           injection Hload as <- <-. exact Hraise.
      * split.
        -- intros [= <-]. right. left. split; [reflexivity|]. eauto.
        -- intros [Hload|[[-> _]|(m1 & e1 & Hload & _)]];
             [discriminate Hload|reflexivity|discriminate Hload].
      * split.
        -- intros [= <-]. left. reflexivity.
        -- intros [Hload|[[_ (m1 & e1 & Hload)]|(m1 & e1 & Hload & _)]];
             [injection Hload as ->; reflexivity|discriminate Hload..].
      * split; [discriminate|].
        intros [Hload|[[_ (m1 & e1 & Hload)]|(m1 & e1 & Hload & _)]];
          discriminate Hload.
Qed.

Lemma load_weights_ambiguous_or_not_found_witness :
  load_weights two_last_fs {| loaded_weights := [] |} "weights" "model1"
    = Raise (PyException ambiguous_msg) /\
  load_previous_model (list Z) nat (fun _ _ => Ret [100; 200]) (fun h => h)
      (fun _ i => Ret i) (fun csv _ => csv)
      two_last_fs "model1" {| loaded_weights := [] |} [] "weights" "history.csv"
    = Raise (PyException ambiguous_msg).
Proof.
  pose proof (load_weights_ambiguous_or_not_found
                two_last_fs {| loaded_weights := [] |} "weights" "model1"
                ["model1.a.last.weights"; "model1.b.last.weights"; "model2.at3.weights"]
                eq_refl) as (Hambiguous & _ & _ & Hprevious).
  assert (Hload :
    load_weights two_last_fs {| loaded_weights := [] |} "weights" "model1"
      = Raise (PyException ambiguous_msg)).
  { apply (Hambiguous [] "model1.a.last.weights" [] "model1.b.last.weights"
             ["model2.at3.weights"] eq_refl);
      apply is_last_weights_file_test; vm_compute; auto. }
  split; [exact Hload|].
  exact (proj1 (Hprevious (list Z) nat (fun _ _ => Ret [100; 200]) (fun h => h)
                  (fun _ i => Ret i) (fun csv _ => csv) [] "history.csv")
           _ Hload).
Defined.

(** The claim of C7 fails in its last part: [load_previous_model] raises
    although [load_weights] has found weights, when the history holds no
    epoch, and it raises when [load_weights] raises and so reports
    nothing. *)
Lemma load_previous_model_raises_after_found :
  load_weights epochs_fs {| loaded_weights := [] |} "weights" "model1"
    = Ret ({| loaded_weights := ["weights/model1.at200.weights"] |},
           (true, EpochNum 200)) /\
  load_previous_model (list Z) nat (fun _ _ => Ret []) (fun h => h)
      (fun _ i => Ret i) (fun csv _ => csv)
      epochs_fs "model1" {| loaded_weights := [] |} [] "weights" "history.csv"
    = Raise IndexError /\
  load_weights two_last_fs {| loaded_weights := [] |} "weights" "model1"
    = Raise (PyException ambiguous_msg) /\
  load_previous_model (list Z) nat (fun _ _ => Ret [100; 200]) (fun h => h)
      (fun _ i => Ret i) (fun csv _ => csv)
      two_last_fs "model1" {| loaded_weights := [] |} [] "weights" "history.csv"
    = Raise (PyException ambiguous_msg).
Proof. repeat split; vm_compute; reflexivity. Qed.

(** ** load_weights: the file that is loaded *)










(** ** Names that do not match the pattern *)

(** C8: [ImageFile(directory, name)] does not compare the name with the
    pattern of [get_image_files], and it has no parse error of its own: it
    raises nothing but the [ValueError] of [int], and this exactly when the
    base name of the path holds no decimal digit, or more digits than [int]
    converts. Any other name gives a record, whether it matches the pattern
    or not. [get_image_files] builds records from names that match the
    pattern only: on a directory it returns, every record it returns has a
    matching name, and the names of the records are the names of the walk
    that match and are not excluded, the others are skipped. *)
Theorem ImageFile_init_parses_any_name_with_digits :
  (forall (id : nat) (directory name : string),
     let base := os_path_basename (os_path_join directory name) in
     let digits := String.length (strip_non_digits base) in
     match ImageFile_init id directory name with
     | Ret img =>
       no_digit base = false /\ (digits <= int_max_str_digits)%nat /\
       oid img = id /\ filename img = name /\
       filepath img = os_path_join directory name /\
       person img = filepath_to_person_name (os_path_join directory name)
     | Raise e =>
       e = ValueError /\
       (no_digit base = true \/ (int_max_str_digits < digits)%nat)
     | OutOfFuel => False
     end) /\
  (forall fs path excl,
     fs_isdir fs path = true ->
     exists images,
       get_image_files fs path excl = Ret images /\
       (forall img, img ∈ images -> re_match_image_name (filename img) = true) /\
       map filename images
         ≡ₚ filter (fun name => kept_name (list_to_set (map filename excl)) name = true)
              (map snd (walk_files (fs_walk fs path)))).
Proof.
  split.
  - intros id directory name base digits. subst base digits.
    unfold ImageFile_init.
    destruct (filepath_to_number_cases (os_path_join directory name))
      as [[Hd Hn]|[(Hd & Hlen & n & Hn)|(Hd & Hlen & Hn)]]; rewrite Hn; cbn [obind].
    + split; [reflexivity|left; exact Hd].
    + repeat split; assumption.
    + split; [reflexivity|right; exact Hlen].
  - intros fs path excl Hdir.
    destruct (get_image_files_scan fs path excl Hdir) as (scanned & Hget & _).
    exists (sorted_by_filename scanned). split; [exact Hget|].
    destruct (get_image_files_facts _ _ _ _ Hget) as (_ & Hperm & _ & _ & Helem).
    split.
    + intros img Himg. destruct (Helem img Himg) as ([d n] & Hf & Hb).
      apply list_elem_of_filter in Hf as [Hkept _]. simpl in Hkept.
      apply ImageFile_init_fields in Hb as (_ & Hname & _). simpl in Hname.
      unfold kept_name in Hkept. apply andb_true_iff in Hkept as [Hkept _].
      rewrite Hname. exact Hkept.
    + rewrite Hperm. clear.
      match goal with |- ?a ≡ₚ ?b => assert (Heq : a = b); [|rewrite Heq; reflexivity] end.
      induction (walk_files (fs_walk fs path)) as [|[d n] files IH]; [reflexivity|].
      cbn [map]. rewrite !filter_cons. cbn [snd].
      case_decide; [cbn [map]; rewrite IH; reflexivity|exact IH].
Qed.

Lemma ImageFile_init_parses_any_name_with_digits_witness :
  exists images,
    get_image_files mixed_fs "faces" [] = Ret images /\
    (forall img, img ∈ images -> re_match_image_name (filename img) = true) /\
    map filename images
      ≡ₚ ["Bob_0001.pgm"; "Alice_0002.pgm"; "Alice_0001.pgm"; "Carol_0001.jpeg"].
Proof.
  destruct (proj2 ImageFile_init_parses_any_name_with_digits mixed_fs "faces" [] eq_refl)
    as (images & Hget & Hmatch & Hperm).
  exists images. split; [exact Hget|]. split; [exact Hmatch|exact Hperm].
Defined.

(** The claim of C8 fails in its first part: a name that does not match the
    pattern gives a record when it holds a digit (without an underscore, the
    person is the base name less its last character), and the error for a
    name without a digit is the [ValueError] of [int]. *)
Lemma ImageFile_init_accepts_unmatched_name :
  re_match_image_name "Alice0001.pgm" = false /\
  ImageFile_init 0 "faces" "Alice0001.pgm"
    = Ret {| oid := 0; filepath := "faces/Alice0001.pgm"; filename := "Alice0001.pgm";
             person := "Alice0001.pg"; number := 1 |} /\
  re_match_image_name "notes.txt" = false /\
  ImageFile_init 0 "faces" "notes.txt" = Raise ValueError.
Proof. repeat split; vm_compute; reflexivity. Qed.

(** ** Whether a call returns *)

Section DrawnPair.
Context {G : Type} `{RandomGen G}.


End DrawnPair.




